(** * pg-sql2: the SQL fragment builder and its compiler

    A shallow embedding of the [pg-sql2] module (the fragment algebra, the
    constructors, [compile], [isEquivalent] and [replaceSymbol]) together
    with the properties of it that the specification states.

    Conventions of the embedding.
    - A JavaScript string is a [string]: a sequence of character codes
      below 256.  Every regular expression of the module uses ASCII classes
      only and is written out as a recursive matcher.
    - A JavaScript object has an identity.  Every node carries the identity
      ([oid]) it was allocated with, [===] on objects compares identities,
      and functions that allocate run in a state monad that threads the
      allocator.
    - A function that can throw returns a [result]; mutable state (the
      module's caches, the scratch state of one [compile]) is threaded
      explicitly and survives a throw, as it does in JavaScript.
    - Counters are JavaScript numbers; they are embedded as [N], which is
      exact below 2^53. *)

From Stdlib Require Import NArith ZArith Ascii String List Bool Lia.
From Stdlib Require Import DecimalString DecimalN DecimalPos.
From stdpp Require Import base option list gmap strings.

Local Open Scope string_scope.
Local Open Scope list_scope.
#[local] Set Warnings "-register-all".

(* ================================================================== *)
(** * Characters and strings *)
(* ================================================================== *)

Definition code (c : ascii) : N := N_of_ascii c.

Definition in_range (lo hi : N) (c : ascii) : bool :=
  (lo <=? code c)%N && (code c <=? hi)%N.

Definition is_digit (c : ascii) : bool := in_range 48 57 c.
Definition is_upper (c : ascii) : bool := in_range 65 90 c.
Definition is_lower (c : ascii) : bool := in_range 97 122 c.

Definition ch_dquote : ascii := ascii_of_N 34.
Definition ch_squote : ascii := ascii_of_N 39.
Definition ch_underscore : ascii := ascii_of_N 95.
Definition ch_dot : ascii := ascii_of_N 46.
Definition ch_dollar : ascii := ascii_of_N 36.
Definition ch_newline : ascii := ascii_of_N 10.
Definition ch_semicolon : ascii := ascii_of_N 59.

Definition is_char (x : ascii) (c : ascii) : bool := (code c =? code x)%N.

(** The class [[a-zA-Z0-9_]]. *)
Definition is_word (c : ascii) : bool :=
  is_lower c || is_upper c || is_digit c || is_char ch_underscore c.

(** The class [[a-z0-9_]]. *)
Definition is_mangled_char (c : ascii) : bool :=
  is_lower c || is_digit c || is_char ch_underscore c.

(** The class of [literal]: letters, digits and the characters
    - _ @ ! $ space : . and the double quote. *)
Definition is_inline_safe_char (c : ascii) : bool :=
  is_word c
  || is_char (ascii_of_N 45) c  (* - *)
  || is_char (ascii_of_N 64) c  (* @ *)
  || is_char (ascii_of_N 33) c  (* ! *)
  || is_char ch_dollar c
  || is_char (ascii_of_N 32) c  (* space *)
  || is_char (ascii_of_N 58) c  (* : *)
  || is_char ch_dquote c
  || is_char ch_dot c.

(** The class [\s] restricted to codes below 256. *)
Definition is_space (c : ascii) : bool :=
  in_range 9 13 c || is_char (ascii_of_N 32) c || is_char (ascii_of_N 160) c.

Definition to_lower (c : ascii) : ascii :=
  if is_upper c then ascii_of_N (code c + 32) else c.

Fixpoint str_all (p : ascii -> bool) (s : string) : bool :=
  match s with
  | EmptyString => true
  | String c r => p c && str_all p r
  end.

Definition str_nonempty (s : string) : bool :=
  match s with EmptyString => false | _ => true end.

(** [p+] anchored at both ends. *)
Definition str_all1 (p : ascii -> bool) (s : string) : bool :=
  str_nonempty s && str_all p s.

Fixpoint str_last (s : string) : option ascii :=
  match s with
  | EmptyString => None
  | String c EmptyString => Some c
  | String _ r => str_last r
  end.

Fixpoint str_init (s : string) : string :=
  match s with
  | EmptyString => EmptyString
  | String _ EmptyString => EmptyString
  | String c r => String c (str_init r)
  end.

Fixpoint str_take (k : nat) (s : string) : string :=
  match k, s with
  | S k', String c r => String c (str_take k' r)
  | _, _ => EmptyString
  end.

Fixpoint str_repeat (s : string) (k : nat) : string :=
  match k with
  | O => EmptyString
  | S k' => s ++ str_repeat s k'
  end.

Fixpoint str_concat (l : list string) : string :=
  match l with
  | [] => EmptyString
  | x :: r => x ++ str_concat r
  end.

(** [Array.prototype.join] on an array of strings. *)
Fixpoint str_join (sep : string) (l : list string) : string :=
  match l with
  | [] => EmptyString
  | [x] => x
  | x :: r => x ++ sep ++ str_join sep r
  end.

(** [String.prototype.split] with a one-character separator: always at
    least one part. *)
Fixpoint str_split (sep : ascii) (s : string) : list string :=
  match s with
  | EmptyString => [EmptyString]
  | String c r =>
      if is_char sep c then EmptyString :: str_split sep r
      else match str_split sep r with
           | [] => [String c EmptyString]
           | p :: ps => String c p :: ps
           end
  end.

(** Longest prefix of characters in [p], and the rest. *)
Fixpoint str_span (p : ascii -> bool) (s : string) : string * string :=
  match s with
  | EmptyString => (EmptyString, EmptyString)
  | String c r =>
      if p c then let '(a, b) := str_span p r in (String c a, b)
      else (EmptyString, s)
  end.

(** Decimal rendering of a non-negative integer, as [String(n)] gives it
    for an integer up to 2^53 (beyond that a number is a double that
    [String] prints by its shortest digits, not by all of them). *)
Definition dec (k : N) : string := NilZero.string_of_uint (N.to_uint k).

(* ================================================================== *)
(** * The regular expressions of the module *)
(* ================================================================== *)

(** [/^\$[0-9]+$/] *)
Definition re_dollar_digits (expr : string) : bool :=
  match expr with
  | String c r => is_char ch_dollar c && str_all1 is_digit r
  | EmptyString => false
  end.

(** [/^[0-9]+(?:\.[0-9]+)?$/] *)
Definition re_number (expr : string) : bool :=
  let '(int_part, rest) := str_span is_digit expr in
  str_nonempty int_part &&
  match rest with
  | EmptyString => true
  | String c frac => is_char ch_dot c && str_all1 is_digit frac
  end.

(** [/^\.[0-9]+$/] *)
Definition re_dot_digits (expr : string) : bool :=
  match expr with
  | String c r => is_char ch_dot c && str_all1 is_digit r
  | EmptyString => false
  end.

(** [/^q[^q]+q$/] for a quote character [q]. *)
Definition re_quoted (q : ascii) (expr : string) : bool :=
  match expr with
  | String c r =>
      is_char q c &&
      match str_last r with
      | Some l => is_char q l && str_all1 (fun x => negb (is_char q x)) (str_init r)
      | None => false
      end
  | EmptyString => false
  end.

(** [/^[a-zA-Z0-9_]+$/] *)
Definition re_word (p : string) : bool := str_all1 is_word p.

(** The test of [literal]: every character is in the class above (the
    pattern is anchored at both ends and starred, so the empty string
    matches). *)
Definition re_inline_safe (val : string) : bool := str_all is_inline_safe_char val.

Definition isParensSafe (expr : string) : bool :=
  if re_dollar_digits expr then true
  else if re_number expr || re_dot_digits expr then true
  else if re_quoted ch_squote expr then true
  else
    let parts := str_split ch_dot expr in
    if forallb (fun p => re_quoted ch_dquote p || re_word p) parts then true
    else false.

(** [.replace(/[A-Z]/g, (l) => `_${l.toLowerCase()}`)] *)
Fixpoint underscore_uppercase (s : string) : string :=
  match s with
  | EmptyString => EmptyString
  | String c r =>
      if is_upper c then String ch_underscore (String (to_lower c) (underscore_uppercase r))
      else String c (underscore_uppercase r)
  end.

(** Replace every maximal run of characters outside [[a-z0-9_]] by one
    underscore; [in_run] says that the previous
    character was already part of the run being replaced. *)
Fixpoint collapse_unsafe_from (in_run : bool) (s : string) : string :=
  match s with
  | EmptyString => EmptyString
  | String c r =>
      if is_mangled_char c then String c (collapse_unsafe_from false r)
      else if in_run then collapse_unsafe_from true r
      else String ch_underscore (collapse_unsafe_from true r)
  end.
Definition collapse_unsafe (s : string) : string := collapse_unsafe_from false s.

(** Replace every run of two or more underscores by one underscore. *)
Fixpoint collapse_underscores (s : string) : string :=
  match s with
  | EmptyString => EmptyString
  | String c r =>
      if is_char ch_underscore c then
        match r with
        | String c' _ =>
            if is_char ch_underscore c' then collapse_underscores r
            else String c (collapse_underscores r)
        | EmptyString => String c EmptyString
        end
      else String c (collapse_underscores r)
  end.

(** Remove one leading underscore. *)
Definition strip_leading_underscore (s : string) : string :=
  match s with
  | String c r => if is_char ch_underscore c then r else s
  | EmptyString => EmptyString
  end.

(** Remove one trailing underscore. *)
Definition strip_trailing_underscore (s : string) : string :=
  match str_last s with
  | Some c => if is_char ch_underscore c then str_init s else s
  | None => s
  end.

(** [x || local] on strings: the empty string is falsy. *)
Definition or_local (s : string) : string :=
  match s with EmptyString => "local" | _ => s end.

Definition mangleName (str : string) : string :=
  or_local
    (strip_trailing_underscore
       (str_take 50
          (strip_leading_underscore
             (collapse_underscores
                (collapse_unsafe
                   (underscore_uppercase str)))))).

Definition escapeSqlIdentifier (str : string) : string :=
  let fix double_quotes (s : string) : string :=
    match s with
    | EmptyString => EmptyString
    | String c r =>
        if is_char ch_dquote c then String ch_dquote (String ch_dquote (double_quotes r))
        else String c (double_quotes r)
    end in
  String ch_dquote (double_quotes str ++ String ch_dquote EmptyString).

(* ================================================================== *)
(** * JavaScript values *)
(* ================================================================== *)

(** Identity of an object (a node, an array). *)
Abbreviation oid := N.

(** A JavaScript symbol: a unique identity together with the description
    it was created with.  Two symbols are the same symbol exactly when the
    records are equal. *)
Record Symbol := mkSymbol { sym_id : N; description : option string }.

#[global] Instance Symbol_eq_dec : EqDecision Symbol.
Proof. solve_decision. Defined.

#[global] Instance Symbol_countable : Countable Symbol.
Proof.
  refine (inj_countable' (fun x => (sym_id x, description x))
                         (fun p => mkSymbol (fst p) (snd p)) _).
  intros []; reflexivity.
Defined.

(** A JavaScript number.  [NumInt z] is the integer [z] of magnitude at
    most 2^53: every integer of that range is a number, and [String]
    prints all its digits.  An integer-valued number beyond that range
    ([NumBig]) and a finite number that is not an integer ([NumFrac]) are
    held by their [toString] rendering, which identifies them: [String]
    prints the shortest digits that read back as the number, so 2^64 is
    [NumBig "18446744073709552000"]. *)
Inductive JsNumber :=
| NumInt (z : Z)
| NumBig (repr : string)
| NumFrac (repr : string)
| NumNaN
| NumInf (negative : bool).

(** The range of [NumInt]. *)
Definition exact_integer (z : Z) : Prop := (Z.abs z <= 2 ^ 53)%Z.

(** Any JavaScript value that a caller can hand to [value] or [literal].
    The static type [SQLRawValue] allows only part of them. *)
Inductive JsVal :=
| JUndefined
| JNull
| JBool (b : bool)
| JNumber (x : JsNumber)
| JString (s : string)
| JSymbol (sy : Symbol)
| JArray (o : oid) (elems : list JsVal)
| JObject (o : oid) (props : list (string * JsVal)).

Definition number_strict_equal (x y : JsNumber) : bool :=
  match x, y with
  | NumInt a, NumInt b => (a =? b)%Z
  | NumBig a, NumBig b => bool_decide (a = b)
  | NumFrac a, NumFrac b => bool_decide (a = b)
  | NumInf a, NumInf b => Bool.eqb a b
  | _, _ => false
  end.

(** [x === y] *)
Definition strict_equal (x y : JsVal) : bool :=
  match x, y with
  | JUndefined, JUndefined => true
  | JNull, JNull => true
  | JBool a, JBool b => Bool.eqb a b
  | JNumber a, JNumber b => number_strict_equal a b
  | JString a, JString b => bool_decide (a = b)
  | JSymbol a, JSymbol b => bool_decide (a = b)
  | JArray a _, JArray b _ => (a =? b)%N
  | JObject a _, JObject b _ => (a =? b)%N
  | _, _ => false
  end.

Definition number_is_finite (x : JsNumber) : bool :=
  match x with NumInt _ | NumBig _ | NumFrac _ => true | _ => false end.

(** The values of the type [SQLRawValue]: string, finite number, boolean,
    null, or an array of such values. *)
Fixpoint is_scalar (v : JsVal) : bool :=
  match v with
  | JNull | JBool _ | JString _ => true
  | JNumber x => number_is_finite x
  | JArray _ elems => forallb is_scalar elems
  | JUndefined | JSymbol _ | JObject _ _ => false
  end.

(** [String(x)] for a number: all the digits of an integer in the range
    of [NumInt], and the rendering that stands for any other finite
    number. *)
Definition number_to_string (x : JsNumber) : string :=
  match x with
  | NumInt z =>
      if (z <? 0)%Z then "-" ++ dec (Z.to_N (- z)) else dec (Z.to_N z)
  | NumBig repr => repr
  | NumFrac repr => repr
  | NumNaN => "NaN"
  | NumInf negative => if negative then "-Infinity" else "Infinity"
  end.

(** An array assignment [arr[i] = v]: in range it replaces, at the end it
    appends, beyond the end JavaScript leaves holes, which read as
    [undefined]. *)
Definition array_set (arr : list JsVal) (i : nat) (v : JsVal) : list JsVal :=
  if decide (i < length arr) then <[i := v]> arr
  else arr ++ replicate (i - length arr) JUndefined ++ [v].

(* ================================================================== *)
(** * The node model *)
(* ================================================================== *)

(** [SymbolAndName]: the fields are [s] and [n] in the source. *)
Record SymbolAndName := mkSymbolAndName { sn_s : Symbol; sn_n : string }.

#[global] Instance SymbolAndName_eq_dec : EqDecision SymbolAndName.
Proof. solve_decision. Defined.

(** An element of [SQLIdentifierNode.names]: [string | SymbolAndName]. *)
Inductive Name :=
| NameString (escaped : string)
| NameSymbol (sn : SymbolAndName).

(** [SQL = SQLNode | SQLQuery], one constructor per [type] tag; the first
    field of each is the identity of the object.  The static type says
    that the [nodes] of a QUERY are not themselves QUERY; what the code
    does when one is, it does at run time, and the embedding follows it. *)
Inductive SQL :=
| RAW (o : oid) (text : string)
| IDENTIFIER (o : oid) (names : list Name)
| VALUE (o : oid) (value : JsVal)
| INDENT (o : oid) (content : SQL)
| PARENS (o : oid) (content : SQL) (force : bool)
| SYMBOL_ALIAS (o : oid) (a b : SymbolAndName)
| PLACEHOLDER (o : oid) (symbol : Symbol) (fallback : option SQL)
| QUERY (o : oid) (nodes : list SQL) (flags : N).

Definition oid_of (sql : SQL) : oid :=
  match sql with
  | RAW o _ | IDENTIFIER o _ | VALUE o _ | INDENT o _ | PARENS o _ _
  | SYMBOL_ALIAS o _ _ | PLACEHOLDER o _ _ | QUERY o _ _ => o
  end.

(** [a === b] on two nodes: the same object. *)
Definition same_object (a b : SQL) : bool := (oid_of a =? oid_of b)%N.

Definition is_query (sql : SQL) : bool :=
  match sql with QUERY _ _ _ => true | _ => false end.

(* ================================================================== *)
(** * Errors and the state monad *)
(* ================================================================== *)

(** One constructor per [throw] of the module that typed input can reach. *)
Inductive Error :=
| InvalidExpression        (* enforceValidNode *)
| EmptyIdentifier          (* identifier() without argument *)
| TooManyPlaceholders      (* more than 65535 values *)
| IndentOutsideDevelopment (* assert.ok(isDev, ...) *)
| ConflictingSymbolAlias   (* symbolAlias after both symbols were used *)
| MissingPlaceholder       (* placeholder without value or fallback *)
| UnsupportedNode          (* default case of a switch on the node type *)
| TypeError                (* a method called on undefined *)
| EmptyParens              (* parens around an empty fragment *)
| SubstituteCycle          (* getSubstitute *)
| SelfSubstitute           (* getSubstitute *)
| SubstituteTooDeep        (* getSubstitute *)
| StackExhausted.          (* RangeError: the recursion is too deep *)

#[global] Instance Error_eq_dec : EqDecision Error.
Proof. solve_decision. Defined.

Inductive result (A : Type) :=
| Ok (x : A)
| Throw (e : Error).
Arguments Ok {A} x.
Arguments Throw {A} e.

(** A computation over a mutable state [St]: a throw keeps the state. *)
Definition M (St A : Type) : Type := St -> result A * St.

Definition ret {St A} (x : A) : M St A := fun st => (Ok x, st).
Definition throw {St A} (e : Error) : M St A := fun st => (Throw e, st).
Definition bind {St A B} (m : M St A) (k : A -> M St B) : M St B :=
  fun st =>
    match m st with
    | (Ok x, st') => k x st'
    | (Throw e, st') => (Throw e, st')
    end.
Definition get {St} : M St St := fun st => (Ok st, st).
Definition modify {St} (f : St -> St) : M St unit := fun st => (Ok tt, f st).

Notation "'let*' x ':=' m 'in' k" := (bind m (fun x => k))
  (at level 10, x pattern, m at level 100, k at level 200).
Notation "m ';;' k" := (bind m (fun _ => k))
  (at level 100, k at level 200, right associativity).

Definition result_bind {A B} (r : result A) (k : A -> result B) : result B :=
  match r with Ok x => k x | Throw e => Throw e end.

(* ================================================================== *)
(** * Module state: the allocator and the caches *)
(* ================================================================== *)

(** Modelled from the spec: the class [LRU] of the package [@graphile/lru]
    is not part of the sources at hand.  The specification describes it as
    a bounded least-recently-used map from text to Raw node that retains
    the most recently used entries; [entries] holds them most recent
    first. *)
Record LRU := mkLRU { maxLength : N; entries : list (string * SQL) }.

Fixpoint lru_find (key : string) (l : list (string * SQL)) : option SQL :=
  match l with
  | [] => None
  | (k, v) :: r => if bool_decide (k = key) then Some v else lru_find key r
  end.

Fixpoint lru_remove (key : string) (l : list (string * SQL)) : list (string * SQL) :=
  match l with
  | [] => []
  | (k, v) :: r => if bool_decide (k = key) then lru_remove key r
                   else (k, v) :: lru_remove key r
  end.

Definition lru_set (key : string) (v : SQL) (c : LRU) : LRU :=
  mkLRU (maxLength c)
        (take (N.to_nat (maxLength c)) ((key, v) :: lru_remove key (entries c))).

Definition lru_get (key : string) (c : LRU) : option SQL * LRU :=
  match lru_find key (entries c) with
  | Some v => (Some v, mkLRU (maxLength c) ((key, v) :: lru_remove key (entries c)))
  | None => (None, c)
  end.

Record ModuleState := mkModuleState {
  next_oid : oid;
  CACHE_RAW_NODES : LRU;
  CACHE_SIMPLE_FRAGMENTS : gmap string SQL
}.

(** A fresh object identity: what an object literal evaluates to. *)
Definition alloc : M ModuleState oid :=
  fun st => (Ok (next_oid st),
             mkModuleState (next_oid st + 1)%N (CACHE_RAW_NODES st)
                           (CACHE_SIMPLE_FRAGMENTS st)).

Definition raw_cache_get (text : string) : M ModuleState (option SQL) :=
  fun st =>
    let '(found, c) := lru_get text (CACHE_RAW_NODES st) in
    (Ok found, mkModuleState (next_oid st) c (CACHE_SIMPLE_FRAGMENTS st)).

Definition raw_cache_set (text : string) (node : SQL) : M ModuleState unit :=
  modify (fun st => mkModuleState (next_oid st)
                                  (lru_set text node (CACHE_RAW_NODES st))
                                  (CACHE_SIMPLE_FRAGMENTS st)).

Definition simple_cache_get (text : string) : M ModuleState (option SQL) :=
  fun st => (Ok (CACHE_SIMPLE_FRAGMENTS st !! text), st).

Definition simple_cache_set (text : string) (node : SQL) : M ModuleState unit :=
  modify (fun st => mkModuleState (next_oid st) (CACHE_RAW_NODES st)
                                  (<[text := node]> (CACHE_SIMPLE_FRAGMENTS st))).

(* ================================================================== *)
(** * Node factories *)
(* ================================================================== *)

(** [symbol.description || local] then [mangleName]. *)
Definition getSymbolAndName (symbol : Symbol) : SymbolAndName :=
  mkSymbolAndName symbol
    (mangleName (match description symbol with
                 | Some d => or_local d
                 | None => "local"
                 end)).

(** [text] is a string by its type, so the [typeof] test of the source
    cannot fail here.  The export name that the module attaches to its
    four constant nodes is a note for tooling and is left out. *)
Definition makeRawNode (text : string) : M ModuleState SQL :=
  let* n := raw_cache_get text in
  match n with
  | Some node => ret node
  | None =>
      let* o := alloc in
      let newNode := RAW o text in
      raw_cache_set text newNode ;;
      ret newNode
  end.

Definition makeIdentifierNode (names : list Name) : M ModuleState SQL :=
  let* o := alloc in ret (IDENTIFIER o names).

Definition makeValueNode (rawValue : JsVal) : M ModuleState SQL :=
  let* o := alloc in ret (VALUE o rawValue).

Definition makeIndentNode (content : SQL) : M ModuleState SQL :=
  let* o := alloc in ret (INDENT o content).

(** [force ?? false] *)
Definition makeParensNode (content : SQL) (force : option bool) : M ModuleState SQL :=
  let* o := alloc in ret (PARENS o content (default false force)).

Definition makeSymbolAliasNode (a b : Symbol) : M ModuleState SQL :=
  let* o := alloc in ret (SYMBOL_ALIAS o (getSymbolAndName a) (getSymbolAndName b)).

Definition makePlaceholderNode (symbol : Symbol) (fallback : option SQL) : M ModuleState SQL :=
  let* o := alloc in ret (PLACEHOLDER o symbol fallback).

Definition makeQueryNode (nodes : list SQL) (flags : N) : M ModuleState SQL :=
  let* o := alloc in ret (QUERY o nodes flags).

(* ================================================================== *)
(** * Module initialisation and constants *)
(* ================================================================== *)

Definition empty_module_state : ModuleState :=
  mkModuleState 0 (mkLRU 10000 []) ∅.

(** The module creates its four constant nodes when it is loaded. *)
Definition module_init : M ModuleState (SQL * SQL * SQL * SQL) :=
  let* t := makeRawNode "TRUE" in
  let* f := makeRawNode "FALSE" in
  let* n := makeRawNode "NULL" in
  let* b := makeRawNode "" in
  ret (t, f, n, b).

Definition trueNode : SQL := RAW 0 "TRUE".
Definition falseNode : SQL := RAW 1 "FALSE".
Definition nullNode : SQL := RAW 2 "NULL".
Definition blank : SQL := RAW 3 "".

(** The state of the module once it is loaded. *)
Definition loaded_module_state : ModuleState :=
  mkModuleState 4
    (mkLRU 10000 [("", blank); ("NULL", nullNode); ("FALSE", falseNode); ("TRUE", trueNode)])
    ∅.

(* ================================================================== *)
(** * Constructors *)
(* ================================================================== *)

(** An argument of [identifier]: [string | symbol]. *)
Inductive IdentifierArg :=
| ArgString (name : string)
| ArgSymbol (name : Symbol).

Definition identifier (names : list IdentifierArg) : M ModuleState SQL :=
  match names with
  | [] => throw EmptyIdentifier
  | _ =>
      let finalNames :=
        map (fun name =>
               match name with
               | ArgString str => NameString (escapeSqlIdentifier str)
               | ArgSymbol sy => NameSymbol (getSymbolAndName sy)
               end) names in
      makeIdentifierNode finalNames
  end.

Definition value (val : JsVal) : M ModuleState SQL := makeValueNode val.

(** [Number.isInteger(x)] *)
Definition number_is_integer (x : JsNumber) : bool :=
  match x with NumInt _ | NumBig _ => true | _ => false end.

Definition quote_string (val : string) : string :=
  String ch_squote (val ++ String ch_squote EmptyString).

Definition literal (val : JsVal) : M ModuleState SQL :=
  match val with
  | JString str =>
      if re_inline_safe str then makeRawNode (quote_string str) else value val
  | JNumber x =>
      if number_is_finite x then
        if number_is_integer x then makeRawNode (number_to_string x)
        else makeRawNode (quote_string (number_to_string x) ++ "::float")
      else value val
  | JBool b => ret (if b then trueNode else falseNode)
  | JNull | JUndefined => ret nullNode
  | _ => value val
  end.

(** The loop of the template tag: [strings] from index [i] on, [values]
    from index [i] on, and the items collected so far. *)
Fixpoint sql_loop (strings : list string) (values : list SQL) (items : list SQL)
  : M ModuleState (list SQL) :=
  match strings with
  | [] => ret items
  | text :: strings' =>
      let* items1 :=
        (if str_nonempty text
         then let* node := makeRawNode text in ret (items ++ [node])
         else ret items) in
      match strings' with
      | [] => ret items1
      | _ =>
          match values with
          | [] => throw InvalidExpression
          | valid :: values' =>
              let items2 :=
                match valid with
                | QUERY _ nodes _ => items1 ++ nodes
                | _ => items1 ++ [valid]
                end in
              sql_loop strings' values' items2
          end
      end
  end.

(** The template tag [sql`...`]: [strings] are the text pieces and
    [values] the interpolated fragments. *)
Definition sql (strings : list string) (values : list SQL) : M ModuleState SQL :=
  match strings with
  | [first] =>
      if str_nonempty first then
        let* cached := simple_cache_get first in
        match cached with
        | Some node => ret node
        | None =>
            let* node := makeRawNode first in
            simple_cache_set first node ;;
            ret node
        end
      else ret blank
  | _ =>
      let* items := sql_loop strings values [] in
      makeQueryNode items 0
  end.

(** [!force] for [force?: boolean]. *)
Definition not_forced (force : option bool) : bool := negb (default false force).

Fixpoint parens (fragment : SQL) (force : option bool) : M ModuleState SQL :=
  match fragment with
  | QUERY _ nodes _ =>
      match nodes with
      | [] => throw EmptyParens
      | [child] => parens child force
      | _ => makeParensNode fragment force
      end
  | PARENS _ content fforce =>
      if fforce || not_forced force then ret fragment
      else parens content (Some true)
  | INDENT _ content =>
      match content with
      | QUERY _ [PARENS _ inner_content false] _ => makeParensNode inner_content force
      | PARENS _ inner_content false => makeParensNode inner_content force
      | _ => makeParensNode fragment force
      end
  | _ => makeParensNode fragment force
  end.

(** The loop of [join]: [first] says that the item at hand is the first
    one. *)
Fixpoint join_loop (items : list SQL) (first hasSeparator : bool) (sepNode : SQL)
         (currentItems : list SQL) : list SQL :=
  match items with
  | [] => currentItems
  | node :: rest =>
      let addSeparator := negb first && hasSeparator in
      let withSeparator :=
        if addSeparator then currentItems ++ [sepNode] else currentItems in
      let withNode :=
        match node with
        | QUERY _ nodes _ => withSeparator ++ nodes
        | _ => withSeparator ++ [node]
        end in
      join_loop rest false hasSeparator sepNode withNode
  end.

Definition join (items : list SQL) (separator : string) : M ModuleState SQL :=
  match items with
  | [] => ret blank
  | [node] => ret node
  | _ =>
      let hasSeparator := str_nonempty separator in
      let* sepNode := (if hasSeparator then makeRawNode separator else ret blank) in
      makeQueryNode (join_loop items true hasSeparator sepNode []) 0
  end.

(** [raw]: the warning that the first call prints is not part of the
    embedding. *)
Definition raw (text : string) : M ModuleState SQL := makeRawNode text.

(** [indent] and [indentIf] on a fragment; [isDev] is the mode the module
    was loaded in. *)
Definition indent (isDev : bool) (fragment : SQL) : M ModuleState SQL :=
  if isDev then makeIndentNode fragment else ret fragment.

Definition indentIf (isDev : bool) (condition : bool) (fragment : SQL)
  : M ModuleState SQL :=
  if isDev && condition then makeIndentNode fragment else ret fragment.

Definition symbolAlias (symbol1 symbol2 : Symbol) : M ModuleState SQL :=
  makeSymbolAliasNode symbol1 symbol2.

Definition placeholder (symbol : Symbol) (fallback : option SQL) : M ModuleState SQL :=
  makePlaceholderNode symbol fallback.

(* ================================================================== *)
(** * compile *)
(* ================================================================== *)

(** A number held in [descCounter]: an integer, or NaN. *)
Inductive CounterValue :=
| CNumber (k : N)
| CNaN.

(** What reading [descCounter[key]] gives.  [descCounter] is created by an
    object literal, so a key that is not an own property is looked up in
    [Object.prototype]. *)
Inductive PropertyRead :=
| ReadUndefined
| ReadOwn (v : CounterValue)
| ReadInherited.           (* a function or an object of Object.prototype *)

(** The data properties of [Object.prototype]; all of them are functions.
    [__proto__] is an accessor and is treated apart. *)
Definition object_prototype_methods : list string :=
  [ "constructor"; "hasOwnProperty"; "isPrototypeOf"; "propertyIsEnumerable";
    "toLocaleString"; "toString"; "valueOf"; "__defineGetter__";
    "__defineSetter__"; "__lookupGetter__"; "__lookupSetter__" ].

Definition property_get (obj : gmap string CounterValue) (key : string) : PropertyRead :=
  if bool_decide (key = "__proto__") then ReadInherited
  else match obj !! key with
       | Some v => ReadOwn v
       | None =>
           if bool_decide (key ∈ object_prototype_methods) then ReadInherited
           else ReadUndefined
       end.

(** [obj[key] = v] for a number [v]: the setter of [__proto__] ignores a
    value that is not an object; any other key becomes an own property. *)
Definition property_set (obj : gmap string CounterValue) (key : string) (v : CounterValue)
  : gmap string CounterValue :=
  if bool_decide (key = "__proto__") then obj else <[key := v]> obj.

(** Truthiness of what was read: [undefined], [0] and [NaN] are falsy. *)
Definition read_truthy (r : PropertyRead) : bool :=
  match r with
  | ReadUndefined => false
  | ReadOwn (CNumber k) => negb (k =? 0)%N
  | ReadOwn CNaN => false
  | ReadInherited => true
  end.

(** The new value of [++x]: [ToNumber(x) + 1]. *)
Definition read_increment (r : PropertyRead) : CounterValue :=
  match r with
  | ReadOwn (CNumber k) => CNumber (k + 1)
  | ReadOwn CNaN | ReadUndefined | ReadInherited => CNaN
  end.

Definition counter_to_string (v : CounterValue) : string :=
  match v with
  | CNumber k => dec k
  | CNaN => "NaN"
  end.

(** The scratch state of one call of [compile]: the variables that the
    closures [makeIdentifierForSymbol] and [print] share. *)
Record CompileState := mkCompileState {
  values : list JsVal;
  valueCount : N;
  symbolToIdentifier : gmap Symbol string;
  descCounter : gmap string CounterValue
}.

Definition initial_compile_state : CompileState := mkCompileState [] 0 ∅ ∅.

(** Truthiness of [symbolToIdentifier.get(symbol)]: [undefined] and the
    empty string are falsy. *)
Definition truthy_name (name : option string) : bool :=
  match name with
  | Some str => str_nonempty str
  | None => false
  end.

Definition symbolToIdentifier_set (symbol : Symbol) (name : string) : M CompileState unit :=
  modify (fun st => mkCompileState (values st) (valueCount st)
                                   (<[symbol := name]> (symbolToIdentifier st))
                                   (descCounter st)).

Definition descCounter_set (key : string) (v : CounterValue) : M CompileState unit :=
  modify (fun st => mkCompileState (values st) (valueCount st)
                                   (symbolToIdentifier st)
                                   (property_set (descCounter st) key v)).

Definition descCounter_get (key : string) : M CompileState PropertyRead :=
  fun st => (Ok (property_get (descCounter st) key), st).

(** The suffix after the description: [number === 1 ? _ : number]. *)
Definition alias_suffix (number : CounterValue) : string :=
  match number with
  | CNumber 1 => "_"
  | _ => counter_to_string number
  end.

Definition makeIdentifierForSymbol (name : SymbolAndName) : M CompileState string :=
  let symbol := sn_s name in
  let safeDesc := sn_n name in
  let* current := descCounter_get safeDesc in
  (if read_truthy current then ret tt else descCounter_set safeDesc (CNumber 0)) ;;
  let* before := descCounter_get safeDesc in
  let number := read_increment before in
  descCounter_set safeDesc number ;;
  let identifierForSymbol := ("__" ++ safeDesc ++ "_" ++ alias_suffix number)%string in
  symbolToIdentifier_set symbol identifierForSymbol ;;
  ret identifierForSymbol.

(** [text.replace(/\n/g, nl + pad)] *)
Fixpoint indent_newlines (pad : string) (text : string) : string :=
  match text with
  | EmptyString => EmptyString
  | String c r =>
      if is_char ch_newline c then String c (pad ++ indent_newlines pad r)
      else String c (indent_newlines pad r)
  end.

(** Where a match of [\s*\n] (greedy) ends when it starts at [s]: after the
    last newline of the longest run of white space at the head of [s]. *)
Fixpoint after_blank_run (s : string) : option string :=
  match s with
  | EmptyString => None
  | String c r =>
      if is_space c then
        match after_blank_run r with
        | Some rest => Some rest
        | None => if is_char ch_newline c then Some r else None
        end
      else None
  end.

(** [text.replace(/\n\s*\n/g, nl)]; [fuel] bounds the number of characters
    looked at. *)
Fixpoint collapse_blank_lines_from (fuel : nat) (s : string) : string :=
  match fuel with
  | O => s
  | S fuel' =>
      match s with
      | EmptyString => EmptyString
      | String c r =>
          if is_char ch_newline c then
            match after_blank_run r with
            | Some rest => String ch_newline (collapse_blank_lines_from fuel' rest)
            | None => String c (collapse_blank_lines_from fuel' r)
            end
          else String c (collapse_blank_lines_from fuel' r)
      end
  end.
Definition collapse_blank_lines (s : string) : string :=
  collapse_blank_lines_from (String.length s) s.

Definition ends_with_newline (s : string) : bool :=
  match str_last s with
  | Some c => is_char ch_newline c
  | None => false
  end.

Definition pad_of (indent : nat) : string := str_repeat "  " indent.
Definition nl : string := String ch_newline EmptyString.

Section Compile.

(** [GRAPHILE_ENV === development], read once when the module loads. *)
Variable isDev : bool.

(** [options?.placeholderValues] *)
Variable placeholderValues : option (gmap Symbol SQL).

(** The names of an IDENTIFIER node, mapped one by one. *)
Fixpoint mapNames (names : list Name) (mappedNames : list string)
  : M CompileState (list string) :=
  match names with
  | [] => ret mappedNames
  | NameString name :: rest => mapNames rest (mappedNames ++ [name])
  | NameSymbol name :: rest =>
      let* st := get in
      let found := symbolToIdentifier st !! sn_s name in
      let* identifierForSymbol :=
        (if truthy_name found then ret (default "" found)
         else makeIdentifierForSymbol name) in
      mapNames rest (mappedNames ++ [identifierForSymbol])
  end.

(** The special case of a final [;] in development mode: the newline
    that ends the previous piece is removed.  Without a previous piece,
    [prev] is undefined and the method call on it throws. *)
Definition trim_before_semicolon (sqlFragments : list string) : result (list string) :=
  match last sqlFragments with
  | None => Throw TypeError
  | Some prev =>
      if ends_with_newline prev
      then Ok (removelast sqlFragments ++ [str_init prev])
      else Ok sqlFragments
  end.

(** One iteration of the loop of [print]: the [switch] on [item.type].
    [print] is the function itself, for the nested calls. *)
Definition printItem (print : SQL -> nat -> M CompileState string)
           (itemCount indent itemIndex : nat) (item : SQL)
           (sqlFragments : list string) : M CompileState (list string) :=
  match item with
  | RAW _ text =>
      if str_nonempty text then
        let* sqlFragments1 :=
          (if isDev && bool_decide (itemIndex = itemCount - 1)
              && bool_decide (text = ";")
           then match trim_before_semicolon sqlFragments with
                | Ok l => ret l
                | Throw e => throw e
                end
           else ret sqlFragments) in
        ret (sqlFragments1 ++
             [if isDev then indent_newlines (pad_of indent) text else text])
      else ret sqlFragments
  | IDENTIFIER _ names =>
      let nameCount := length names in
      let* mappedNames := mapNames names [] in
      ret (sqlFragments ++
           [if bool_decide (nameCount = 1) then default "" (head mappedNames)
            else str_join "." mappedNames])
  | VALUE _ value =>
      modify (fun st => mkCompileState (values st) (valueCount st + 1)
                                       (symbolToIdentifier st) (descCounter st)) ;;
      let* st := get in
      if (65535 <? valueCount st)%N then throw TooManyPlaceholders
      else
        modify (fun st => mkCompileState
                            (array_set (values st) (N.to_nat (valueCount st - 1)) value)
                            (valueCount st) (symbolToIdentifier st) (descCounter st)) ;;
        ret (sqlFragments ++ [String ch_dollar (dec (valueCount st))])
  | INDENT _ content =>
      if isDev then
        let* inner := print content (indent + 1) in
        ret (sqlFragments ++
             [(nl ++ pad_of (indent + 1) ++ inner ++ nl ++ pad_of indent)%string])
      else throw IndentOutsideDevelopment
  | PARENS _ content force =>
      let* inner := print content indent in
      if force || negb (isParensSafe inner)
      then ret (sqlFragments ++ [("(" ++ inner ++ ")")%string])
      else ret (sqlFragments ++ [inner])
  | SYMBOL_ALIAS _ a b =>
      let symbol1 := sn_s a in
      let symbol2 := sn_s b in
      let* st := get in
      let name1 := symbolToIdentifier st !! symbol1 in
      let name2 := symbolToIdentifier st !! symbol2 in
      if truthy_name name1 && truthy_name name2
         && negb (bool_decide (name1 = name2))
      then throw ConflictingSymbolAlias
      else if truthy_name name1 then
        symbolToIdentifier_set symbol2 (default "" name1) ;;
        ret sqlFragments
      else if truthy_name name2 then
        symbolToIdentifier_set symbol1 (default "" name2) ;;
        ret sqlFragments
      else
        let* identifierForSymbol := makeIdentifierForSymbol a in
        symbolToIdentifier_set symbol1 identifierForSymbol ;;
        symbolToIdentifier_set symbol2 identifierForSymbol ;;
        ret sqlFragments
  | PLACEHOLDER _ symbol fallback =>
      let resolvedPlaceholder :=
        match placeholderValues ≫= (fun m => m !! symbol) with
        | Some v => Some v
        | None => fallback
        end in
      match resolvedPlaceholder with
      | None => throw MissingPlaceholder
      | Some resolved =>
          let* inner := print resolved indent in
          ret (sqlFragments ++ [inner])
      end
  | QUERY _ _ _ => throw UnsupportedNode
  end.

(** The [for] loop of [print] from index [itemIndex] on. *)
Fixpoint printItems (print : SQL -> nat -> M CompileState string)
         (itemCount indent : nat) (items : list SQL) (itemIndex : nat)
         (sqlFragments : list string) : M CompileState (list string) :=
  match items with
  | [] => ret sqlFragments
  | item :: rest =>
      let* sqlFragments' :=
        printItem print itemCount indent itemIndex item sqlFragments in
      printItems print itemCount indent rest (S itemIndex) sqlFragments'
  end.

(** [print]; [fuel] bounds the depth of the nested calls, and running
    out of it is the exhaustion of the call stack. *)
Fixpoint print (fuel : nat) (untrustedInput : SQL) (indent : nat)
  : M CompileState string :=
  match fuel with
  | O => throw StackExhausted
  | S fuel' =>
      let items :=
        match untrustedInput with
        | QUERY _ nodes _ => nodes
        | _ => [untrustedInput]
        end in
      let itemCount := length items in
      let* sqlFragments :=
        printItems (print fuel') itemCount indent items 0 [] in
      ret (str_concat sqlFragments)
  end.

(** [compile]: the text and the values, or the error thrown. *)
Definition compile (fuel : nat) (sql : SQL) : result (string * list JsVal) :=
  match print fuel sql 0 initial_compile_state with
  | (Ok printed, st) =>
      Ok (if isDev then collapse_blank_lines printed else printed, values st)
  | (Throw e, _) => Throw e
  end.

End Compile.

(* ================================================================== *)
(** * isEquivalent *)
(* ================================================================== *)

Section ArraysMatch.

Context {T : Type}.

(** The comparator; every call in the module passes one. *)
Variable comparator : T -> T -> result bool.

(** The loop of [arraysMatch] over two arrays of the same length: the
    first pair that does not match ends it. *)
Fixpoint arraysMatch_loop (array1 array2 : list T) : result bool :=
  match array1, array2 with
  | x :: rest1, y :: rest2 =>
      match comparator x y with
      | Ok true => arraysMatch_loop rest1 rest2
      | Ok false => Ok false
      | Throw e => Throw e
      end
  | _, _ => Ok true
  end.

(** [arraysMatch]; [id1] and [id2] are the identities of the two array
    objects.  Every array of the module is created for one node and held
    by it alone, so the identity of the node stands for it. *)
Definition arraysMatch (id1 id2 : oid) (array1 array2 : list T) : result bool :=
  if (id1 =? id2)%N then Ok true
  else if bool_decide (length array1 = length array2)
       then arraysMatch_loop array1 array2
       else Ok false.

End ArraysMatch.

(** The first argument of [isEquivalent]: [SQL | symbol]. *)
Inductive SQLOrSymbol :=
| IsSQL (sql : SQL)
| IsSymbol (symbol : Symbol).

Section IsEquivalent.

(** [options?.symbolSubstitutes] *)
Variable symbolSubstitutes : option (gmap Symbol Symbol).

(** The loop of [getSubstitute] with [remaining] iterations left. *)
Fixpoint getSubstitute_loop (remaining : nat) (path : list Symbol) (symbol : Symbol)
  : result Symbol :=
  match remaining with
  | O => Throw SubstituteTooDeep
  | S remaining' =>
      if bool_decide (symbol ∈ path) then Throw SubstituteCycle
      else
        match symbolSubstitutes ≫= (fun m => m !! symbol) with
        | Some sub =>
            if bool_decide (sub = symbol) then Throw SelfSubstitute
            else getSubstitute_loop remaining' (path ++ [symbol]) sub
        | None => Ok symbol
        end
  end.

Definition getSubstitute (initialSymbol : Symbol) : result Symbol :=
  getSubstitute_loop 1000 [] initialSymbol.

Definition identifiersAreEquivalent (ids1 ids2 : Name) : result bool :=
  match ids1, ids2 with
  | NameString a, NameString b => Ok (bool_decide (b = a))
  | NameString _, NameSymbol _ => Ok false
  | NameSymbol _, NameString _ => Ok false
  | NameSymbol a, NameSymbol b =>
      let namesMatch := bool_decide (sn_n a = sn_n b) in
      result_bind (getSubstitute (sn_s a)) (fun symbol1 =>
      result_bind (getSubstitute (sn_s b)) (fun symbol2 =>
      let symbolsMatch := bool_decide (symbol1 = symbol2) in
      Ok (namesMatch && symbolsMatch)))
  end.

(** [isEquivalent] on two fragments. *)
Fixpoint isEquivalent_sql (sql1 sql2 : SQL) {struct sql1} : result bool :=
  if same_object sql1 sql2 then Ok true
  else
    match sql1 with
    | QUERY o1 nodes1 _ =>
        match sql2 with
        | QUERY o2 nodes2 _ =>
            arraysMatch (fun a b => isEquivalent_sql a b) o1 o2 nodes1 nodes2
        | _ => Ok false
        end
    | _ =>
        if is_query sql2 then Ok false
        else
          match sql1 with
          | RAW _ text1 =>
              match sql2 with
              | RAW _ text2 => Ok (bool_decide (text1 = text2))
              | _ => Ok false
              end
          | VALUE _ value1 =>
              match sql2 with
              | VALUE _ value2 => Ok (strict_equal value1 value2)
              | _ => Ok false
              end
          | INDENT _ content1 =>
              match sql2 with
              | INDENT _ content2 => isEquivalent_sql content1 content2
              | _ => Ok false
              end
          | PARENS _ content1 force1 =>
              match sql2 with
              | PARENS _ content2 force2 =>
                  if negb (Bool.eqb force2 force1) then Ok false
                  else isEquivalent_sql content1 content2
              | _ => Ok false
              end
          | IDENTIFIER o1 names1 =>
              match sql2 with
              | IDENTIFIER o2 names2 =>
                  arraysMatch identifiersAreEquivalent o1 o2 names1 names2
              | _ => Ok false
              end
          | PLACEHOLDER _ symbol1 _ =>
              match sql2 with
              | PLACEHOLDER _ symbol2 _ =>
                  result_bind (getSubstitute symbol1) (fun s1 =>
                  result_bind (getSubstitute symbol2) (fun s2 =>
                  Ok (bool_decide (s1 = s2))))
              | _ => Ok false
              end
          | SYMBOL_ALIAS _ _ _ => Ok false
          | QUERY _ _ _ => Ok false
          end
    end.

(** [isEquivalent]: either side may also be a bare symbol. *)
Definition isEquivalent (sql1 sql2 : SQLOrSymbol) : result bool :=
  match sql1, sql2 with
  | IsSymbol s1, IsSymbol s2 =>
      if bool_decide (s1 = s2) then Ok true
      else match symbolSubstitutes ≫= (fun m => m !! s1) with
           | Some sub => Ok (bool_decide (sub = s2))
           | None => Ok (bool_decide (s2 = s1))
           end
  | IsSymbol s1, IsSQL _ => Ok false
  | IsSQL _, IsSymbol _ => Ok false
  | IsSQL a, IsSQL b => isEquivalent_sql a b
  end.

End IsEquivalent.

(* ================================================================== *)
(** * replaceSymbol *)
(* ================================================================== *)

Section ReplaceSymbol.

Variable needle : Symbol.
Variable replacement : Symbol.

(** [frag.names.map(...)] together with the flag [changed]. *)
Fixpoint replaceNames (names : list Name) : bool * list Name :=
  match names with
  | [] => (false, [])
  | v :: rest =>
      let '(changed, newNames) := replaceNames rest in
      match v with
      | NameSymbol sn =>
          if bool_decide (sn_s sn = needle)
          then (true, NameSymbol (getSymbolAndName replacement) :: newNames)
          else (changed, v :: newNames)
      | NameString _ => (changed, v :: newNames)
      end
  end.

(** [frag.nodes.map(...)] of [replaceSymbol], left to right, together
    with the flag [changed]. *)
Fixpoint replaceNodes (replaceSymbolInNode : SQL -> M ModuleState SQL)
         (nodes : list SQL) : M ModuleState (bool * list SQL) :=
  match nodes with
  | [] => ret (false, [])
  | node :: rest =>
      let* newNode := replaceSymbolInNode node in
      let* (changed, newNodes) := replaceNodes replaceSymbolInNode rest in
      ret (negb (same_object newNode node) || changed, newNode :: newNodes)
  end.

(** The body of [replaceSymbol], given [replaceSymbolInNode]. *)
Definition replaceSymbol_body (replaceSymbolInNode : SQL -> M ModuleState SQL)
           (frag : SQL) : M ModuleState SQL :=
  match frag with
  | QUERY _ nodes _ =>
      let* (changed, newNodes) := replaceNodes replaceSymbolInNode nodes in
      if changed then makeQueryNode newNodes 0 else ret frag
  | _ => replaceSymbolInNode frag
  end.

Fixpoint replaceSymbolInNode (frag : SQL) {struct frag} : M ModuleState SQL :=
  match frag with
  | RAW _ _ => ret frag
  | IDENTIFIER _ names =>
      let '(changed, newNames) := replaceNames names in
      if changed then makeIdentifierNode newNames else ret frag
  | VALUE _ value =>
      if strict_equal value (JSymbol needle)
      then makeValueNode (JSymbol replacement)
      else ret frag
  | INDENT _ content =>
      let* newContent := replaceSymbol_body replaceSymbolInNode content in
      makeIndentNode newContent
  | PARENS _ content force =>
      let* newContent := replaceSymbol_body replaceSymbolInNode content in
      makeParensNode newContent (Some force)
  | SYMBOL_ALIAS _ a b =>
      let newA := if bool_decide (sn_s a = needle) then replacement else sn_s a in
      let newB := if bool_decide (sn_s b = needle) then replacement else sn_s b in
      if negb (bool_decide (newA = sn_s a)) || negb (bool_decide (newB = sn_s b))
      then makeSymbolAliasNode newA newB
      else ret frag
  | PLACEHOLDER _ symbol fallback =>
      if bool_decide (symbol = needle)
      then makePlaceholderNode replacement fallback
      else ret frag
  | QUERY _ _ _ => throw UnsupportedNode
  end.

Definition replaceSymbol (frag : SQL) : M ModuleState SQL :=
  replaceSymbol_body replaceSymbolInNode frag.

End ReplaceSymbol.

(* ================================================================== *)
(** * Vocabulary of the statements *)
(* ================================================================== *)

(** The alias of the [number]-th token of a description, as
    [makeIdentifierForSymbol] spells it. *)
Definition alias_for (safeDesc : string) (number : CounterValue) : string :=
  ("__" ++ safeDesc ++ "_" ++ alias_suffix number)%string.

(** How many aliases the compile has generated for a description: the
    own property of [descCounter], where [NaN] counts as none. *)
Definition generated (st : CompileState) (safeDesc : string) : N :=
  match descCounter st !! safeDesc with
  | Some (CNumber k) => k
  | _ => 0%N
  end.

(** The keys that [descCounter] inherits from [Object.prototype]. *)
Definition inherited_key (key : string) : Prop :=
  key ∈ "__proto__" :: object_prototype_methods.

(** Every alias on record is a non-empty string. *)
Definition names_nonempty (st : CompileState) : Prop :=
  forall symbol name, symbolToIdentifier st !! symbol = Some name -> name <> "".

(** Every entry of the Raw cache is a Raw node of the text it is filed
    under. *)
Definition raw_cache_ok (st : ModuleState) : Prop :=
  Forall (fun kv => exists o, snd kv = RAW o (fst kv)) (entries (CACHE_RAW_NODES st)).


(** The walk that [parens] makes before it wraps: through a QUERY of one
    node, and through a PARENS that is not forced when force is asked
    for.  [unwraps_to_empty fragment force] says that this walk ends in a
    QUERY without nodes. *)
Fixpoint unwraps_to_empty (fragment : SQL) (force : option bool) : bool :=
  match fragment with
  | QUERY _ [] _ => true
  | QUERY _ [child] _ => unwraps_to_empty child force
  | PARENS _ content fforce =>
      if fforce || not_forced force then false
      else unwraps_to_empty content (Some true)
  | _ => false
  end.


(** [inner] between double quotes. *)
Definition quoted (inner : string) : string :=
  String ch_dquote (inner ++ String ch_dquote EmptyString).

(** The token and the fragment of the scenario: a symbol described as
    user_rows, and the template that selects from it. *)
Definition user_rows : Symbol := mkSymbol 1 (Some "user_rows").

Definition from_user_rows : M ModuleState SQL :=
  let* table := identifier [ArgSymbol user_rows] in
  sql ["from "; ""] [table].

(** Any character but the newline. *)
Definition not_newline (c : ascii) : bool := negb (is_char ch_newline c).

(** How a computation ended: normally, or with the error thrown. *)
Definition outcome {A : Type} (r : result A) : option Error :=
  match r with
  | Ok _ => None
  | Throw e => Some e
  end.

(** The state with one more alias on record. *)
Definition with_alias (symbol : Symbol) (name : string) (st : CompileState) : CompileState :=
  mkCompileState (values st) (valueCount st)
                 (<[symbol := name]> (symbolToIdentifier st)) (descCounter st).

(** Every alias on record in [st] is still on record in [st']. *)
Definition aliases_kept (st st' : CompileState) : Prop :=
  forall symbol name,
    symbolToIdentifier st !! symbol = Some name ->
    symbolToIdentifier st' !! symbol = Some name.

(** The values array holds one value per Value node met so far, and
    their number is within the limit. *)
Definition values_in_step (st : CompileState) : Prop :=
  (valueCount st <= 65535)%N /\ length (values st) = N.to_nat (valueCount st).

(** The placeholder of the [k]-th value. *)
Definition placeholder_text (k : N) : string := String ch_dollar (dec k).

(** The state after one more Value node. *)
Definition with_value (value : JsVal) (st : CompileState) : CompileState :=
  mkCompileState (values st ++ [value]) (valueCount st + 1)
                 (symbolToIdentifier st) (descCounter st).

(** The state in which the counter went past the limit. *)
Definition over_limit (st : CompileState) : CompileState :=
  mkCompileState (values st) (valueCount st + 1)
                 (symbolToIdentifier st) (descCounter st).

(** The relation of the rule for the value counter. *)
Definition counts_values (st : CompileState) (oe : option Error) (st' : CompileState) : Prop :=
  values_in_step st ->
  values st `prefix_of` values st'
  /\ (valueCount st <= valueCount st')%N
  /\ match oe with
     | Some TooManyPlaceholders =>
         valueCount st' = 65536%N /\ length (values st') = N.to_nat 65535
     | _ => values_in_step st'
     end.

(** Value nodes, given by their identities and their values. *)
Definition value_nodes (items : list (oid * JsVal)) : list SQL :=
  map (fun item => VALUE (fst item) (snd item)) items.

(** The placeholders numbered [first], [first + 1], ... *)
Fixpoint numbered_placeholders (first : N) (count : nat) : list string :=
  match count with
  | O => []
  | S count' => placeholder_text first :: numbered_placeholders (first + 1) count'
  end.

(** A node other than Indent, Parens and Query in which the symbol
    [needle] does not occur: not as the token of a name, as a side of a
    SymbolAlias, as the handle of a Placeholder, or as the value of a
    Value node. *)
Definition leaf_without (needle : Symbol) (node : SQL) : Prop :=
  match node with
  | RAW _ _ => True
  | IDENTIFIER _ names => forall sn, NameSymbol sn ∈ names -> sn_s sn <> needle
  | VALUE _ value => value <> JSymbol needle
  | SYMBOL_ALIAS _ a b => sn_s a <> needle /\ sn_s b <> needle
  | PLACEHOLDER _ symbol _ => symbol <> needle
  | INDENT _ _ | PARENS _ _ _ | QUERY _ _ _ => False
  end.

(** Any character but the underscore. *)
Definition no_underscore (c : ascii) : bool := negb (is_char ch_underscore c).

(** The two shapes of the suffix of an alias: a lone underscore for the
    first alias of a description, and otherwise a non-empty text without
    underscore. *)
Inductive suffix_shape (number : CounterValue) : Prop :=
| shape_first : number = CNumber 1 -> suffix_shape number
| shape_plain :
    alias_suffix number <> "" ->
    str_all no_underscore (alias_suffix number) = true ->
    number <> CNumber 1 ->
    suffix_shape number.

(** No two underscores in a row. *)
Fixpoint no_double_underscore (s : string) : bool :=
  match s with
  | EmptyString => true
  | String c r =>
      match r with
      | String c' _ =>
          negb (is_char ch_underscore c && is_char ch_underscore c')
          && no_double_underscore r
      | EmptyString => true
      end
  end.

Definition str_head (s : string) : option ascii :=
  match s with
  | String c _ => Some c
  | EmptyString => None
  end.

(** What the comment of [mangleName] promises of its result: only the
    characters [[0-9a-z_]], between 1 and 50 of them, no underscore at
    either end and no two underscores in a row. *)
Definition mangled (s : string) : Prop :=
  str_all is_mangled_char s = true
  /\ 1 <= String.length s <= 50
  /\ str_head s <> Some ch_underscore
  /\ str_last s <> Some ch_underscore
  /\ no_double_underscore s = true.

(** The number of the next alias of a description, for a description
    other than [__proto__]. *)
Definition next_number (dc : gmap string CounterValue) (safeDesc : string) : CounterValue :=
  match dc !! safeDesc with
  | Some (CNumber k) => CNumber (k + 1)
  | Some CNaN => CNumber 1
  | None => if bool_decide (safeDesc ∈ object_prototype_methods) then CNaN else CNumber 1
  end.

(** [name] is an alias that the compile has generated: the alias of a
    description and a number that the counter of the description has
    reached. *)
Definition issued (st : CompileState) (name : string) : Prop :=
  exists safeDesc number,
    name = alias_for safeDesc number
    /\ match descCounter st !! safeDesc with
       | Some (CNumber k) =>
           number = CNaN \/ exists j, number = CNumber j /\ (1 <= j <= k)%N
       | Some CNaN => number = CNaN
       | None => False
       end.

(** Every alias on record was generated by the compile. *)
Definition aliases_issued (st : CompileState) : Prop :=
  forall symbol name, symbolToIdentifier st !! symbol = Some name -> issued st name.

(** No two tokens have the same alias. *)
Definition aliases_distinct (st : CompileState) : Prop :=
  forall symbol1 symbol2 name,
    symbolToIdentifier st !! symbol1 = Some name ->
    symbolToIdentifier st !! symbol2 = Some name ->
    symbol1 = symbol2.

(** The token is as [getSymbolAndName] makes it: its name is the mangled
    description of its symbol. *)
Definition token_made (sn : SymbolAndName) : bool :=
  bool_decide (sn = getSymbolAndName (sn_s sn)).

Definition tokens_made (node : SQL) : bool :=
  match node with
  | IDENTIFIER _ names =>
      forallb (fun name => match name with
                           | NameSymbol sn => token_made sn
                           | NameString _ => true
                           end) names
  | SYMBOL_ALIAS _ a b => token_made a && token_made b
  | _ => true
  end.

(** A node with tokens as [getSymbolAndName] makes them that is not a
    SymbolAlias. *)
Definition plain_node (node : SQL) : bool :=
  tokens_made node && match node with SYMBOL_ALIAS _ _ _ => false | _ => true end.

(** [P] holds of the fragment and of every fragment beneath it, the
    fallbacks of placeholders included. *)
Fixpoint every_node (P : SQL -> bool) (sql : SQL) : bool :=
  P sql &&
  match sql with
  | INDENT _ content | PARENS _ content _ => every_node P content
  | PLACEHOLDER _ _ (Some fallback) => every_node P fallback
  | QUERY _ nodes _ => forallb (every_node P) nodes
  | _ => true
  end.

(** [P] holds of every fragment supplied for a placeholder. *)
Definition supplied_every (P : SQL -> bool) (pv : option (gmap Symbol SQL)) : Prop :=
  forall m symbol sql, pv = Some m -> m !! symbol = Some sql -> every_node P sql = true.

(** The state after a new alias was generated for [symbol] with the
    description [safeDesc]. *)
Definition after_new_alias (st : CompileState) (symbol : Symbol) (safeDesc : string)
  : CompileState :=
  mkCompileState
    (values st) (valueCount st)
    (<[symbol := alias_for safeDesc (next_number (descCounter st) safeDesc)]>
       (symbolToIdentifier st))
    (<[safeDesc := next_number (descCounter st) safeDesc]> (descCounter st)).

(** Two tokens with the same description, and a fragment that joins
    them with a SymbolAlias node before it names both. *)
Definition token_a : Symbol := mkSymbol 1 (Some "u").
Definition token_b : Symbol := mkSymbol 2 (Some "u").

Definition aliased_pair : SQL :=
  QUERY 9 [ SYMBOL_ALIAS 5 (getSymbolAndName token_a) (getSymbolAndName token_b);
            IDENTIFIER 6 [NameSymbol (getSymbolAndName token_a)];
            RAW 7 "/";
            IDENTIFIER 8 [NameSymbol (getSymbolAndName token_b)] ] 0.

(** Three tokens: two described as u and one described as u_2. *)
Definition three_tokens : SQL :=
  QUERY 9 [ IDENTIFIER 4 [NameSymbol (getSymbolAndName token_a)];
            RAW 7 "/";
            IDENTIFIER 5 [NameSymbol (getSymbolAndName token_b)];
            RAW 7 "/";
            IDENTIFIER 6 [NameSymbol (getSymbolAndName (mkSymbol 3 (Some "u_2")))] ] 0.

(** The relation of the rule: a state with non-empty aliases leads to
    such a state, and no alias on record is lost or changed. *)
Definition keeps_aliases (st : CompileState) (oe : option Error) (st' : CompileState) : Prop :=
  names_nonempty st -> names_nonempty st' /\ aliases_kept st st'.

(** The relations of the rule: generated aliases stay generated, and
    distinct tokens keep distinct aliases. *)
Definition keeps_issued (st : CompileState) (oe : option Error) (st' : CompileState) : Prop :=
  aliases_issued st -> aliases_issued st'.

Definition keeps_distinct (st : CompileState) (oe : option Error) (st' : CompileState) : Prop :=
  aliases_issued st /\ aliases_distinct st -> aliases_issued st' /\ aliases_distinct st'.

(** Identifier nodes of one token each, given by their identities and
    their tokens. *)
Definition identifier_nodes (items : list (oid * SymbolAndName)) : list SQL :=
  map (fun item => IDENTIFIER (fst item) [NameSymbol (snd item)]) items.

(** The aliases of a description numbered [first], [first + 1], ... *)
Fixpoint numbered_aliases (safeDesc : string) (first : N) (count : nat) : list string :=
  match count with
  | O => []
  | S count' =>
      alias_for safeDesc (CNumber first) :: numbered_aliases safeDesc (first + 1) count'
  end.

(** The shape that the module's own constructors give to fragments: the
    nodes of a Query are not Queries, and the content of a Parens node is
    neither a Parens node nor a Query of fewer than two nodes. *)
Definition built_node (node : SQL) : bool :=
  match node with
  | QUERY _ nodes _ => forallb (fun n => negb (is_query n)) nodes
  | PARENS _ (PARENS _ _ _) _ => false
  | PARENS _ (QUERY _ [] _) _ => false
  | PARENS _ (QUERY _ [_] _) _ => false
  | _ => true
  end.

(** The height of a fragment: a bound on the depth of the calls of
    [print] when no fragment is supplied for a placeholder. *)
Fixpoint height (sql : SQL) : nat :=
  match sql with
  | INDENT _ content | PARENS _ content _ => S (height content)
  | PLACEHOLDER _ _ (Some fallback) => S (height fallback)
  | QUERY _ nodes _ => S (foldr (fun n acc => Nat.max (height n) acc) 0 nodes)
  | _ => 1
  end.

(** [sql] is the fragment that [print] is called on, in turn, when it
    handles [item]. *)
Definition nested_call (pv : option (gmap Symbol SQL)) (item sql : SQL) : Prop :=
  match item with
  | INDENT _ content | PARENS _ content _ => sql = content
  | PLACEHOLDER _ symbol fallback =>
      match pv ≫= (fun m => m !! symbol) with
      | Some v => sql = v
      | None => fallback = Some sql
      end
  | _ => False
  end.

(** The scenarios of the specification, built with the constructors in
    the state of the loaded module and compiled in production mode. *)
Definition scenario_select : M ModuleState (result (string * list JsVal)) :=
  let* users_id := identifier [ArgString "users"; ArgString "id"] in
  let* users := identifier [ArgString "users"] in
  let* users_id' := identifier [ArgString "users"; ArgString "id"] in
  let* forty_two := value (JNumber (NumInt 42)) in
  let* query := sql ["select "; " from "; " where "; " = "; ""]
                    [users_id; users; users_id'; forty_two] in
  ret (compile false None 2 query).

Definition scenario_join : M ModuleState (result (string * list JsVal)) :=
  let* one := value (JNumber (NumInt 1)) in
  let* two := value (JNumber (NumInt 2)) in
  let* three := value (JNumber (NumInt 3)) in
  let* query := join [one; two; three] ", " in
  ret (compile false None 2 query).

Definition scenario_where : M ModuleState (result (string * list JsVal)) :=
  let* one := value (JNumber (NumInt 1)) in
  let* two := value (JNumber (NumInt 2)) in
  let* comparison := sql [""; " = "; ""] [one; two] in
  let* wrapped := parens comparison None in
  let* query := sql ["where "; ""] [wrapped] in
  ret (compile false None 3 query).

Definition scenario_parens_value : M ModuleState (result (string * list JsVal)) :=
  let* seven := value (JNumber (NumInt 7)) in
  let* wrapped := parens seven None in
  ret (compile false None 2 wrapped).

Definition scenario_alias_after_use : M ModuleState (result (string * list JsVal)) :=
  let* a1 := identifier [ArgSymbol token_a] in
  let* b1 := identifier [ArgSymbol token_b] in
  let* alias := symbolAlias token_a token_b in
  let* a2 := identifier [ArgSymbol token_a] in
  let* b2 := identifier [ArgSymbol token_b] in
  let* query := sql [""; "/"; "/"; ""; "/"; ""] [a1; b1; alias; a2; b2] in
  ret (compile false None 2 query).

(* ================================================================== *)
(** * Vocabulary of the further properties *)
(* ================================================================== *)

(** The body of a quoted identifier: every double quote of the name is
    written twice. *)
Fixpoint double_quotes (s : string) : string :=
  match s with
  | EmptyString => EmptyString
  | String c r =>
      if is_char ch_dquote c then String ch_dquote (String ch_dquote (double_quotes r))
      else String c (double_quotes r)
  end.

(** Reading a quoted identifier as PostgreSQL does: after the opening
    quote, a doubled quote stands for one quote and a single quote ends
    the identifier, after which nothing may follow. *)
Fixpoint unquote_body (s : string) : option string :=
  match s with
  | EmptyString => None
  | String c r =>
      if is_char ch_dquote c then
        match r with
        | EmptyString => Some EmptyString
        | String c' r' =>
            if is_char ch_dquote c'
            then option_map (String ch_dquote) (unquote_body r')
            else None
        end
      else option_map (String c) (unquote_body r)
  end.

Definition unquote_identifier (s : string) : option string :=
  match s with
  | String c r => if is_char ch_dquote c then unquote_body r else None
  | EmptyString => None
  end.

(** The names of an Identifier node made of strings alone. *)
Definition string_names (names : list string) : list Name :=
  map (fun name => NameString (escapeSqlIdentifier name)) names.

(** The text of a path of quoted names. *)
Definition quoted_path (names : list string) : string :=
  str_join "." (map escapeSqlIdentifier names).


(** [r] is a Parens node that [parens] with the same [force] returns as
    it is: it is forced, or force is not asked for. *)
Definition wrapped_for (force : option bool) (r : SQL) : bool :=
  match r with
  | PARENS _ _ fforce => fforce || not_forced force
  | _ => false
  end.

(** The module state after one allocation and nothing else. *)
Definition after_alloc (st : ModuleState) : ModuleState :=
  mkModuleState (next_oid st + 1) (CACHE_RAW_NODES st) (CACHE_SIMPLE_FRAGMENTS st).

(** What a template compiles to in production mode: its strings with
    the texts of the values in between, the values printed from left to
    right. *)
Fixpoint template_text (pv : option (gmap Symbol SQL)) (fuel : nat)
         (strings : list string) (values : list SQL) (indent : nat)
  : M CompileState string :=
  match strings with
  | [] => ret EmptyString
  | text :: strings' =>
      match strings', values with
      | _ :: _, v :: values' =>
          let* inner := print false pv fuel v indent in
          let* rest := template_text pv fuel strings' values' indent in
          ret (text ++ inner ++ rest)%string
      | _, _ => ret text
      end
  end.

(** What a list joined with a separator compiles to in production mode:
    the texts of the items, printed from left to right, with the
    separator in between. *)
Fixpoint joined_text (pv : option (gmap Symbol SQL)) (fuel : nat)
         (separator : string) (items : list SQL) (indent : nat)
  : M CompileState string :=
  match items with
  | [] => ret EmptyString
  | item :: rest =>
      match rest with
      | [] => print false pv fuel item indent
      | _ :: _ =>
          let* first := print false pv fuel item indent in
          let* others := joined_text pv fuel separator rest indent in
          ret (first ++ separator ++ others)%string
      end
  end.

(** No node of the list is a Query. *)
Definition flat_nodes (nodes : list SQL) : bool :=
  forallb (fun n => negb (is_query n)) nodes.

(** The fragment with the payload of every Value node replaced by null,
    the fallbacks of placeholders included. *)
Fixpoint without_values (sql : SQL) : SQL :=
  match sql with
  | VALUE o _ => VALUE o JNull
  | INDENT o content => INDENT o (without_values content)
  | PARENS o content force => PARENS o (without_values content) force
  | PLACEHOLDER o symbol fallback =>
      PLACEHOLDER o symbol
        match fallback with
        | Some sql' => Some (without_values sql')
        | None => None
        end
  | QUERY o nodes flags => QUERY o (map without_values nodes) flags
  | _ => sql
  end.

(** The same for the fragments supplied for placeholders. *)
Definition without_supplied_values (pv : option (gmap Symbol SQL))
  : option (gmap Symbol SQL) :=
  match pv with
  | Some m => Some (without_values <$> m)
  | None => None
  end.

(** The state with another values array. *)
Definition set_values (vs : list JsVal) (st : CompileState) : CompileState :=
  mkCompileState vs (valueCount st) (symbolToIdentifier st) (descCounter st).

(** The text of a result of [compile], or its error. *)
Definition result_text (r : result (string * list JsVal)) : result string :=
  match r with
  | Ok (text, _) => Ok text
  | Throw e => Throw e
  end.

(** The substitute on record for a symbol, if any. *)
Definition substitute_of (subs : option (gmap Symbol Symbol)) (symbol : Symbol)
  : option Symbol :=
  subs ≫= (fun m => m !! symbol).

(** The symbol reached from [symbol] after [n] substitutions. *)
Fixpoint follow (subs : option (gmap Symbol Symbol)) (n : nat) (symbol : Symbol)
  : option Symbol :=
  match n with
  | O => Some symbol
  | S n' =>
      match substitute_of subs symbol with
      | Some sub => follow subs n' sub
      | None => None
      end
  end.

(** The symbols of the names of an Identifier node, in order. *)
Definition name_symbols (names : list Name) : list Symbol :=
  flat_map (fun name => match name with
                        | NameSymbol sn => [sn_s sn]
                        | NameString _ => []
                        end) names.

(** The symbols of a fragment in the order in which they stand: the
    tokens of the names of an Identifier, the two sides of a SymbolAlias
    and the handle of a Placeholder.  The fallback of a Placeholder is not
    entered, and neither is the payload of a Value node. *)
Fixpoint symbols_of (sql : SQL) : list Symbol :=
  match sql with
  | IDENTIFIER _ names => name_symbols names
  | SYMBOL_ALIAS _ a b => [sn_s a; sn_s b]
  | PLACEHOLDER _ symbol _ => [symbol]
  | INDENT _ content | PARENS _ content _ => symbols_of content
  | QUERY _ nodes _ => flat_map symbols_of nodes
  | _ => []
  end.

(** [symbol] after the needle has been replaced. *)
Definition renamed (needle replacement symbol : Symbol) : Symbol :=
  if bool_decide (symbol = needle) then replacement else symbol.

(** No Query stands among the nodes of a Query, in the fragment and in
    the contents of its Indent and Parens nodes. *)
Fixpoint replaceable (sql : SQL) : bool :=
  match sql with
  | QUERY _ nodes _ => forallb (fun n => negb (is_query n) && replaceable n) nodes
  | INDENT _ content | PARENS _ content _ => replaceable content
  | _ => true
  end.

(** Every node of the fragment (fallbacks apart) was allocated before
    the identity [bound]. *)
Fixpoint oids_below (bound : oid) (sql : SQL) : bool :=
  (oid_of sql <? bound)%N
  && match sql with
     | INDENT _ content | PARENS _ content _ => oids_below bound content
     | QUERY _ nodes _ => forallb (oids_below bound) nodes
     | _ => true
     end.

(** A placeholder that [print] can resolve: a fragment is supplied for
    its symbol, or it has a fallback. *)
Definition resolves (pv : option (gmap Symbol SQL)) (symbol : Symbol)
           (fallback : option SQL) : bool :=
  match pv ≫= (fun m => m !! symbol) with
  | Some _ => true
  | None => match fallback with Some _ => true | None => false end
  end.

(** A node that [print] accepts in the mode [isDev]: an Indent node only
    in development mode, a Query only without a Query among its nodes, a
    Placeholder only when it resolves. *)
Definition compilable (isDev : bool) (pv : option (gmap Symbol SQL)) (node : SQL) : bool :=
  match node with
  | INDENT _ _ => isDev
  | QUERY _ nodes _ => flat_nodes nodes
  | PLACEHOLDER _ symbol fallback => resolves pv symbol fallback
  | _ => true
  end.

(** The errors that are left to the walk over a fragment of such nodes. *)
Definition expected_error (isDev : bool) (e : Error) : Prop :=
  e = TooManyPlaceholders \/ e = ConflictingSymbolAlias \/ e = StackExhausted
  \/ (isDev = true /\ e = TypeError).

(** The pattern of [compile] for blank lines matches somewhere in the
    text: a newline, white space, and another newline. *)
Fixpoint has_blank_line (s : string) : bool :=
  match s with
  | EmptyString => false
  | String c r =>
      (is_char ch_newline c && bool_decide (is_Some (after_blank_run r)))
      || has_blank_line r
  end.

(** Every entry of the cache of constant templates is a Raw node of the
    text it is filed under. *)
Definition simple_cache_ok (st : ModuleState) : Prop :=
  forall text node,
    CACHE_SIMPLE_FRAGMENTS st !! text = Some node -> exists o, node = RAW o text.

(** The fragment with the identity of every node and the flags of every
    Query set to zero, the fallbacks of placeholders included. *)
Fixpoint forget_ids (sql : SQL) : SQL :=
  match sql with
  | RAW _ text => RAW 0 text
  | IDENTIFIER _ names => IDENTIFIER 0 names
  | VALUE _ value => VALUE 0 value
  | INDENT _ content => INDENT 0 (forget_ids content)
  | PARENS _ content force => PARENS 0 (forget_ids content) force
  | SYMBOL_ALIAS _ a b => SYMBOL_ALIAS 0 a b
  | PLACEHOLDER _ symbol fallback =>
      PLACEHOLDER 0 symbol
        match fallback with
        | Some sql' => Some (forget_ids sql')
        | None => None
        end
  | QUERY _ nodes _ => QUERY 0 (map forget_ids nodes) 0
  end.

(** The same for the fragments supplied for placeholders. *)
Definition forget_supplied_ids (pv : option (gmap Symbol SQL)) : option (gmap Symbol SQL) :=
  match pv with
  | Some m => Some (forget_ids <$> m)
  | None => None
  end.

(** The fragment and the fragments beneath it, fallbacks apart. *)
Fixpoint subnodes (sql : SQL) : list SQL :=
  sql ::
  match sql with
  | INDENT _ content | PARENS _ content _ => subnodes content
  | QUERY _ nodes _ => flat_map subnodes nodes
  | _ => []
  end.

(** Two nodes with the same identity, one of each fragment, are the same
    node. *)
Definition identities_agree (sql1 sql2 : SQL) : Prop :=
  forall x y, x ∈ subnodes sql1 -> y ∈ subnodes sql2 -> oid_of x = oid_of y -> x = y.

Definition is_placeholder (sql : SQL) : bool :=
  match sql with PLACEHOLDER _ _ _ => true | _ => false end.

(** No Placeholder in the fragment. *)
Definition without_placeholders (sql : SQL) : bool :=
  forallb (fun n => negb (is_placeholder n)) (subnodes sql).

(** The payloads of the Value nodes of a fragment, in the order in which
    the walk of [print] meets them (fallbacks apart). *)
Fixpoint payloads (sql : SQL) : list JsVal :=
  match sql with
  | VALUE _ value => [value]
  | INDENT _ content | PARENS _ content _ => payloads content
  | QUERY _ nodes _ => flat_map payloads nodes
  | _ => []
  end.

(** The two caches of the module are sound. *)
Definition caches_ok (st : ModuleState) : Prop :=
  raw_cache_ok st /\ simple_cache_ok st.

(** A computation that keeps the caches sound, however it ends. *)
Definition keeps_caches {A : Type} (m : M ModuleState A) : Prop :=
  forall st r st', m st = (r, st') -> caches_ok st -> caches_ok st'.

(** A third token with the description of [token_a] and [token_b], and a
    fragment that names the first token, then joins the two others with
    a SymbolAlias node and names them. *)
Definition token_c : Symbol := mkSymbol 3 (Some "u").

Definition aliased_after_first : SQL :=
  QUERY 9 [ IDENTIFIER 4 [NameSymbol (getSymbolAndName token_a)];
            RAW 7 "/";
            SYMBOL_ALIAS 5 (getSymbolAndName token_b) (getSymbolAndName token_c);
            IDENTIFIER 6 [NameSymbol (getSymbolAndName token_b)];
            RAW 7 "/";
            IDENTIFIER 8 [NameSymbol (getSymbolAndName token_c)] ] 0.
(* ================================================================== *)
(** * Basic facts *)
(* ================================================================== *)

Lemma append_cons (c : ascii) (a b : string) :
  (String c a ++ b)%string = String c (a ++ b)%string.
Proof. reflexivity. Qed.

Lemma append_nil_l (s : string) : ("" ++ s)%string = s.
Proof. reflexivity. Qed.

Lemma append_nil_r (s : string) : (s ++ "")%string = s.
Proof.
  induction s as [|c s IH]; [reflexivity |].
  rewrite append_cons. f_equal. exact IH.
Qed.

Lemma append_assoc (a b c : string) : ((a ++ b) ++ c)%string = (a ++ (b ++ c))%string.
Proof.
  induction a as [|x a IH]; [reflexivity |].
  rewrite !append_cons. f_equal. exact IH.
Qed.

Lemma append_length (a b : string) :
  String.length (a ++ b) = String.length a + String.length b.
Proof.
  induction a as [|x a IH]; [reflexivity |].
  rewrite append_cons. simpl. f_equal. exact IH.
Qed.

Lemma str_concat_singleton (s : string) : str_concat [s] = s.
Proof. unfold str_concat. apply append_nil_r. Qed.


(** ** Induction over a fragment and all the fragments beneath it *)

Section SQL_induction.

Variable P : SQL -> Prop.
Hypothesis case_RAW : forall o text, P (RAW o text).
Hypothesis case_IDENTIFIER : forall o names, P (IDENTIFIER o names).
Hypothesis case_VALUE : forall o value, P (VALUE o value).
Hypothesis case_INDENT : forall o content, P content -> P (INDENT o content).
Hypothesis case_PARENS : forall o content force, P content -> P (PARENS o content force).
Hypothesis case_SYMBOL_ALIAS : forall o a b, P (SYMBOL_ALIAS o a b).
Hypothesis case_PLACEHOLDER : forall o symbol fallback,
    match fallback with Some sql => P sql | None => True end ->
    P (PLACEHOLDER o symbol fallback).
Hypothesis case_QUERY : forall o nodes flags, Forall P nodes -> P (QUERY o nodes flags).

Fixpoint SQL_nested_ind (sql : SQL) : P sql :=
  match sql with
  | RAW o text => case_RAW o text
  | IDENTIFIER o names => case_IDENTIFIER o names
  | VALUE o value => case_VALUE o value
  | INDENT o content => case_INDENT o content (SQL_nested_ind content)
  | PARENS o content force => case_PARENS o content force (SQL_nested_ind content)
  | SYMBOL_ALIAS o a b => case_SYMBOL_ALIAS o a b
  | PLACEHOLDER o symbol fallback =>
      case_PLACEHOLDER o symbol fallback
        (match fallback as fb
               return (match fb with Some sql => P sql | None => True end) with
         | Some x => SQL_nested_ind x
         | None => I
         end)
  | QUERY o nodes flags =>
      case_QUERY o nodes flags
        ((fix all (l : list SQL) : Forall P l :=
            match l with
            | [] => @List.Forall_nil SQL P
            | x :: rest => @List.Forall_cons SQL P x rest (SQL_nested_ind x) (all rest)
            end) nodes)
  end.

End SQL_induction.

(** ** The walk of [print] over a single node *)

Lemma print_single_node isDev pv fuel (node : SQL) indent st :
  is_query node = false ->
  print isDev pv (S fuel) node indent st =
  match printItem isDev pv (print isDev pv fuel) 1 indent 0 node [] st with
  | (Ok frags, st') => (Ok (str_concat frags), st')
  | (Throw e, st') => (Throw e, st')
  end.
Proof.
  intros Hq.
  assert (Hitems : match node with QUERY _ nodes _ => nodes | _ => [node] end = [node])
    by (destruct node; try reflexivity; discriminate).
  cbn [print]. rewrite Hitems. cbn [length printItems].
  unfold bind, ret.
  destruct (printItem _ _ _ _ _ _ _ _ st) as [[frags|e] st']; reflexivity.
Qed.

(** ** The Raw cache *)

Lemma lru_find_elem (key : string) (l : list (string * SQL)) (v : SQL) :
  lru_find key l = Some v -> (key, v) ∈ l.
Proof.
  induction l as [|[k x] l IH]; cbn [lru_find]; [discriminate|].
  case_bool_decide as Hk.
  - intros [= ->]. subst k. left.
  - intros H. right. now apply IH.
Qed.

Lemma lru_remove_Forall (P : string * SQL -> Prop) (key : string) (l : list (string * SQL)) :
  Forall P l -> Forall P (lru_remove key l).
Proof.
  induction 1 as [|[k x] l Hx Hl IH]; cbn [lru_remove]; [constructor|].
  case_bool_decide; [exact IH | now constructor].
Qed.

Lemma raw_cache_ok_loaded : raw_cache_ok loaded_module_state.
Proof. unfold raw_cache_ok. cbn. repeat constructor; eexists; reflexivity. Qed.

Lemma module_init_loaded :
  module_init empty_module_state
  = (Ok (trueNode, falseNode, nullNode, blank), loaded_module_state).
Proof. reflexivity. Qed.

(** With a sound cache, [makeRawNode] returns a Raw node of the text asked
    for, from the cache or new, and the cache stays sound. *)
Lemma makeRawNode_ok (text : string) (st : ModuleState) :
  raw_cache_ok st ->
  exists o st', makeRawNode text st = (Ok (RAW o text), st') /\ raw_cache_ok st'.
Proof.
  unfold raw_cache_ok. intros Hok. destruct st as [next [cap es] simple].
  cbn [CACHE_RAW_NODES entries] in Hok.
  unfold makeRawNode, bind, ret, raw_cache_get, raw_cache_set, alloc, modify, lru_get.
  cbn [CACHE_RAW_NODES entries maxLength next_oid CACHE_SIMPLE_FRAGMENTS].
  destruct (lru_find text es) as [v|] eqn:Hfind.
  - apply lru_find_elem in Hfind.
    rewrite Forall_forall in Hok. destruct (Hok _ Hfind) as [o Hv]. cbn in Hv. subst v.
    exists o. eexists. split; [reflexivity|].
    cbn [CACHE_RAW_NODES entries]. constructor.
    + now exists o.
    + apply lru_remove_Forall. now rewrite Forall_forall.
  - exists next. eexists. split; [reflexivity|].
    cbn [CACHE_RAW_NODES entries lru_set maxLength].
    apply Forall_take. constructor.
    + now exists next.
    + now apply lru_remove_Forall.
Qed.

(** ** Texts without a newline *)

Lemma indent_newlines_no_pad (text : string) : indent_newlines "" text = text.
Proof.
  induction text as [|c r IH]; [reflexivity|].
  cbn [indent_newlines]. rewrite append_nil_l, IH. now destruct (is_char ch_newline c).
Qed.

Lemma collapse_blank_lines_from_no_newline (fuel : nat) (s : string) :
  str_all not_newline s = true -> collapse_blank_lines_from fuel s = s.
Proof.
  revert s. induction fuel as [|fuel IH]; intros s Hs; [reflexivity|].
  destruct s as [|c r]; [reflexivity|].
  cbn [str_all] in Hs. apply andb_true_iff in Hs as [Hc Hr].
  cbn [collapse_blank_lines_from]. unfold not_newline in Hc.
  apply negb_true_iff in Hc. rewrite Hc. f_equal. now apply IH.
Qed.

Lemma collapse_blank_lines_no_newline (s : string) :
  str_all not_newline s = true -> collapse_blank_lines s = s.
Proof. apply collapse_blank_lines_from_no_newline. Qed.

Lemma str_all_impl (p q : ascii -> bool) (s : string) :
  (forall c, p c = true -> q c = true) -> str_all p s = true -> str_all q s = true.
Proof.
  intros Hpq. induction s as [|c r IH]; [reflexivity|].
  cbn [str_all]. rewrite !andb_true_iff. intros [Hc Hr]. auto.
Qed.

Lemma str_all_append (p : ascii -> bool) (a b : string) :
  str_all p (a ++ b) = str_all p a && str_all p b.
Proof.
  induction a as [|c a IH]; [reflexivity|].
  rewrite append_cons. cbn [str_all]. rewrite IH. apply andb_assoc.
Qed.

(** The class of [literal], character by character. *)
Lemma is_inline_safe_char_spec (c : ascii) :
  is_inline_safe_char c = true <->
  c = ch_dquote \/
  In c (list_ascii_of_string
          "-_@!$ :.0123456789abcdefghijklmnopqrstuvwxyzABCDEFGHIJKLMNOPQRSTUVWXYZ").
Proof.
  destruct c as [[] [] [] [] [] [] [] []]; vm_compute;
    (split; [intros H; first [discriminate H | tauto] | intros H; first [reflexivity | exfalso; intuition discriminate]]).
Qed.

Lemma inline_safe_not_newline (c : ascii) :
  is_inline_safe_char c = true -> not_newline c = true.
Proof.
  destruct c as [[] [] [] [] [] [] [] []]; vm_compute; intros H;
    first [reflexivity | discriminate H].
Qed.

Lemma quote_string_no_newline (str : string) :
  re_inline_safe str = true -> str_all not_newline (quote_string str) = true.
Proof.
  intros Hs. unfold quote_string. cbn [str_all]. rewrite str_all_append.
  rewrite (str_all_impl _ _ _ inline_safe_not_newline Hs). reflexivity.
Qed.

(** ** Decimal numerals *)

Lemma string_of_uint_digits (d : Decimal.uint) :
  str_all is_digit (NilEmpty.string_of_uint d) = true.
Proof. induction d; cbn [NilEmpty.string_of_uint str_all]; auto. Qed.

Lemma dec_digits (k : N) : str_all is_digit (dec k) = true.
Proof.
  unfold dec, NilZero.string_of_uint.
  destruct (N.to_uint k) eqn:Hk; try reflexivity; rewrite <- Hk;
    apply string_of_uint_digits.
Qed.

Lemma dec_nonempty (k : N) : dec k <> "".
Proof.
  unfold dec, NilZero.string_of_uint.
  destruct (N.to_uint k); discriminate.
Qed.

Lemma dec_inj (j k : N) : dec j = dec k -> j = k.
Proof.
  unfold dec. intros H.
  apply (f_equal NilZero.uint_of_string) in H.
  assert (Hnz : forall n, N.to_uint n <> Decimal.Nil).
  { intros [|p]; [discriminate|]. cbn. apply DecimalPos.Unsigned.to_uint_nonnil. }
  rewrite !NilZero.usu in H by apply Hnz.
  injection H as H. now apply DecimalN.Unsigned.to_uint_inj.
Qed.

Lemma digit_not_newline (c : ascii) : is_digit c = true -> not_newline c = true.
Proof.
  destruct c as [[] [] [] [] [] [] [] []]; vm_compute; intros H;
    first [reflexivity | discriminate H].
Qed.

Lemma digit_not_underscore (c : ascii) : is_digit c = true -> is_char ch_underscore c = false.
Proof.
  destruct c as [[] [] [] [] [] [] [] []]; vm_compute; intros H;
    first [reflexivity | discriminate H].
Qed.

(** ** A proof rule for the walk of [print]

    [G] is what is known of every fragment the walk can meet, and
    [Q st oe st'] relates the state before a part of the walk to the
    state after it and to the way the part ended.  If [Q] holds of every
    step that touches the state, it holds of the whole walk. *)

Section PrintRule.

Variable isDev : bool.
Variable pv : option (gmap Symbol SQL).
Variable G : SQL -> Prop.
Variable Q : CompileState -> option Error -> CompileState -> Prop.

Hypothesis G_indent : forall o content, G (INDENT o content) -> G content.
Hypothesis G_parens : forall o content force, G (PARENS o content force) -> G content.
Hypothesis G_query : forall o nodes flags, G (QUERY o nodes flags) -> Forall G nodes.
Hypothesis G_fallback : forall o symbol sql,
    G (PLACEHOLDER o symbol (Some sql)) -> G sql.
Hypothesis G_supplied : forall m symbol sql,
    pv = Some m -> m !! symbol = Some sql -> G sql.

Hypothesis Q_refl : forall st, Q st None st.
Hypothesis Q_trans : forall st st1 st2 oe,
    Q st None st1 -> Q st1 oe st2 -> Q st oe st2.
Hypothesis Q_throw : forall st e,
    e <> TooManyPlaceholders -> e <> ConflictingSymbolAlias -> Q st (Some e) st.
Hypothesis Q_identifier : forall o names st r st',
    G (IDENTIFIER o names) ->
    mapNames names [] st = (r, st') -> Q st (outcome r) st'.
Hypothesis Q_value : forall rec itemCount indent itemIndex o value frags st r st',
    printItem isDev pv rec itemCount indent itemIndex (VALUE o value) frags st = (r, st') ->
    Q st (outcome r) st'.
Hypothesis Q_symbol_alias : forall rec itemCount indent itemIndex o a b frags st r st',
    G (SYMBOL_ALIAS o a b) ->
    printItem isDev pv rec itemCount indent itemIndex (SYMBOL_ALIAS o a b) frags st = (r, st') ->
    Q st (outcome r) st'.

Lemma bind_rule {A B} (m : M CompileState A) (k : A -> M CompileState B) st r st' :
  bind m k st = (r, st') ->
  (forall r1 st1, m st = (r1, st1) -> Q st (outcome r1) st1) ->
  (forall x st1 r2 st2, m st = (Ok x, st1) -> k x st1 = (r2, st2) -> Q st1 (outcome r2) st2) ->
  Q st (outcome r) st'.
Proof.
  unfold bind. intros Hrun Hm Hk.
  destruct (m st) as [[x|e] st1] eqn:Hmst.
  - eapply Q_trans; [exact (Hm _ _ eq_refl) | exact (Hk _ _ _ _ eq_refl Hrun)].
  - injection Hrun as <- <-. exact (Hm _ _ eq_refl).
Qed.

Lemma ret_rule {A} (x : A) st r st' :
  ret x st = (r, st') -> Q st (outcome r) st'.
Proof. intros [= <- <-]. apply Q_refl. Qed.

Lemma printItem_rule (rec : SQL -> nat -> M CompileState string) :
  (forall sql indent st r st',
      G sql -> rec sql indent st = (r, st') -> Q st (outcome r) st') ->
  forall itemCount indent itemIndex item frags st r st',
    G item ->
    printItem isDev pv rec itemCount indent itemIndex item frags st = (r, st') ->
    Q st (outcome r) st'.
Proof.
  intros Hrec itemCount indent itemIndex item frags st r st' HG Hrun.
  destruct item as [o text|o names|o value|o content|o content force|o a b
                    |o symbol fallback|o nodes flags].
  - (* RAW *)
    cbn [printItem] in Hrun.
    destruct (str_nonempty text); [|now apply ret_rule in Hrun].
    eapply bind_rule; [exact Hrun | |].
    + intros r1 st1 H1.
      destruct (isDev && _ && _); [|now apply ret_rule in H1].
      destruct (trim_before_semicolon frags) as [l|e] eqn:Htrim.
      * now apply ret_rule in H1.
      * unfold trim_before_semicolon in Htrim.
        destruct (last frags); [destruct (ends_with_newline _); discriminate|].
        injection Htrim as <-. injection H1 as <- <-.
        apply Q_throw; discriminate.
    + intros x st1 r2 st2 _ H2. now apply ret_rule in H2.
  - (* IDENTIFIER *)
    cbn [printItem] in Hrun.
    eapply bind_rule; [exact Hrun | |].
    + intros r1 st1 H1. eapply Q_identifier; eauto.
    + intros x st1 r2 st2 _ H2. now apply ret_rule in H2.
  - (* VALUE *)
    eapply Q_value; eauto.
  - (* INDENT *)
    cbn [printItem] in Hrun. destruct isDev.
    + eapply bind_rule; [exact Hrun | |].
      * intros r1 st1 H1. eapply Hrec; [|exact H1]. eapply G_indent; eauto.
      * intros x st1 r2 st2 _ H2. now apply ret_rule in H2.
    + injection Hrun as <- <-. apply Q_throw; discriminate.
  - (* PARENS *)
    cbn [printItem] in Hrun.
    eapply bind_rule; [exact Hrun | |].
    + intros r1 st1 H1. eapply Hrec; [|exact H1]. eapply G_parens; eauto.
    + intros x st1 r2 st2 _ H2. cbv beta in H2.
      destruct (force || negb (isParensSafe x)); now apply ret_rule in H2.
  - (* SYMBOL_ALIAS *)
    eapply Q_symbol_alias; eauto.
  - (* PLACEHOLDER *)
    cbn [printItem] in Hrun.
    assert (Hres : forall sql,
               match pv ≫= (fun m => m !! symbol) with
               | Some v => Some v
               | None => fallback
               end = Some sql -> G sql).
    { intros sql. destruct pv as [m|]; cbn.
      - destruct (m !! symbol) as [v|] eqn:Hm.
        + intros [= <-]. eapply G_supplied; eauto.
        + intros ->. eapply G_fallback; eauto.
      - intros ->. eapply G_fallback; eauto. }
    destruct (match pv ≫= (fun m => m !! symbol) with
              | Some v => Some v
              | None => fallback
              end) as [resolved|].
    + eapply bind_rule; [exact Hrun | |].
      * intros r1 st1 H1. eapply Hrec; [|exact H1]. now apply Hres.
      * intros x st1 r2 st2 _ H2. now apply ret_rule in H2.
    + injection Hrun as <- <-. apply Q_throw; discriminate.
  - (* QUERY *)
    cbn [printItem] in Hrun. injection Hrun as <- <-. apply Q_throw; discriminate.
Qed.

Lemma printItems_rule (rec : SQL -> nat -> M CompileState string) :
  (forall sql indent st r st',
      G sql -> rec sql indent st = (r, st') -> Q st (outcome r) st') ->
  forall itemCount indent items itemIndex frags st r st',
    Forall G items ->
    printItems isDev pv rec itemCount indent items itemIndex frags st = (r, st') ->
    Q st (outcome r) st'.
Proof.
  intros Hrec itemCount indent items.
  induction items as [|item rest IH]; intros itemIndex frags st r st' HG Hrun.
  - now apply ret_rule in Hrun.
  - cbn [printItems] in Hrun. apply Forall_cons in HG as [Hitem Hrest].
    eapply bind_rule; [exact Hrun | |].
    + intros r1 st1 H1. eapply printItem_rule; eauto.
    + intros x st1 r2 st2 _ H2. eapply IH; eauto.
Qed.

Theorem print_rule (fuel : nat) :
  forall sql indent st r st',
    G sql -> print isDev pv fuel sql indent st = (r, st') -> Q st (outcome r) st'.
Proof.
  induction fuel as [|fuel IH]; intros sql indent st r st' HG Hrun.
  - injection Hrun as <- <-. apply Q_throw; discriminate.
  - cbn [print] in Hrun.
    eapply bind_rule; [exact Hrun | |].
    + intros r1 st1 H1. eapply printItems_rule; [exact IH | | exact H1].
      destruct sql; try (constructor; [assumption | constructor]).
      eapply G_query; eauto.
    + intros x st1 r2 st2 _ H2. now apply ret_rule in H2.
Qed.

End PrintRule.

(** ** Aliases once given are kept *)

Lemma alias_for_nonempty (safeDesc : string) (number : CounterValue) :
  alias_for safeDesc number <> "".
Proof. unfold alias_for. rewrite append_cons. discriminate. Qed.

Lemma makeIdentifierForSymbol_run (name : SymbolAndName) (st : CompileState) :
  exists number dc,
    makeIdentifierForSymbol name st
    = (Ok (alias_for (sn_n name) number),
       mkCompileState (values st) (valueCount st)
                      (<[sn_s name := alias_for (sn_n name) number]> (symbolToIdentifier st))
                      dc).
Proof.
  unfold makeIdentifierForSymbol, bind, ret, descCounter_get, descCounter_set,
    symbolToIdentifier_set, modify.
  destruct (read_truthy (property_get (descCounter st) (sn_n name)));
    do 2 eexists; reflexivity.
Qed.

Lemma truthy_name_Some (st : CompileState) (symbol : Symbol) (name : string) :
  names_nonempty st ->
  symbolToIdentifier st !! symbol = Some name ->
  truthy_name (symbolToIdentifier st !! symbol) = true.
Proof.
  intros Hne Hl. rewrite Hl. cbn. specialize (Hne _ _ Hl). now destruct name.
Qed.

Lemma truthy_name_false (st : CompileState) (symbol : Symbol) :
  names_nonempty st ->
  truthy_name (symbolToIdentifier st !! symbol) = false ->
  symbolToIdentifier st !! symbol = None.
Proof.
  intros Hne. destruct (symbolToIdentifier st !! symbol) as [name|] eqn:Hl; [|reflexivity].
  rewrite <- Hl, (truthy_name_Some st symbol name Hne Hl). discriminate.
Qed.

Lemma with_alias_kept (symbol : Symbol) (name : string) (st : CompileState) :
  names_nonempty st -> name <> "" ->
  symbolToIdentifier st !! symbol = None \/ symbolToIdentifier st !! symbol = Some name ->
  names_nonempty (with_alias symbol name st) /\ aliases_kept st (with_alias symbol name st).
Proof.
  intros Hne Hname Hfree. unfold names_nonempty, aliases_kept, with_alias.
  cbn [symbolToIdentifier]. split.
  - intros s x. rewrite lookup_insert. case_decide; [intros [= <-]; exact Hname | apply Hne].
  - intros s x Hl. rewrite lookup_insert. case_decide; [|exact Hl].
    subst s. destruct Hfree as [H|H]; congruence.
Qed.

Lemma makeIdentifierForSymbol_kept (name : SymbolAndName) (st : CompileState) r st' :
  names_nonempty st ->
  symbolToIdentifier st !! sn_s name = None ->
  makeIdentifierForSymbol name st = (r, st') ->
  names_nonempty st' /\ aliases_kept st st'.
Proof.
  intros Hne Hfree Hrun.
  destruct (makeIdentifierForSymbol_run name st) as (number & dc & Heq).
  rewrite Heq in Hrun. injection Hrun as <- <-.
  unfold names_nonempty, aliases_kept. cbn [symbolToIdentifier]. split.
  - intros s x. rewrite lookup_insert.
    case_decide; [intros [= <-]; apply alias_for_nonempty | apply Hne].
  - intros s x Hl. rewrite lookup_insert. case_decide; [congruence | exact Hl].
Qed.

Lemma keeps_aliases_refl st : keeps_aliases st None st.
Proof. intros H. split; [exact H | intros s x Hx; exact Hx]. Qed.

Lemma keeps_aliases_trans st st1 st2 oe :
  keeps_aliases st None st1 -> keeps_aliases st1 oe st2 -> keeps_aliases st oe st2.
Proof.
  intros H1 H2 Hne. destruct (H1 Hne) as [Hne1 Hk1]. destruct (H2 Hne1) as [Hne2 Hk2].
  split; [exact Hne2 | intros s x Hx; apply Hk2, Hk1, Hx].
Qed.

Lemma mapNames_keeps_aliases (names : list Name) :
  forall mapped st r st',
    mapNames names mapped st = (r, st') -> keeps_aliases st (outcome r) st'.
Proof.
  induction names as [|[str|name] rest IH]; intros mapped st r st' Hrun.
  - injection Hrun as <- <-. apply keeps_aliases_refl.
  - cbn [mapNames] in Hrun. eapply IH; eauto.
  - cbn [mapNames] in Hrun. cbv beta iota zeta delta [bind get] in Hrun.
    destruct (truthy_name (symbolToIdentifier st !! sn_s name)) eqn:Ht.
    + cbv beta iota delta [ret] in Hrun. eapply IH; eauto.
    + destruct (makeIdentifierForSymbol name st) as [[alias|e] st1] eqn:Hmk.
      * eapply keeps_aliases_trans; [|eapply IH; eauto].
        intros Hne. eapply makeIdentifierForSymbol_kept; eauto.
        now apply truthy_name_false.
      * injection Hrun as <- <-. intros Hne.
        eapply makeIdentifierForSymbol_kept; eauto. now apply truthy_name_false.
Qed.

(** ** Splitting a string at its last separator *)

Lemma code_inj (x y : ascii) : code x = code y -> x = y.
Proof.
  unfold code. intros H. apply (f_equal ascii_of_N) in H.
  now rewrite !ascii_N_embedding in H.
Qed.

Lemma is_char_true (x c : ascii) : is_char x c = true <-> c = x.
Proof.
  unfold is_char. rewrite N.eqb_eq. split; [apply code_inj | now intros ->].
Qed.

Lemma is_char_refl (x : ascii) : is_char x x = true.
Proof. now apply is_char_true. Qed.

Lemma str_last_append (a b : string) :
  b <> "" -> str_last (a ++ b) = str_last b.
Proof.
  intros Hb. induction a as [|c a IH]; [reflexivity|].
  rewrite append_cons. cbn [str_last]. rewrite IH.
  destruct (a ++ b)%string eqn:Hab; [|reflexivity].
  destruct a; [|discriminate]. now rewrite append_nil_l in Hab.
Qed.

Lemma str_last_all (p : ascii -> bool) (s : string) (c : ascii) :
  str_all p s = true -> str_last s = Some c -> p c = true.
Proof.
  induction s as [|x s IH]; [discriminate|].
  cbn [str_all str_last]. rewrite andb_true_iff. intros [Hx Hs].
  destruct s; [intros [= <-]; exact Hx | now apply IH].
Qed.

Lemma append_inj_tail (a1 a2 b : string) :
  (a1 ++ b)%string = (a2 ++ b)%string -> a1 = a2.
Proof.
  revert a2. induction a1 as [|x a1 IH]; intros [|y a2] H.
  - reflexivity.
  - apply (f_equal String.length) in H. rewrite append_nil_l, append_cons in H.
    cbn [String.length] in H. rewrite append_length in H. lia.
  - apply (f_equal String.length) in H. rewrite append_nil_l, append_cons in H.
    cbn [String.length] in H. rewrite append_length in H. lia.
  - rewrite !append_cons in H. injection H as -> H. f_equal. now apply IH.
Qed.

Lemma append_inj_head (a b1 b2 : string) :
  (a ++ b1)%string = (a ++ b2)%string -> b1 = b2.
Proof.
  induction a as [|x a IH]; [now rewrite !append_nil_l|].
  rewrite !append_cons. intros [= H]. now apply IH.
Qed.

(** A string is cut in one way only at the last occurrence of [c]. *)
Lemma split_at_last (c : ascii) (a1 b1 a2 b2 : string) :
  str_all (fun x => negb (is_char c x)) b1 = true ->
  str_all (fun x => negb (is_char c x)) b2 = true ->
  (a1 ++ String c b1)%string = (a2 ++ String c b2)%string ->
  a1 = a2 /\ b1 = b2.
Proof.
  intros Hb1 Hb2. revert a2. induction a1 as [|x a1 IH]; intros [|y a2] H.
  - rewrite !append_nil_l in H. now injection H.
  - rewrite append_nil_l, append_cons in H. injection H as -> H. subst b1.
    rewrite str_all_append in Hb1. cbn [str_all] in Hb1.
    rewrite is_char_refl in Hb1. cbn in Hb1. rewrite andb_false_r in Hb1. discriminate.
  - rewrite append_nil_l, append_cons in H. injection H as -> H. subst b2.
    rewrite str_all_append in Hb2. cbn [str_all] in Hb2.
    rewrite is_char_refl in Hb2. cbn in Hb2. rewrite andb_false_r in Hb2. discriminate.
  - rewrite !append_cons in H. injection H as -> H.
    destruct (IH a2 H) as [-> ->]. auto.
Qed.

(** ** The alias determines the description and the number *)

Lemma alias_suffix_shape (number : CounterValue) : suffix_shape number.
Proof.
  destruct number as [k|].
  - destruct (decide (k = 1%N)) as [->|Hk]; [now left|].
    assert (Hs : alias_suffix (CNumber k) = dec k)
      by (destruct k as [|[p|p|]]; try reflexivity; congruence).
    right; rewrite ?Hs.
    + apply dec_nonempty.
    + apply (str_all_impl is_digit); [|apply dec_digits].
      intros c Hc. unfold no_underscore. now rewrite digit_not_underscore.
    + congruence.
  - right; [discriminate | reflexivity | discriminate].
Qed.

Lemma alias_suffix_inj (v1 v2 : CounterValue) :
  alias_suffix v1 = alias_suffix v2 -> v1 = v2.
Proof.
  assert (Hdec : forall k, k <> 1%N -> alias_suffix (CNumber k) = dec k)
    by (intros [|[p|p|]] Hk; try reflexivity; congruence).
  assert (Hnan : forall k, dec k <> "NaN").
  { intros k H. pose proof (dec_digits k) as Hd. rewrite H in Hd. discriminate. }
  assert (Hund : forall k, dec k <> "_").
  { intros k H. pose proof (dec_digits k) as Hd. rewrite H in Hd. discriminate. }
  destruct v1 as [j|], v2 as [k|]; intros H; try reflexivity.
  - destruct (decide (j = 1%N)) as [->|Hj], (decide (k = 1%N)) as [->|Hk];
      try reflexivity.
    + rewrite (Hdec k Hk) in H. now apply eq_sym, Hund in H.
    + rewrite (Hdec j Hj) in H. now apply Hund in H.
    + rewrite (Hdec j Hj), (Hdec k Hk) in H. f_equal. now apply dec_inj.
  - destruct (decide (j = 1%N)) as [->|Hj]; [discriminate|].
    rewrite (Hdec j Hj) in H. now apply Hnan in H.
  - destruct (decide (k = 1%N)) as [->|Hk]; [discriminate|].
    rewrite (Hdec k Hk) in H. now apply eq_sym, Hnan in H.
Qed.

Lemma alias_for_inj (d1 d2 : string) (v1 v2 : CounterValue) :
  alias_for d1 v1 = alias_for d2 v2 -> d1 = d2 /\ v1 = v2.
Proof.
  unfold alias_for. intros H. apply append_inj_head in H.
  change ("_" ++ alias_suffix v1)%string with (String ch_underscore (alias_suffix v1)) in H.
  change ("_" ++ alias_suffix v2)%string with (String ch_underscore (alias_suffix v2)) in H.
  destruct (alias_suffix_shape v1) as [->|Hne1 Hall1 Hv1],
           (alias_suffix_shape v2) as [->|Hne2 Hall2 Hv2].
  - split; [|reflexivity].
    change (String ch_underscore (alias_suffix (CNumber 1))) with ("__")%string in H.
    now apply append_inj_tail in H.
  - exfalso. apply (f_equal str_last) in H.
    rewrite !str_last_append in H by discriminate.
    change (str_last (String ch_underscore (alias_suffix (CNumber 1))))
      with (Some ch_underscore) in H.
    change (String ch_underscore (alias_suffix v2))
      with ("_" ++ alias_suffix v2)%string in H.
    rewrite str_last_append in H by exact Hne2.
    pose proof (str_last_all _ _ _ Hall2 (eq_sym H)) as Hc. discriminate Hc.
  - exfalso. apply (f_equal str_last) in H.
    rewrite !str_last_append in H by discriminate.
    change (str_last (String ch_underscore (alias_suffix (CNumber 1))))
      with (Some ch_underscore) in H.
    change (String ch_underscore (alias_suffix v1))
      with ("_" ++ alias_suffix v1)%string in H.
    rewrite str_last_append in H by exact Hne1.
    pose proof (str_last_all _ _ _ Hall1 H) as Hc. discriminate Hc.
  - destruct (split_at_last ch_underscore _ _ _ _ Hall1 Hall2 H) as [Hd Hs].
    split; [exact Hd | now apply alias_suffix_inj].
Qed.

(** ** The result of [mangleName] *)

Lemma collapse_unsafe_from_chars (s : string) :
  forall in_run, str_all is_mangled_char (collapse_unsafe_from in_run s) = true.
Proof.
  induction s as [|c r IH]; intros in_run; [reflexivity|].
  cbn [collapse_unsafe_from].
  destruct (is_mangled_char c) eqn:Hc.
  - cbn [str_all]. now rewrite Hc, IH.
  - destruct in_run; [apply IH|]. cbn [str_all]. now rewrite IH.
Qed.

Lemma collapse_underscores_chars (p : ascii -> bool) (s : string) :
  str_all p s = true -> str_all p (collapse_underscores s) = true.
Proof.
  induction s as [|c r IH]; [reflexivity|].
  cbn [str_all]. rewrite andb_true_iff. intros [Hc Hr].
  cbn [collapse_underscores].
  destruct (is_char ch_underscore c).
  - destruct r as [|c' r']; [cbn; now rewrite Hc|].
    destruct (is_char ch_underscore c'); [now apply IH|].
    cbn [str_all]. rewrite Hc. now apply IH.
  - cbn [str_all]. rewrite Hc. now apply IH.
Qed.

Lemma collapse_underscores_head_plain (c : ascii) (r : string) :
  is_char ch_underscore c = false ->
  collapse_underscores (String c r) = String c (collapse_underscores r).
Proof. intros Hc. cbn [collapse_underscores]. now rewrite Hc. Qed.

Lemma no_double_cons_plain (c : ascii) (r : string) :
  is_char ch_underscore c = false ->
  no_double_underscore (String c r) = no_double_underscore r.
Proof.
  intros Hc. cbn [no_double_underscore]. destruct r; [reflexivity|].
  now rewrite Hc.
Qed.

Lemma collapse_underscores_no_double (s : string) :
  no_double_underscore (collapse_underscores s) = true.
Proof.
  induction s as [|c r IH]; [reflexivity|].
  destruct (is_char ch_underscore c) eqn:Hc.
  - cbn [collapse_underscores]. rewrite Hc.
    destruct r as [|c' r']; [reflexivity|].
    destruct (is_char ch_underscore c') eqn:Hc'; [exact IH|].
    rewrite (collapse_underscores_head_plain c' r' Hc') in *.
    change (no_double_underscore (String c (String c' (collapse_underscores r'))))
      with (negb (is_char ch_underscore c && is_char ch_underscore c')
            && no_double_underscore (String c' (collapse_underscores r'))).
    rewrite Hc, Hc'. exact IH.
  - rewrite (collapse_underscores_head_plain c r Hc).
    now rewrite (no_double_cons_plain c _ Hc).
Qed.

Lemma no_double_tail (c : ascii) (r : string) :
  no_double_underscore (String c r) = true -> no_double_underscore r = true.
Proof.
  cbn [no_double_underscore]. destruct r; [reflexivity|].
  rewrite andb_true_iff. now intros [_ H].
Qed.

Lemma no_double_cons2 (c c' : ascii) (r : string) :
  no_double_underscore (String c (String c' r))
  = negb (is_char ch_underscore c && is_char ch_underscore c')
    && no_double_underscore (String c' r).
Proof. reflexivity. Qed.

Lemma no_double_take (k : nat) :
  forall s, no_double_underscore s = true -> no_double_underscore (str_take k s) = true.
Proof.
  induction k as [|k IH]; intros [|c r] H; try reflexivity.
  pose proof (IH r (no_double_tail c r H)) as Hr.
  destruct r as [|c' r']; [destruct k; reflexivity|].
  destruct k as [|k']; [reflexivity|].
  change (str_take (S (S k')) (String c (String c' r')))
    with (String c (String c' (str_take k' r'))).
  change (str_take (S k') (String c' r')) with (String c' (str_take k' r')) in Hr.
  rewrite no_double_cons2 in H |- *.
  apply andb_true_iff in H as [Hcc _]. now rewrite Hcc, Hr.
Qed.

Lemma no_double_init (s : string) :
  no_double_underscore s = true -> no_double_underscore (str_init s) = true.
Proof.
  induction s as [|c r IH]; [reflexivity|]. intros H.
  pose proof (IH (no_double_tail c r H)) as Hr.
  destruct r as [|c' r']; [reflexivity|].
  destruct r' as [|c'' r'']; [reflexivity|].
  change (str_init (String c (String c' (String c'' r''))))
    with (String c (String c' (str_init (String c'' r'')))).
  change (str_init (String c' (String c'' r'')))
    with (String c' (str_init (String c'' r''))) in Hr.
  rewrite no_double_cons2 in H |- *.
  apply andb_true_iff in H as [Hcc _]. now rewrite Hcc, Hr.
Qed.

Lemma str_all_take (p : ascii -> bool) (k : nat) :
  forall s, str_all p s = true -> str_all p (str_take k s) = true.
Proof.
  induction k as [|k IH]; intros [|c r] H; try reflexivity.
  cbn [str_take str_all] in *. apply andb_true_iff in H as [Hc Hr].
  now rewrite Hc, IH.
Qed.

Lemma str_all_init (p : ascii -> bool) (s : string) :
  str_all p s = true -> str_all p (str_init s) = true.
Proof.
  induction s as [|c r IH]; [reflexivity|]. intros H.
  cbn [str_all] in H. apply andb_true_iff in H as [Hc Hr].
  destruct r as [|c' r']; [reflexivity|].
  change (str_init (String c (String c' r'))) with (String c (str_init (String c' r'))).
  cbn [str_all]. now rewrite Hc, IH.
Qed.

Lemma str_take_length (k : nat) : forall s, String.length (str_take k s) <= k.
Proof.
  induction k as [|k IH]; intros [|c r]; cbn; try lia.
  specialize (IH r). lia.
Qed.

Lemma str_init_length (s : string) : String.length (str_init s) <= String.length s.
Proof.
  induction s as [|c r IH]; [reflexivity|].
  destruct r as [|c' r']; [cbn; lia|].
  change (str_init (String c (String c' r'))) with (String c (str_init (String c' r'))).
  cbn [String.length] in *. lia.
Qed.

Lemma str_head_take (k : nat) (s : string) :
  str_head (str_take k s) = None \/ str_head (str_take k s) = str_head s.
Proof. destruct k, s; cbn; auto. Qed.

Lemma str_head_init (s : string) :
  str_head (str_init s) = None \/ str_head (str_init s) = str_head s.
Proof. destruct s as [|c [|c' r]]; cbn; auto. Qed.

(** Without two underscores in a row, what is left when a final
    underscore is removed does not end in an underscore. *)
Lemma str_last_init_no_double (s : string) :
  no_double_underscore s = true ->
  str_last s = Some ch_underscore ->
  str_last (str_init s) <> Some ch_underscore.
Proof.
  induction s as [|c r IH]; [discriminate|]. intros Hnd Hlast.
  destruct r as [|c' r']; [discriminate|].
  destruct r' as [|c'' r''].
  - cbn in Hlast. injection Hlast as ->. cbn [str_init str_last].
    cbn [no_double_underscore] in Hnd. rewrite is_char_refl, andb_true_r in Hnd.
    intros [= ->]. now rewrite is_char_refl in Hnd.
  - exact (IH (no_double_tail _ _ Hnd) Hlast).
Qed.

Lemma strip_leading_head (s : string) :
  no_double_underscore s = true ->
  str_head (strip_leading_underscore s) <> Some ch_underscore.
Proof.
  destruct s as [|c r]; [discriminate|]. intros Hnd.
  cbn [strip_leading_underscore].
  destruct (is_char ch_underscore c) eqn:Hc.
  - destruct r as [|c' r']; [discriminate|].
    cbn [no_double_underscore] in Hnd. rewrite Hc in Hnd.
    cbn [str_head]. intros [= ->]. now rewrite is_char_refl in Hnd.
  - cbn [str_head]. intros [= ->]. now rewrite is_char_refl in Hc.
Qed.

Lemma strip_leading_keeps (p : ascii -> bool) (s : string) :
  (str_all p s = true -> str_all p (strip_leading_underscore s) = true)
  /\ (no_double_underscore s = true ->
      no_double_underscore (strip_leading_underscore s) = true).
Proof.
  destruct s as [|c r]; [auto|]. cbn [strip_leading_underscore].
  destruct (is_char ch_underscore c); [|auto]. split.
  - cbn [str_all]. rewrite andb_true_iff. now intros [_ H].
  - apply no_double_tail.
Qed.

Lemma str_last_None (s : string) : str_last s = None -> s = "".
Proof.
  induction s as [|c r IH]; [reflexivity|].
  destruct r; [discriminate|]. intros H. apply IH in H. discriminate.
Qed.

Lemma mangleName_mangled (str : string) : mangled (mangleName str).
Proof.
  unfold mangleName.
  set (t := str_take 50 (strip_leading_underscore
              (collapse_underscores (collapse_unsafe (underscore_uppercase str))))).
  assert (Hchars : str_all is_mangled_char t = true).
  { apply str_all_take. apply (proj1 (strip_leading_keeps _ _)).
    apply collapse_underscores_chars. apply collapse_unsafe_from_chars. }
  assert (Hnd : no_double_underscore t = true).
  { apply no_double_take. apply (proj2 (strip_leading_keeps is_mangled_char _)).
    apply collapse_underscores_no_double. }
  assert (Hhead : str_head t <> Some ch_underscore).
  { destruct (str_head_take 50 (strip_leading_underscore
       (collapse_underscores (collapse_unsafe (underscore_uppercase str))))) as [H|H];
      fold t in H; rewrite H; [discriminate|].
    apply strip_leading_head, collapse_underscores_no_double. }
  assert (Hlen : String.length t <= 50) by apply str_take_length.
  clearbody t.
  assert (Hs : mangled (or_local (strip_trailing_underscore t))
               \/ strip_trailing_underscore t = "").
  { unfold strip_trailing_underscore.
    destruct (str_last t) as [c|] eqn:Hlast.
    - destruct (is_char ch_underscore c) eqn:Hc.
      + apply is_char_true in Hc. subst c.
        destruct (str_init t) as [|x u] eqn:Hinit; [now right|]. left.
        cbn [or_local]. rewrite <- Hinit. repeat split.
        * now apply str_all_init.
        * rewrite Hinit. cbn. lia.
        * pose proof (str_init_length t). lia.
        * destruct (str_head_init t) as [H|H]; rewrite H; [discriminate | exact Hhead].
        * now apply str_last_init_no_double.
        * now apply no_double_init.
      + destruct t as [|x u]; [discriminate|]. left. cbn [or_local]. repeat split; auto.
        * cbn. lia.
        * rewrite Hlast. intros [= ->]. now rewrite is_char_refl in Hc.
    - right. now apply str_last_None. }
  destruct Hs as [Hs|Hs]; [exact Hs|].
  rewrite Hs. cbn [or_local]. repeat split; cbn; try lia; discriminate.
Qed.

(* ================================================================== *)
(** * The alias of an opaque token *)
(* ================================================================== *)

Lemma alias_suffix_first : alias_suffix (CNumber 1) = "_".
Proof. reflexivity. Qed.

Lemma alias_suffix_later (k : N) : (2 <= k)%N -> alias_suffix (CNumber k) = dec k.
Proof. intros Hk. destruct k as [|[p|p|]]; try reflexivity; lia. Qed.

Lemma property_get_own (obj : gmap string CounterValue) (key : string) :
  ~ inherited_key key ->
  property_get obj key = match obj !! key with
                         | Some v => ReadOwn v
                         | None => ReadUndefined
                         end.
Proof.
  unfold inherited_key, property_get. intros Hk.
  rewrite bool_decide_eq_false_2 by (intros ->; apply Hk; left).
  destruct (obj !! key); [reflexivity|].
  rewrite bool_decide_eq_false_2; [reflexivity|].
  intros Hin. apply Hk. now right.
Qed.

Lemma property_set_own (obj : gmap string CounterValue) (key : string) (v : CounterValue) :
  ~ inherited_key key -> property_set obj key v = <[key := v]> obj.
Proof.
  unfold inherited_key, property_set. intros Hk.
  now rewrite bool_decide_eq_false_2 by (intros ->; apply Hk; left).
Qed.

(** What [makeIdentifierForSymbol] does for a description that is not a
    key of [Object.prototype]. *)
Lemma makeIdentifierForSymbol_own (name : SymbolAndName) (st : CompileState) :
  ~ inherited_key (sn_n name) ->
  makeIdentifierForSymbol name st
  = (Ok (alias_for (sn_n name) (CNumber (generated st (sn_n name) + 1))),
     mkCompileState
       (values st) (valueCount st)
       (<[sn_s name := alias_for (sn_n name) (CNumber (generated st (sn_n name) + 1))]>
          (symbolToIdentifier st))
       (<[sn_n name := CNumber (generated st (sn_n name) + 1)]> (descCounter st))).
Proof.
  intros Hk. destruct st as [vs vc s2i dc]. destruct name as [sy d].
  unfold makeIdentifierForSymbol, generated, bind, ret, descCounter_get,
    descCounter_set, symbolToIdentifier_set, modify.
  cbn [sn_s sn_n descCounter symbolToIdentifier values valueCount] in *.
  rewrite (property_get_own dc d Hk).
  destruct (dc !! d) as [[k|]|] eqn:Hd; cbn [read_truthy].
  - destruct (N.eqb_spec k 0) as [->|Hk0]; cbn [negb].
    + cbn [descCounter]. rewrite !(property_set_own _ d _ Hk), (property_get_own _ d Hk).
      rewrite lookup_insert_eq. cbn [read_increment].
      rewrite insert_insert_eq. reflexivity.
    + cbn [descCounter]. rewrite (property_get_own _ d Hk), Hd. cbn [read_increment].
      rewrite (property_set_own _ d _ Hk). reflexivity.
  - cbn [descCounter]. rewrite !(property_set_own _ d _ Hk), (property_get_own _ d Hk).
    rewrite lookup_insert_eq. cbn [read_increment].
    rewrite insert_insert_eq. reflexivity.
  - cbn [descCounter]. rewrite !(property_set_own _ d _ Hk), (property_get_own _ d Hk).
    rewrite lookup_insert_eq. cbn [read_increment].
    rewrite insert_insert_eq. reflexivity.
Qed.

(** A run of Identifier nodes, each of one token without alias, all the
    tokens distinct and of one description. *)
Lemma printItems_identifier_nodes isDev pv rec itemCount indent (d : string)
      (items : list (oid * SymbolAndName)) :
  ~ inherited_key d ->
  forall itemIndex frags st,
    NoDup (map (fun item => sn_s (snd item)) items) ->
    Forall (fun item => sn_n (snd item) = d) items ->
    Forall (fun item => symbolToIdentifier st !! sn_s (snd item) = None) items ->
    exists st',
      printItems isDev pv rec itemCount indent (identifier_nodes items) itemIndex frags st
      = (Ok (frags ++ numbered_aliases d (generated st d + 1) (length items)), st')
      /\ generated st' d = (generated st d + N.of_nat (length items))%N.
Proof.
  intros Hd. induction items as [|[o t] items IH]; intros itemIndex frags st Hnd Hdesc Hfree.
  - exists st. cbn. rewrite app_nil_r, N.add_0_r. auto.
  - cbn [identifier_nodes map fst snd length] in *.
    apply NoDup_cons in Hnd as [Hnotin Hnd].
    apply Forall_cons in Hdesc as [Ht Hdesc].
    apply Forall_cons in Hfree as [Hfree_t Hfree].
    cbn [snd] in Ht, Hfree_t. subst d.
    cbn [printItems printItem mapNames length].
    cbv beta iota zeta delta [bind get ret]. rewrite Hfree_t. cbn [truthy_name].
    rewrite (makeIdentifierForSymbol_own t st Hd).
    cbn [app bool_decide decide_rel head default].
    rewrite bool_decide_eq_true_2 by reflexivity.
    set (st1 := mkCompileState _ _ _ _).
    destruct (IH (S itemIndex)
                 (frags ++ [alias_for (sn_n t) (CNumber (generated st (sn_n t) + 1))]) st1)
      as (st' & Hrun & Hgen); [exact Hnd | exact Hdesc | |].
    + rewrite Forall_forall in Hfree |- *. intros item Hin.
      subst st1. cbn [symbolToIdentifier]. rewrite lookup_insert_ne; [now apply Hfree|].
      intros Heq. apply Hnotin. rewrite Heq.
      apply list_elem_of_fmap. exists item. auto.
    + change (map (fun item => IDENTIFIER (fst item) [NameSymbol (snd item)]) items)
        with (identifier_nodes items).
      assert (Hg1 : generated st1 (sn_n t) = (generated st (sn_n t) + 1)%N).
      { subst st1. unfold generated at 1. cbn [descCounter]. now rewrite lookup_insert_eq. }
      exists st'. unfold id. rewrite Hrun, Hgen, Hg1. split.
      * cbn [numbered_aliases]. now rewrite <- app_assoc.
      * lia.
Qed.

(** C1, as stated, fails: compiling the template that selects from the
    token described as user_rows gives the alias with two trailing
    underscores, not one. *)
Lemma first_alias_has_two_trailing_underscores :
  from_user_rows loaded_module_state
  = (Ok (QUERY 6 [RAW 5 "from "; IDENTIFIER 4 [NameSymbol (getSymbolAndName user_rows)]] 0),
     snd (from_user_rows loaded_module_state))
  /\ compile false None 2
       (QUERY 6 [RAW 5 "from "; IDENTIFIER 4 [NameSymbol (getSymbolAndName user_rows)]] 0)
     = Ok ("from __user_rows__", [])
  /\ "from __user_rows__" <> "from __user_rows_".
Proof. split; [|split]; [reflexivity | reflexivity | discriminate]. Qed.

(** C1, amended: during one compile, when a token gets a new alias and
    its mangled description is not a key that [descCounter] inherits from
    [Object.prototype], the alias is the description between two leading
    underscores and a suffix: two underscores when no alias was generated
    for that description before, and an underscore and [n] for the n-th
    alias of that description, n at least 2.  The alias is recorded for
    the token and the count of the description goes up by one.  So a
    Query of Identifier nodes of [k] distinct tokens of one description
    renders the aliases numbered 1 to [k], in that order.  In
    particular the template that selects from the token described as
    user_rows compiles, in either mode and as often as one likes, to the
    text that ends in the description with two underscores before and two
    after. *)
Theorem new_alias_numbering (name : SymbolAndName) (st : CompileState) :
  ~ inherited_key (sn_n name) ->
  (exists st',
      makeIdentifierForSymbol name st
      = (Ok (alias_for (sn_n name) (CNumber (generated st (sn_n name) + 1))), st')
      /\ symbolToIdentifier st' !! sn_s name
         = Some (alias_for (sn_n name) (CNumber (generated st (sn_n name) + 1)))
      /\ generated st' (sn_n name) = (generated st (sn_n name) + 1)%N
      /\ values st' = values st /\ valueCount st' = valueCount st)
  /\ alias_for (sn_n name) (CNumber 1) = ("__" ++ sn_n name ++ "__")%string
  /\ (forall k, (2 <= k)%N ->
        alias_for (sn_n name) (CNumber k) = ("__" ++ sn_n name ++ "_" ++ dec k)%string)
  /\ (forall isDev pv fuel o flags (items : list (oid * SymbolAndName)),
        NoDup (map (fun item => sn_s (snd item)) items) ->
        Forall (fun item => sn_n (snd item) = sn_n name) items ->
        exists st',
          print isDev pv (S fuel) (QUERY o (identifier_nodes items) flags) 0
                initial_compile_state
          = (Ok (str_concat (numbered_aliases (sn_n name) 1 (length items))), st'))
  /\ (forall isDev fuel,
        compile isDev None (S (S fuel))
          (QUERY 6 [RAW 5 "from "; IDENTIFIER 4 [NameSymbol (getSymbolAndName user_rows)]] 0)
        = Ok ("from __user_rows__", [])).
Proof.
  intros Hk. split; [|split; [|split; [|split]]].
  - eexists. split; [apply makeIdentifierForSymbol_own, Hk|].
    unfold generated. cbn [symbolToIdentifier descCounter values valueCount].
    rewrite !lookup_insert_eq. auto.
  - reflexivity.
  - intros k Hk2. unfold alias_for. now rewrite alias_suffix_later.
  - intros isDev pv fuel o flags items Hnd Hdesc.
    destruct (printItems_identifier_nodes isDev pv (print isDev pv fuel)
                (length (identifier_nodes items)) 0 (sn_n name) items Hk 0 []
                initial_compile_state Hnd Hdesc)
      as (st' & Hrun & _).
    { rewrite Forall_forall. intros item _. apply lookup_empty. }
    exists st'. cbn [print]. unfold bind at 1. rewrite Hrun. reflexivity.
  - intros [] fuel; reflexivity.
Qed.

(** The token described as user_rows, met first in a compile: its mangled
    description is no inherited key, and the alias is generated and put
    on record. *)
Lemma new_alias_numbering_witness :
  exists st',
    makeIdentifierForSymbol (getSymbolAndName user_rows) initial_compile_state
    = (Ok "__user_rows__", st')
    /\ symbolToIdentifier st' !! user_rows = Some "__user_rows__".
Proof.
  destruct (new_alias_numbering (getSymbolAndName user_rows) initial_compile_state)
    as [(st' & Hrun & Hrec & _) _].
  - unfold inherited_key. vm_compute. intros H.
    repeat (apply elem_of_cons in H as [H|H]; [discriminate H|]).
    now apply elem_of_nil in H.
  - exists st'. split; [exact Hrun | exact Hrec].
Defined.

(* ================================================================== *)
(** * value *)
(* ================================================================== *)

(** C2, as stated, fails: [value] applied to a plain object (here the
    object without properties, which is not a scalar) raises nothing and
    returns a Value node that holds the object. *)
Lemma value_accepts_plain_object :
  is_scalar (JObject 9 []) = false
  /\ value (JObject 9 []) loaded_module_state
     = (Ok (VALUE 4 (JObject 9 [])),
        mkModuleState 5 (CACHE_RAW_NODES loaded_module_state)
                      (CACHE_SIMPLE_FRAGMENTS loaded_module_state)).
Proof. split; reflexivity. Qed.

(** C2, amended: [value] checks nothing at run time.  For every input,
    scalar or not, it returns a new Value node that holds the input
    unchanged, and it never raises; what is not a scalar is kept out by
    the static type [SQLRawValue] alone. *)
Theorem value_never_fails (val : JsVal) (st : ModuleState) :
  value val st
  = (Ok (VALUE (next_oid st) val),
     mkModuleState (next_oid st + 1) (CACHE_RAW_NODES st) (CACHE_SIMPLE_FRAGMENTS st)).
Proof. reflexivity. Qed.

(* ================================================================== *)
(** * The limit on the number of values *)
(* ================================================================== *)

Lemma array_set_at_end (arr : list JsVal) (v : JsVal) :
  array_set arr (length arr) v = arr ++ [v].
Proof.
  unfold array_set. rewrite decide_False by lia.
  now rewrite Nat.sub_diag.
Qed.

(** What the VALUE case of [print] does, in a state in step. *)
Lemma value_step isDev pv rec itemCount indent itemIndex o value frags st :
  values_in_step st ->
  printItem isDev pv rec itemCount indent itemIndex (VALUE o value) frags st
  = if (valueCount st <? 65535)%N
    then (Ok (frags ++ [placeholder_text (valueCount st + 1)]), with_value value st)
    else (Throw TooManyPlaceholders, over_limit st).
Proof.
  intros [Hle Hlen]. cbn [printItem].
  cbv beta iota zeta delta [bind get modify throw ret]. cbn [valueCount values].
  destruct (N.ltb_spec (valueCount st) 65535) as [Hlt|Hge].
  - rewrite (proj2 (N.ltb_ge _ _)) by lia.
    unfold with_value, placeholder_text. do 2 f_equal.
    cbn [values valueCount].
    replace (N.to_nat (valueCount st + 1 - 1)) with (length (values st)) by lia.
    now rewrite array_set_at_end.
  - rewrite (proj2 (N.ltb_lt _ _)) by lia. reflexivity.
Qed.

Lemma counts_values_refl st : counts_values st None st.
Proof. intros H. split; [reflexivity|]. split; [lia | exact H]. Qed.

Lemma counts_values_trans st st1 st2 oe :
  counts_values st None st1 -> counts_values st1 oe st2 -> counts_values st oe st2.
Proof.
  intros H1 H2 Hin. destruct (H1 Hin) as (Hp1 & Hc1 & Hin1).
  destruct (H2 Hin1) as (Hp2 & Hc2 & Hend).
  split; [etrans; eauto|]. split; [lia | exact Hend].
Qed.

Lemma counts_values_frame st oe st' :
  values st' = values st -> valueCount st' = valueCount st ->
  oe <> Some TooManyPlaceholders ->
  counts_values st oe st'.
Proof.
  unfold counts_values, values_in_step.
  intros Hv Hc Hoe [Hle Hlen]. rewrite Hv, Hc.
  split; [reflexivity|]. split; [lia|].
  destruct oe as [[]|]; try (split; assumption). congruence.
Qed.

Lemma mapNames_frame (names : list Name) :
  forall mapped st r st',
    mapNames names mapped st = (r, st') ->
    values st' = values st /\ valueCount st' = valueCount st
    /\ outcome r = None.
Proof.
  induction names as [|[str|name] rest IH]; intros mapped st r st' Hrun.
  - injection Hrun as <- <-. auto.
  - cbn [mapNames] in Hrun. eapply IH; eauto.
  - cbn [mapNames] in Hrun. cbv beta iota zeta delta [bind get] in Hrun.
    destruct (truthy_name (symbolToIdentifier st !! sn_s name)).
    + cbv beta iota delta [ret] in Hrun. eapply IH; eauto.
    + destruct (makeIdentifierForSymbol_run name st) as (number & dc & Hmk).
      rewrite Hmk in Hrun. apply IH in Hrun. exact Hrun.
Qed.

Lemma symbol_alias_frame isDev pv rec itemCount indent itemIndex o a b frags st r st' :
  printItem isDev pv rec itemCount indent itemIndex (SYMBOL_ALIAS o a b) frags st = (r, st') ->
  values st' = values st /\ valueCount st' = valueCount st
  /\ outcome r <> Some TooManyPlaceholders.
Proof.
  cbn [printItem]. cbv beta iota zeta delta [bind get throw].
  destruct (truthy_name _ && truthy_name _ && _).
  - intros [= <- <-]. repeat split; discriminate.
  - destruct (truthy_name (symbolToIdentifier st !! sn_s a)).
    + intros [= <- <-]. repeat split; discriminate.
    + destruct (truthy_name (symbolToIdentifier st !! sn_s b)).
      * intros [= <- <-]. repeat split; discriminate.
      * destruct (makeIdentifierForSymbol_run a st) as (number & dc & Hmk).
        rewrite Hmk. intros [= <- <-]. repeat split; discriminate.
Qed.

(** The walk keeps the values array in step with the counter, overwrites
    nothing, and ends with the too-many-placeholders error exactly when
    the counter goes past the limit. *)
Lemma print_counts_values isDev pv fuel sql indent st r st' :
  print isDev pv fuel sql indent st = (r, st') ->
  counts_values st (outcome r) st'.
Proof.
  intros Hrun.
  refine (print_rule isDev pv (fun _ => True) counts_values _ _ _ _ _ _ _ _ _ _ _
                     fuel sql indent st r st' I Hrun); auto.
  - intros. rewrite Forall_forall. auto.
  - apply counts_values_refl.
  - apply counts_values_trans.
  - intros st0 e He _. apply counts_values_frame; congruence.
  - intros o names st0 r0 st0' _ H0. apply mapNames_frame in H0 as (Hv & Hc & Ho).
    apply counts_values_frame; congruence.
  - intros rec itemCount indent0 itemIndex o value frags st0 r0 st0' H0 Hin.
    rewrite value_step in H0 by exact Hin. destruct Hin as [Hle Hlen].
    destruct (N.ltb_spec (valueCount st0) 65535) as [Hlt|Hge];
      injection H0 as <- <-; unfold values_in_step, with_value, over_limit;
      cbn [outcome values valueCount].
    + split; [now apply prefix_app_r|]. split; [lia|].
      split; [lia | rewrite length_app; cbn; lia].
    + split; [reflexivity|]. split; [lia|]. split; lia.
  - intros rec itemCount indent0 itemIndex o a b frags st0 r0 st0' _ H0.
    apply symbol_alias_frame in H0 as (Hv & Hc & Ho).
    apply counts_values_frame; congruence.
Qed.

Lemma values_in_step_initial : values_in_step initial_compile_state.
Proof. split; [cbn; lia | reflexivity]. Qed.

(** A run of Value nodes that stays within the limit. *)
Lemma printItems_value_nodes isDev pv rec itemCount indent (items : list (oid * JsVal)) :
  forall itemIndex frags st,
    values_in_step st ->
    (valueCount st + N.of_nat (length items) <= 65535)%N ->
    printItems isDev pv rec itemCount indent (value_nodes items) itemIndex frags st
    = (Ok (frags ++ numbered_placeholders (valueCount st + 1) (length items)),
       mkCompileState (values st ++ map snd items)
                      (valueCount st + N.of_nat (length items))
                      (symbolToIdentifier st) (descCounter st)).
Proof.
  induction items as [|[o v] items IH]; intros itemIndex frags st Hin Hle.
  - cbn. rewrite !app_nil_r, N.add_0_r. now destruct st.
  - cbn [value_nodes map fst snd printItems length] in *.
    unfold bind at 1. rewrite value_step by exact Hin.
    rewrite (proj2 (N.ltb_lt _ _)) by lia.
    change (map (fun item => VALUE (fst item) (snd item)) items) with (value_nodes items).
    rewrite IH.
    + unfold with_value. cbn [values valueCount symbolToIdentifier descCounter
                                numbered_placeholders].
      rewrite <- !app_assoc. cbn [app].
      replace (valueCount st + 1 + N.of_nat (length items))%N
        with (valueCount st + N.of_nat (S (length items)))%N by lia.
      reflexivity.
    + destruct Hin as [Hc Hl]. unfold with_value. split; cbn [values valueCount].
      * lia.
      * rewrite length_app. cbn. lia.
    + unfold with_value. cbn [valueCount]. lia.
Qed.

(** A run of Value nodes that goes past the limit. *)
Lemma printItems_value_nodes_over isDev pv rec itemCount indent (items : list (oid * JsVal)) :
  forall itemIndex frags st,
    values_in_step st ->
    (65535 < valueCount st + N.of_nat (length items))%N ->
    exists st',
      printItems isDev pv rec itemCount indent (value_nodes items) itemIndex frags st
      = (Throw TooManyPlaceholders, st')
      /\ valueCount st' = 65536%N.
Proof.
  induction items as [|[o v] items IH]; intros itemIndex frags st Hin Hlt.
  - destruct Hin as [Hc _]. cbn in Hlt. lia.
  - cbn [value_nodes map fst snd printItems length] in *.
    unfold bind at 1. rewrite value_step by exact Hin.
    destruct (N.ltb_spec (valueCount st) 65535) as [Hlt'|Hge].
    + change (map (fun item => VALUE (fst item) (snd item)) items) with (value_nodes items).
      apply IH.
      * destruct Hin as [Hc Hl]. unfold with_value. split; cbn [values valueCount].
        -- lia.
        -- rewrite length_app. cbn. lia.
      * unfold with_value. cbn [valueCount]. lia.
    + eexists. split; [reflexivity|]. destruct Hin as [Hc _].
      unfold over_limit. cbn [valueCount]. lia.
Qed.

Lemma str_concat_all (p : ascii -> bool) (l : list string) :
  Forall (fun s => str_all p s = true) l -> str_all p (str_concat l) = true.
Proof.
  induction 1 as [|s l Hs Hl IH]; [reflexivity|].
  cbn [str_concat]. rewrite str_all_append, Hs, IH. reflexivity.
Qed.

Lemma numbered_placeholders_no_newline (count : nat) :
  forall first,
    Forall (fun s => str_all not_newline s = true) (numbered_placeholders first count).
Proof.
  induction count as [|count IH]; intros first; constructor; [|apply IH].
  unfold placeholder_text. cbn [str_all].
  now rewrite (str_all_impl _ _ _ digit_not_newline (dec_digits first)).
Qed.

(** A Query of Value nodes and nothing else. *)
Lemma compile_value_nodes isDev pv fuel o flags (items : list (oid * JsVal)) :
  compile isDev pv (S fuel) (QUERY o (value_nodes items) flags)
  = if (N.of_nat (length items) <=? 65535)%N
    then Ok (str_concat (numbered_placeholders 1 (length items)), map snd items)
    else Throw TooManyPlaceholders.
Proof.
  unfold compile. cbn [print]. unfold bind at 1.
  destruct (N.leb_spec (N.of_nat (length items)) 65535) as [Hle|Hgt].
  - rewrite printItems_value_nodes by (try apply values_in_step_initial; cbn; lia).
    unfold ret. cbn [values initial_compile_state valueCount app N.add].
    destruct isDev; [|reflexivity].
    rewrite collapse_blank_lines_no_newline; [reflexivity|].
    apply str_concat_all, numbered_placeholders_no_newline.
  - destruct (printItems_value_nodes_over isDev pv (print isDev pv fuel)
                (length (value_nodes items)) 0 items 0 [] initial_compile_state)
      as (st' & Hrun & _); [apply values_in_step_initial | cbn; lia |].
    now rewrite Hrun.
Qed.

(** C3, as stated, fails: a Placeholder without fallback, compiled without
    a value for it, meets no Value node at all, and yet [compile] does not
    succeed, whatever the depth allowed; the error is the one of the
    missing placeholder. *)
Lemma compile_fails_without_values :
  (forall isDev fuel,
      compile isDev None (S fuel) (PLACEHOLDER 0 (mkSymbol 0 None) None)
      = Throw MissingPlaceholder)
  /\ (forall isDev,
         compile isDev None 0 (PLACEHOLDER 0 (mkSymbol 0 None) None)
         = Throw StackExhausted)
  /\ (forall isDev fuel,
         valueCount (snd (print isDev None fuel (PLACEHOLDER 0 (mkSymbol 0 None) None)
                                0 initial_compile_state)) = 0%N).
Proof.
  split; [|split].
  - intros isDev fuel. reflexivity.
  - intros isDev. reflexivity.
  - intros isDev [|fuel]; reflexivity.
Qed.

(** C3, amended: the walk of [compile] ends with the
    too-many-placeholders error exactly when its counter of Value nodes
    goes past 65535, that is when it comes to a 65536th Value node before
    anything else fails.  While the counter is within the limit, the k-th
    Value node met is rendered as the dollar sign followed by [k], and its
    value is put at position k-1 of the values array, which is never
    overwritten afterwards.  A walk that meets at most 65535 Value nodes
    never fails with this error (it can still fail with another one: a
    placeholder without value, conflicting aliases, an Indent node outside
    development mode); in particular a Query of [n] Value nodes compiles
    to the placeholders 1 to [n] with the values in order when [n] is at
    most 65535, and fails with the too-many-placeholders error otherwise. *)
Theorem value_cap :
  (forall isDev pv fuel sql r st',
      print isDev pv fuel sql 0 initial_compile_state = (r, st') ->
      (r = Throw TooManyPlaceholders <-> (65535 < valueCount st')%N)
      /\ (compile isDev pv fuel sql = Throw TooManyPlaceholders
          <-> (65535 < valueCount st')%N)
      /\ ((valueCount st' <= 65535)%N ->
          length (values st') = N.to_nat (valueCount st')))
  /\ (forall isDev pv rec itemCount indent itemIndex o value frags st,
         values_in_step st ->
         printItem isDev pv rec itemCount indent itemIndex (VALUE o value) frags st
         = if (valueCount st <? 65535)%N
           then (Ok (frags ++ [placeholder_text (valueCount st + 1)]), with_value value st)
           else (Throw TooManyPlaceholders, over_limit st))
  /\ (forall value st,
         values_in_step st ->
         values (with_value value st) !! N.to_nat (valueCount (with_value value st) - 1)
         = Some value)
  /\ (forall isDev pv fuel sql indent st r st',
         values_in_step st ->
         print isDev pv fuel sql indent st = (r, st') ->
         values st `prefix_of` values st')
  /\ (forall isDev pv fuel o flags items,
         compile isDev pv (S fuel) (QUERY o (value_nodes items) flags)
         = if (N.of_nat (length items) <=? 65535)%N
           then Ok (str_concat (numbered_placeholders 1 (length items)), map snd items)
           else Throw TooManyPlaceholders).
Proof.
  assert (Hwalk : forall isDev pv fuel sql r st',
             print isDev pv fuel sql 0 initial_compile_state = (r, st') ->
             (r = Throw TooManyPlaceholders <-> (65535 < valueCount st')%N)
             /\ ((valueCount st' <= 65535)%N ->
                 length (values st') = N.to_nat (valueCount st'))).
  { intros isDev pv fuel sql r st' Hrun.
    destruct (print_counts_values _ _ _ _ _ _ _ _ Hrun values_in_step_initial)
      as (_ & _ & Hend).
    destruct r as [text|e]; cbn [outcome] in Hend.
    - destruct Hend as [Hc Hl]. split; [split; [discriminate | lia] | auto].
    - destruct (decide (e = TooManyPlaceholders)) as [->|He].
      + destruct Hend as [Hc Hl]. split; [split; [lia | reflexivity] | lia].
      + assert (Hin : values_in_step st') by (destruct e; try exact Hend; congruence).
        destruct Hin as [Hc Hl]. split; [split; [congruence | lia] | auto]. }
  split; [|split; [|split; [|split]]].
  - intros isDev pv fuel sql r st' Hrun.
    destruct (Hwalk _ _ _ _ _ _ Hrun) as [Hiff Hlen].
    split; [exact Hiff|]. split; [|exact Hlen].
    rewrite <- Hiff. unfold compile. rewrite Hrun.
    destruct r; split; congruence.
  - intros. now apply value_step.
  - intros value st [Hc Hl]. unfold with_value. cbn [values valueCount].
    replace (N.to_nat (valueCount st + 1 - 1)) with (length (values st) + 0) by lia.
    rewrite lookup_app_r by lia. now rewrite Nat.add_0_r, Nat.sub_diag.
  - intros isDev pv fuel sql indent st r st' Hin Hrun.
    now destruct (print_counts_values _ _ _ _ _ _ _ _ Hrun Hin) as (Hp & _).
  - intros. apply compile_value_nodes.
Qed.

(* ================================================================== *)
(** * The depth of the calls of print *)
(* ================================================================== *)

Lemma print_unfold isDev pv fuel sql indent :
  print isDev pv (S fuel) sql indent
  = bind (printItems isDev pv (print isDev pv fuel)
            (length match sql with QUERY _ nodes _ => nodes | _ => [sql] end) indent
            match sql with QUERY _ nodes _ => nodes | _ => [sql] end 0 [])
         (fun sqlFragments => ret (str_concat sqlFragments)).
Proof. reflexivity. Qed.

Lemma symbol_alias_outcome isDev pv rec itemCount indent itemIndex o a b frags st r st' :
  printItem isDev pv rec itemCount indent itemIndex (SYMBOL_ALIAS o a b) frags st = (r, st') ->
  outcome r = None \/ outcome r = Some ConflictingSymbolAlias.
Proof.
  cbn [printItem]. cbv beta iota zeta delta [bind get throw].
  destruct (truthy_name _ && truthy_name _ && _).
  - intros [= <- <-]. now right.
  - destruct (truthy_name (symbolToIdentifier st !! sn_s a)).
    + intros [= <- <-]. now left.
    + destruct (truthy_name (symbolToIdentifier st !! sn_s b)).
      * intros [= <- <-]. now left.
      * destruct (makeIdentifierForSymbol_run a st) as (number & dc & Hmk).
        rewrite Hmk. intros [= <- <-]. now left.
Qed.

(** The walk is exhausted at an item only when a nested call is. *)
Lemma printItem_exhausted isDev pv rec itemCount indent itemIndex item frags st r st' :
  printItem isDev pv rec itemCount indent itemIndex item frags st = (r, st') ->
  outcome r = Some StackExhausted ->
  exists sql indent' st0 r0 st0',
    nested_call pv item sql
    /\ rec sql indent' st0 = (r0, st0')
    /\ outcome r0 = Some StackExhausted.
Proof.
  destruct item as [o text|o names|o value|o content|o content force|o a b
                    |o symbol fallback|o nodes flags]; cbn [printItem nested_call].
  - destruct (str_nonempty text); [|intros [= <- <-]; discriminate].
    unfold bind, ret, throw.
    destruct (isDev && _ && _); [|intros [= <- <-]; discriminate].
    unfold trim_before_semicolon.
    destruct (last frags); [destruct (ends_with_newline _)|];
      intros [= <- <-]; discriminate.
  - unfold bind. destruct (mapNames names [] st) as [[m|e] st1] eqn:Hm.
    + intros [= <- <-]; discriminate.
    + apply mapNames_frame in Hm as (_ & _ & Ho). discriminate.
  - cbv beta iota zeta delta [bind get modify throw ret].
    destruct (_ <? _)%N; intros [= <- <-]; discriminate.
  - destruct isDev; [|intros [= <- <-]; discriminate].
    unfold bind. destruct (rec content (indent + 1) st) as [[x|e] st1] eqn:Hc.
    + intros [= <- <-]; discriminate.
    + intros [= <- <-] He. eexists _, _, _, _, _. split; [reflexivity|]. eauto.
  - unfold bind. destruct (rec content indent st) as [[x|e] st1] eqn:Hc.
    + destruct (force || negb (isParensSafe x)); intros [= <- <-]; discriminate.
    + intros [= <- <-] He. eexists _, _, _, _, _. split; [reflexivity|]. eauto.
  - intros Hrun He.
    change (printItem isDev pv rec itemCount indent itemIndex (SYMBOL_ALIAS o a b) frags st
            = (r, st')) in Hrun.
    apply symbol_alias_outcome in Hrun as [H|H]; rewrite H in He; discriminate.
  - destruct (pv ≫= (fun m => m !! symbol)) as [v|].
    + unfold bind. destruct (rec v indent st) as [[x|e] st1] eqn:Hc.
      * intros [= <- <-]; discriminate.
      * intros [= <- <-] He. eexists _, _, _, _, _. split; [reflexivity|]. eauto.
    + destruct fallback as [fb|]; [|intros [= <- <-]; discriminate].
      unfold bind. destruct (rec fb indent st) as [[x|e] st1] eqn:Hc.
      * intros [= <- <-]; discriminate.
      * intros [= <- <-] He. eexists _, _, _, _, _. split; [reflexivity|]. eauto.
  - intros [= <- <-]; discriminate.
Qed.

Lemma printItems_exhausted isDev pv rec itemCount indent (items : list SQL) :
  forall itemIndex frags st r st',
    printItems isDev pv rec itemCount indent items itemIndex frags st = (r, st') ->
    outcome r = Some StackExhausted ->
    exists item sql indent' st0 r0 st0',
      item ∈ items
      /\ nested_call pv item sql
      /\ rec sql indent' st0 = (r0, st0')
      /\ outcome r0 = Some StackExhausted.
Proof.
  induction items as [|item rest IH]; intros itemIndex frags st r st'.
  - intros [= <- <-]; discriminate.
  - cbn [printItems]. unfold bind.
    destruct (printItem isDev pv rec itemCount indent itemIndex item frags st)
      as [[x|e] st1] eqn:Hitem.
    + intros Hrun He.
      destruct (IH _ _ _ _ _ Hrun He) as (it & sql & i & s0 & r0 & s0' & Hin & H).
      exists it, sql, i, s0, r0, s0'. split; [now right | exact H].
    + intros [= <- <-] He.
      destruct (printItem_exhausted _ _ _ _ _ _ _ _ _ _ _ Hitem He)
        as (sql & i & s0 & r0 & s0' & H).
      exists item, sql, i, s0, r0, s0'. split; [left | exact H].
Qed.

Lemma height_positive (sql : SQL) : 1 <= height sql.
Proof. destruct sql as [| | | | | |? ? []|]; cbn [height]; lia. Qed.

Lemma height_nested (item sql : SQL) :
  nested_call None item sql -> S (height sql) <= height item.
Proof.
  destruct item as [| | |o c|o c f| |o s [fb|]|]; cbn [nested_call height];
    try contradiction; try discriminate.
  - now intros ->.
  - now intros ->.
  - now intros [= ->].
Qed.

Lemma height_item (o : oid) (nodes : list SQL) (flags : N) (item : SQL) :
  item ∈ nodes -> S (height item) <= height (QUERY o nodes flags).
Proof.
  cbn [height]. induction nodes as [|n rest IH]; intros Hin.
  - now apply elem_of_nil in Hin.
  - cbn [foldr]. apply elem_of_cons in Hin as [->|Hin]; [lia|].
    specialize (IH Hin). lia.
Qed.


(* ================================================================== *)
(** * Parens and the parens-safety test *)
(* ================================================================== *)




(* ================================================================== *)
(** * literal *)
(* ================================================================== *)

(** A Raw node whose text has no newline and is not empty compiles to its
    text, in either mode. *)
Lemma compile_raw_line isDev pv fuel o (text : string) :
  str_nonempty text = true ->
  text <> ";" ->
  str_all not_newline text = true ->
  compile isDev pv (S fuel) (RAW o text) = Ok (text, []).
Proof.
  intros Hne Hsemi Hnl. unfold compile.
  rewrite print_single_node by reflexivity.
  cbn [printItem]. rewrite Hne.
  rewrite (bool_decide_eq_false_2 (text = ";") Hsemi), andb_false_r.
  unfold bind, ret. change (pad_of 0) with "". rewrite indent_newlines_no_pad.
  cbn [app]. rewrite str_concat_singleton.
  destruct isDev; [|reflexivity].
  now rewrite collapse_blank_lines_no_newline.
Qed.

Lemma compile_value isDev pv fuel o (v : JsVal) :
  compile isDev pv (S fuel) (VALUE o v) = Ok ("$1", [v]).
Proof. destruct isDev; reflexivity. Qed.

(** C5: [literal] inlines what is simple and defers the rest to [value].
    The two booleans and null give the constant nodes, which compile to
    the three keywords without values.  A string all of whose characters
    are in the class of [literal] gives a Raw node that compiles to the
    string between single quotes, without values; any other string gives
    a Value node that compiles to the first placeholder with the string
    as the only value.  The cache of Raw nodes is assumed sound, as it is
    when the module is loaded and after every call of a constructor. *)
Theorem literal_inlines_or_defers (st : ModuleState) :
  raw_cache_ok st ->
  (literal (JBool true) st = (Ok trueNode, st)
   /\ literal (JBool false) st = (Ok falseNode, st)
   /\ literal JNull st = (Ok nullNode, st))
  /\ (forall isDev pv fuel,
         compile isDev pv (S fuel) trueNode = Ok ("TRUE", [])
         /\ compile isDev pv (S fuel) falseNode = Ok ("FALSE", [])
         /\ compile isDev pv (S fuel) nullNode = Ok ("NULL", []))
  /\ (forall str, re_inline_safe str = true ->
        exists o st',
          literal (JString str) st = (Ok (RAW o (quote_string str)), st')
          /\ raw_cache_ok st'
          /\ forall isDev pv fuel,
               compile isDev pv (S fuel) (RAW o (quote_string str))
               = Ok (quote_string str, []))
  /\ (forall str, re_inline_safe str = false ->
        exists o st',
          literal (JString str) st = (Ok (VALUE o (JString str)), st')
          /\ raw_cache_ok st'
          /\ forall isDev pv fuel,
               compile isDev pv (S fuel) (VALUE o (JString str))
               = Ok ("$1", [JString str]))
  /\ (re_inline_safe "hello" = true /\ quote_string "hello" = "'hello'"
      /\ re_inline_safe "it's" = false).
Proof.
  intros Hok. repeat split.
  - destruct isDev; reflexivity.
  - destruct isDev; reflexivity.
  - destruct isDev; reflexivity.
  - intros str Hs. cbn [literal]. rewrite Hs.
    destruct (makeRawNode_ok (quote_string str) st Hok) as (o & st' & Hrun & Hok').
    exists o, st'. repeat split; [exact Hrun | exact Hok' |].
    intros isDev pv fuel. apply compile_raw_line.
    + reflexivity.
    + discriminate.
    + now apply quote_string_no_newline.
  - intros str Hs. cbn [literal]. rewrite Hs.
    eexists _, _. repeat split; [exact Hok|].
    intros. apply compile_value.
Qed.

(** In the module as loaded, whose cache of Raw nodes is sound: the
    boolean true gives the constant node, and a simple string is inlined
    between single quotes. *)
Lemma literal_inlines_or_defers_witness :
  literal (JBool true) loaded_module_state = (Ok trueNode, loaded_module_state)
  /\ exists o st',
       literal (JString "hello") loaded_module_state = (Ok (RAW o "'hello'"), st')
       /\ compile false None 1 (RAW o "'hello'") = Ok ("'hello'", []).
Proof.
  destruct (literal_inlines_or_defers loaded_module_state raw_cache_ok_loaded)
    as ((Htrue & _) & _ & Hsafe & _).
  split; [exact Htrue|].
  destruct (Hsafe "hello" eq_refl) as (o & st' & Hrun & _ & Hc).
  exists o, st'. split; [exact Hrun | apply Hc].
Defined.

(* ================================================================== *)
(** * replaceSymbol and structural sharing *)
(* ================================================================== *)

Lemma replaceSymbol_parens_of_raw needle replacement o o' text force st :
  replaceSymbol needle replacement (PARENS o (RAW o' text) force) st
  = (Ok (PARENS (next_oid st) (RAW o' text) force),
     mkModuleState (next_oid st + 1) (CACHE_RAW_NODES st) (CACHE_SIMPLE_FRAGMENTS st)).
Proof. reflexivity. Qed.

Lemma replaceSymbol_indent_of_raw needle replacement o o' text st :
  replaceSymbol needle replacement (INDENT o (RAW o' text)) st
  = (Ok (INDENT (next_oid st) (RAW o' text)),
     mkModuleState (next_oid st + 1) (CACHE_RAW_NODES st) (CACHE_SIMPLE_FRAGMENTS st)).
Proof. reflexivity. Qed.

(** C6: the code at the failing input.  The fragment is the Parens node
    that [parens] makes around a Raw node; no symbol occurs in it.
    [replaceSymbol] returns a Parens node allocated anew, not the
    fragment it was given, and a Query that holds the fragment is
    rebuilt as well.  The same holds of every Parens or Indent node around
    a Raw node, in every state. *)
Theorem replaceSymbol_rebuilds_parens :
  (let* inner := makeRawNode "a = b" in parens inner None) loaded_module_state
  = (Ok (PARENS 5 (RAW 4 "a = b") false),
     mkModuleState 6 (lru_set "a = b" (RAW 4 "a = b") (CACHE_RAW_NODES loaded_module_state)) ∅)
  /\ fst (replaceSymbol (mkSymbol 1 (Some "a")) (mkSymbol 2 (Some "b"))
            (PARENS 5 (RAW 4 "a = b") false)
            (mkModuleState 6 (lru_set "a = b" (RAW 4 "a = b")
                                (CACHE_RAW_NODES loaded_module_state)) ∅))
     = Ok (PARENS 6 (RAW 4 "a = b") false)
  /\ same_object (PARENS 6 (RAW 4 "a = b") false) (PARENS 5 (RAW 4 "a = b") false) = false
  /\ fst (replaceSymbol (mkSymbol 1 (Some "a")) (mkSymbol 2 (Some "b"))
            (QUERY 7 [RAW 3 ""; PARENS 5 (RAW 4 "a = b") false] 0)
            (mkModuleState 8 (lru_set "a = b" (RAW 4 "a = b")
                                (CACHE_RAW_NODES loaded_module_state)) ∅))
     = Ok (QUERY 9 [RAW 3 ""; PARENS 8 (RAW 4 "a = b") false] 0)
  /\ (forall needle replacement o o' text force st,
         replaceSymbol needle replacement (PARENS o (RAW o' text) force) st
         = (Ok (PARENS (next_oid st) (RAW o' text) force),
            mkModuleState (next_oid st + 1) (CACHE_RAW_NODES st) (CACHE_SIMPLE_FRAGMENTS st)))
  /\ (forall needle replacement o o' text st,
         replaceSymbol needle replacement (INDENT o (RAW o' text)) st
         = (Ok (INDENT (next_oid st) (RAW o' text)),
            mkModuleState (next_oid st + 1) (CACHE_RAW_NODES st) (CACHE_SIMPLE_FRAGMENTS st))).
Proof. repeat split. Qed.

(** ** Where sharing is kept *)

Lemma replaceNames_without needle replacement (names : list Name) :
  (forall sn, NameSymbol sn ∈ names -> sn_s sn <> needle) ->
  replaceNames needle replacement names = (false, names).
Proof.
  induction names as [|[str|sn] rest IH]; intros Hout; [reflexivity| |].
  - cbn [replaceNames]. rewrite IH; [reflexivity|].
    intros sn Hin. apply Hout. now right.
  - cbn [replaceNames]. rewrite IH by (intros x Hin; apply Hout; now right).
    rewrite bool_decide_eq_false_2; [reflexivity|]. apply Hout. left.
Qed.

Lemma replaceSymbolInNode_leaf needle replacement (node : SQL) (st : ModuleState) :
  leaf_without needle node ->
  replaceSymbolInNode needle replacement node st = (Ok node, st).
Proof.
  destruct node as [o text|o names|o value|o content|o content force|o a b
                    |o symbol fallback|o nodes flags];
    cbn [leaf_without replaceSymbolInNode]; intros Hout; try contradiction.
  - reflexivity.
  - now rewrite replaceNames_without.
  - assert (Hv : strict_equal value (JSymbol needle) = false).
    { destruct value; try reflexivity. cbn. apply bool_decide_eq_false_2. congruence. }
    now rewrite Hv.
  - destruct Hout as [Ha Hb].
    rewrite !(bool_decide_eq_false_2 (_ = needle)) by assumption.
    rewrite !bool_decide_eq_true_2 by reflexivity. reflexivity.
  - rewrite bool_decide_eq_false_2 by assumption. reflexivity.
Qed.

Lemma replaceNodes_leaves needle replacement (nodes : list SQL) (st : ModuleState) :
  Forall (leaf_without needle) nodes ->
  replaceNodes (replaceSymbolInNode needle replacement) nodes st = (Ok (false, nodes), st).
Proof.
  induction 1 as [|node rest Hnode Hrest IH]; [reflexivity|].
  cbn [replaceNodes]. unfold bind at 1.
  rewrite replaceSymbolInNode_leaf by exact Hnode.
  unfold bind at 1. rewrite IH. unfold ret.
  unfold same_object. now rewrite N.eqb_refl.
Qed.

(* ================================================================== *)
(** * SymbolAlias during compile *)
(* ================================================================== *)

Section SymbolAliasStep.

Variable isDev : bool.
Variable pv : option (gmap Symbol SQL).
Variable rec : SQL -> nat -> M CompileState string.
Variables itemCount indent itemIndex : nat.
Variable o : oid.
Variables a b : SymbolAndName.
Variable frags : list string.
Variable st : CompileState.
Hypothesis Hne : names_nonempty st.

Let run := printItem isDev pv rec itemCount indent itemIndex (SYMBOL_ALIAS o a b) frags st.

Lemma symbol_alias_conflict x y :
  symbolToIdentifier st !! sn_s a = Some x ->
  symbolToIdentifier st !! sn_s b = Some y ->
  x <> y ->
  run = (Throw ConflictingSymbolAlias, st).
Proof.
  intros Ha Hb Hxy. subst run. cbn [printItem].
  cbv beta iota zeta delta [bind get].
  rewrite (truthy_name_Some st _ x Hne Ha), (truthy_name_Some st _ y Hne Hb).
  rewrite Ha, Hb, bool_decide_eq_false_2 by congruence. reflexivity.
Qed.

Lemma symbol_alias_first_known x :
  symbolToIdentifier st !! sn_s a = Some x ->
  symbolToIdentifier st !! sn_s b = None \/ symbolToIdentifier st !! sn_s b = Some x ->
  run = (Ok frags, with_alias (sn_s b) x st).
Proof.
  intros Ha Hb. subst run. cbn [printItem].
  cbv beta iota zeta delta [bind get].
  rewrite (truthy_name_Some st _ x Hne Ha), Ha.
  destruct Hb as [Hb|Hb]; rewrite Hb.
  - reflexivity.
  - rewrite bool_decide_eq_true_2 by reflexivity. rewrite andb_false_r. reflexivity.
Qed.

Lemma symbol_alias_second_known y :
  symbolToIdentifier st !! sn_s a = None ->
  symbolToIdentifier st !! sn_s b = Some y ->
  run = (Ok frags, with_alias (sn_s a) y st).
Proof.
  intros Ha Hb. subst run. cbn [printItem].
  cbv beta iota zeta delta [bind get].
  rewrite (truthy_name_Some st _ y Hne Hb), Ha, Hb. reflexivity.
Qed.

Lemma symbol_alias_none_known :
  symbolToIdentifier st !! sn_s a = None ->
  symbolToIdentifier st !! sn_s b = None ->
  exists alias st1,
    makeIdentifierForSymbol a st = (Ok alias, st1)
    /\ symbolToIdentifier st1 !! sn_s a = Some alias
    /\ run = (Ok frags, with_alias (sn_s b) alias (with_alias (sn_s a) alias st1)).
Proof.
  intros Ha Hb. subst run. cbn [printItem].
  cbv beta iota zeta delta [bind get]. rewrite Ha, Hb. cbn [truthy_name andb].
  destruct (makeIdentifierForSymbol_run a st) as (number & dc & Hmk).
  rewrite Hmk. eexists _, _. split; [reflexivity|]. split.
  - cbn [symbolToIdentifier]. apply lookup_insert_eq.
  - reflexivity.
Qed.

End SymbolAliasStep.

Lemma symbol_alias_keeps_aliases isDev pv rec itemCount indent itemIndex o a b frags st r st' :
  printItem isDev pv rec itemCount indent itemIndex (SYMBOL_ALIAS o a b) frags st = (r, st') ->
  keeps_aliases st (outcome r) st'.
Proof.
  intros Hrun Hne.
  destruct (symbolToIdentifier st !! sn_s a) as [x|] eqn:Ha;
    destruct (symbolToIdentifier st !! sn_s b) as [y|] eqn:Hb.
  - destruct (decide (x = y)) as [->|Hxy].
    + rewrite (symbol_alias_first_known isDev pv rec _ _ _ o a b frags st Hne y Ha) in Hrun
        by (now right).
      injection Hrun as <- <-. apply with_alias_kept; eauto.
    + rewrite (symbol_alias_conflict isDev pv rec _ _ _ o a b frags st Hne x y Ha Hb Hxy) in Hrun.
      injection Hrun as <- <-. now apply keeps_aliases_refl.
  - rewrite (symbol_alias_first_known isDev pv rec _ _ _ o a b frags st Hne x Ha) in Hrun
      by (now left).
    injection Hrun as <- <-. apply with_alias_kept; eauto.
  - rewrite (symbol_alias_second_known isDev pv rec _ _ _ o a b frags st Hne y Ha Hb) in Hrun.
    injection Hrun as <- <-. apply with_alias_kept; eauto.
  - destruct (symbol_alias_none_known isDev pv rec itemCount indent itemIndex o a b frags st Ha Hb)
      as (alias & st1 & Hmk & Hrec1 & Heq).
    rewrite Heq in Hrun. injection Hrun as <- <-.
    destruct (makeIdentifierForSymbol_kept a st _ _ Hne Ha Hmk) as [Hne1 Hk1].
    destruct (with_alias_kept (sn_s a) alias st1 Hne1) as [Hne2 Hk2];
      [eapply Hne1; eauto | now right |].
    destruct (with_alias_kept (sn_s b) alias (with_alias (sn_s a) alias st1) Hne2)
      as [Hne3 Hk3].
    + eapply Hne1; eauto.
    + unfold with_alias. cbn [symbolToIdentifier].
      destruct (decide (sn_s a = sn_s b)) as [Heq'|Hneq].
      * right. rewrite Heq'. apply lookup_insert_eq.
      * rewrite lookup_insert_ne by exact Hneq.
        destruct (makeIdentifierForSymbol_run a st) as (number & dc & Hmk').
        rewrite Hmk' in Hmk. injection Hmk as <- <-. cbn [symbolToIdentifier].
        rewrite lookup_insert_ne by exact Hneq. now left.
    + split; [exact Hne3 | intros s z Hz; apply Hk3, Hk2, Hk1, Hz].
Qed.

Lemma value_keeps_aliases isDev pv rec itemCount indent itemIndex o value frags st r st' :
  printItem isDev pv rec itemCount indent itemIndex (VALUE o value) frags st = (r, st') ->
  keeps_aliases st (outcome r) st'.
Proof.
  cbn [printItem]. cbv beta iota zeta delta [bind get modify throw ret].
  cbn [valueCount]. intros Hrun Hne.
  destruct (65535 <? valueCount st + 1)%N; injection Hrun as <- <-;
    (split; [exact Hne | intros s x Hx; exact Hx]).
Qed.

(** Every alias on record before a walk is on record, unchanged, after
    it, however the walk ends. *)
Lemma print_keeps_aliases isDev pv fuel sql indent st r st' :
  names_nonempty st ->
  print isDev pv fuel sql indent st = (r, st') ->
  names_nonempty st' /\ aliases_kept st st'.
Proof.
  intros Hne Hrun.
  refine (print_rule isDev pv (fun _ => True) keeps_aliases _ _ _ _ _ _ _ _ _ _ _
                     fuel sql indent st r st' I Hrun Hne); auto.
  - intros. rewrite Forall_forall. auto.
  - apply keeps_aliases_refl.
  - apply keeps_aliases_trans.
  - intros st0 e _ _. apply keeps_aliases_refl.
  - intros. eapply mapNames_keeps_aliases; eauto.
  - intros. eapply value_keeps_aliases; eauto.
  - intros. eapply symbol_alias_keeps_aliases; eauto.
Qed.

(* ================================================================== *)
(** * isEquivalent on a SymbolAlias *)
(* ================================================================== *)

(** C8, as stated, fails: a SymbolAlias node compared with itself is
    found equivalent, because the test for the same object comes first. *)
Lemma symbol_alias_equivalent_to_itself :
  isEquivalent None
    (IsSQL (SYMBOL_ALIAS 7 (getSymbolAndName (mkSymbol 1 (Some "a")))
                           (getSymbolAndName (mkSymbol 2 (Some "b")))))
    (IsSQL (SYMBOL_ALIAS 7 (getSymbolAndName (mkSymbol 1 (Some "a")))
                           (getSymbolAndName (mkSymbol 2 (Some "b")))))
  = Ok true.
Proof. reflexivity. Qed.

(** C8, amended: for a SymbolAlias node [a], [isEquivalent a b] never
    raises, is true when [b] is the very same node (the test for the same
    object comes first), and is false for every other [b]: another
    fragment, be it a SymbolAlias of the same two tokens, or a bare
    symbol. *)
Theorem isEquivalent_symbol_alias
        (symbolSubstitutes : option (gmap Symbol Symbol))
        (o : oid) (a b : SymbolAndName) (other : SQLOrSymbol) :
  isEquivalent symbolSubstitutes (IsSQL (SYMBOL_ALIAS o a b)) other
  = Ok (match other with
        | IsSQL sql2 => same_object (SYMBOL_ALIAS o a b) sql2
        | IsSymbol _ => false
        end).
Proof.
  destruct other as [sql2|sy]; [|reflexivity].
  cbn [isEquivalent isEquivalent_sql].
  destruct (same_object (SYMBOL_ALIAS o a b) sql2); [reflexivity|].
  destruct sql2; reflexivity.
Qed.

(* ================================================================== *)
(** * Aliases of distinct tokens *)
(* ================================================================== *)

Lemma token_made_not_proto (sn : SymbolAndName) :
  token_made sn = true -> sn_n sn <> "__proto__".
Proof.
  unfold token_made. intros H. apply bool_decide_eq_true_1 in H. rewrite H.
  cbn [getSymbolAndName sn_n]. intros Heq.
  destruct (mangleName_mangled
              (match description (sn_s sn) with
               | Some d => or_local d
               | None => "local"
               end)) as (_ & _ & Hhead & _).
  rewrite Heq in Hhead. now apply Hhead.
Qed.

Lemma property_get_not_proto (obj : gmap string CounterValue) (key : string) :
  key <> "__proto__" ->
  property_get obj key
  = match obj !! key with
    | Some v => ReadOwn v
    | None => if bool_decide (key ∈ object_prototype_methods)
              then ReadInherited else ReadUndefined
    end.
Proof. intros Hk. unfold property_get. now rewrite bool_decide_eq_false_2. Qed.

Lemma property_set_not_proto (obj : gmap string CounterValue) (key : string) v :
  key <> "__proto__" -> property_set obj key v = <[key := v]> obj.
Proof. intros Hk. unfold property_set. now rewrite bool_decide_eq_false_2. Qed.

(** What [makeIdentifierForSymbol] does for a description other than
    [__proto__]. *)
Lemma makeIdentifierForSymbol_next (name : SymbolAndName) (st : CompileState) :
  sn_n name <> "__proto__" ->
  makeIdentifierForSymbol name st
  = (Ok (alias_for (sn_n name) (next_number (descCounter st) (sn_n name))),
     mkCompileState
       (values st) (valueCount st)
       (<[sn_s name := alias_for (sn_n name) (next_number (descCounter st) (sn_n name))]>
          (symbolToIdentifier st))
       (<[sn_n name := next_number (descCounter st) (sn_n name)]> (descCounter st))).
Proof.
  intros Hd. destruct st as [vs vc s2i dc]. destruct name as [sy d].
  cbn [sn_s sn_n descCounter symbolToIdentifier values valueCount] in *.
  unfold makeIdentifierForSymbol, next_number, bind, ret, descCounter_get,
    descCounter_set, symbolToIdentifier_set, modify.
  cbn [sn_s sn_n descCounter symbolToIdentifier values valueCount].
  rewrite (property_get_not_proto dc d Hd).
  destruct (dc !! d) as [[k|]|] eqn:Hdc; cbn [read_truthy].
  - destruct (N.eqb_spec k 0) as [->|Hk]; cbn [negb].
    + cbn [descCounter].
      rewrite !(property_set_not_proto _ d _ Hd), (property_get_not_proto _ d Hd).
      rewrite lookup_insert_eq. cbn [read_increment]. now rewrite insert_insert_eq.
    + cbn [descCounter].
      rewrite (property_get_not_proto _ d Hd), Hdc, (property_set_not_proto _ d _ Hd).
      reflexivity.
  - cbn [descCounter].
    rewrite !(property_set_not_proto _ d _ Hd), (property_get_not_proto _ d Hd).
    rewrite lookup_insert_eq. cbn [read_increment]. now rewrite insert_insert_eq.
  - case_bool_decide as Hin; cbn [read_truthy].
    + cbn [descCounter].
      rewrite (property_get_not_proto _ d Hd), Hdc, (property_set_not_proto _ d _ Hd).
      rewrite bool_decide_eq_true_2 by exact Hin. reflexivity.
    + cbn [descCounter].
      rewrite !(property_set_not_proto _ d _ Hd), (property_get_not_proto _ d Hd).
      rewrite lookup_insert_eq. cbn [read_increment]. now rewrite insert_insert_eq.
Qed.

(** The alias generated next is not among those generated before. *)
Lemma next_alias_not_issued (st : CompileState) (d : string) :
  ~ issued st (alias_for d (next_number (descCounter st) d)).
Proof.
  intros (d0 & v0 & Heq & Hcond).
  apply alias_for_inj in Heq as [<- <-].
  unfold next_number in Hcond.
  destruct (descCounter st !! d) as [[k|]|]; try contradiction.
  - destruct Hcond as [H|(j & [= <-] & Hj)]; [discriminate | lia].
  - discriminate.
Qed.

Section AfterNewAlias.

Variable st : CompileState.
Variable symbol : Symbol.
Variable d : string.


Lemma issued_after_new_alias (name : string) : issued st name -> issued (after_new_alias st symbol d) name.
Proof.
  intros (d0 & v0 & -> & Hcond). exists d0, v0. split; [reflexivity|].
  unfold after_new_alias. cbn [descCounter]. rewrite lookup_insert. case_decide as Hd; [|exact Hcond].
  subst d0. unfold next_number.
  destruct (descCounter st !! d) as [[k|]|]; try contradiction.
  - destruct Hcond as [H|(j & Hj & Hle)]; [now left | right; exists j; split; [exact Hj | lia]].
  - now left.
Qed.

Lemma new_alias_issued :
  issued (after_new_alias st symbol d) (alias_for d (next_number (descCounter st) d)).
Proof.
  exists d, (next_number (descCounter st) d). split; [reflexivity|].
  unfold after_new_alias. cbn [descCounter]. rewrite lookup_insert_eq. unfold next_number.
  destruct (descCounter st !! d) as [[k|]|].
  - right. exists (k + 1)%N. split; [reflexivity | lia].
  - right. exists 1%N. split; [reflexivity | lia].
  - case_bool_decide; [reflexivity | right; exists 1%N; split; [reflexivity | lia]].
Qed.

Lemma aliases_issued_after_new_alias :
  aliases_issued st -> aliases_issued (after_new_alias st symbol d).
Proof.
  intros Hall s x. unfold after_new_alias. cbn [symbolToIdentifier]. rewrite lookup_insert.
  case_decide as Hs.
  - intros [= <-]. apply new_alias_issued.
  - intros Hx. apply issued_after_new_alias. eapply Hall; eauto.
Qed.

Lemma aliases_distinct_after_new_alias :
  aliases_issued st ->
  symbolToIdentifier st !! symbol = None ->
  aliases_distinct st -> aliases_distinct (after_new_alias st symbol d).
Proof.
  intros Hall Hfree Hdist s1 s2 x. unfold after_new_alias. cbn [symbolToIdentifier].
  rewrite !lookup_insert. case_decide as H1; case_decide as H2.
  - congruence.
  - intros [= <-] Hx. exfalso. apply (next_alias_not_issued st d). eapply Hall; eauto.
  - intros Hx [= <-]. exfalso. apply (next_alias_not_issued st d). eapply Hall; eauto.
  - apply Hdist.
Qed.

End AfterNewAlias.

Lemma aliases_issued_nonempty (st : CompileState) : aliases_issued st -> names_nonempty st.
Proof.
  intros Hall s x Hx. destruct (Hall _ _ Hx) as (d & v & -> & _).
  apply alias_for_nonempty.
Qed.

Lemma mapNames_keeps_distinct (names : list Name) :
  forallb (fun name => match name with
                       | NameSymbol sn => token_made sn
                       | NameString _ => true
                       end) names = true ->
  forall mapped st r st',
    mapNames names mapped st = (r, st') ->
    (aliases_issued st -> aliases_issued st')
    /\ (aliases_issued st -> aliases_distinct st -> aliases_distinct st').
Proof.
  induction names as [|[str|name] rest IH]; intros Hmade mapped st r st' Hrun.
  - injection Hrun as <- <-. auto.
  - cbn [mapNames] in Hrun. cbn [forallb] in Hmade. eapply IH; eauto.
  - cbn [mapNames] in Hrun. cbn [forallb] in Hmade.
    apply andb_true_iff in Hmade as [Hname Hrest].
    cbv beta iota zeta delta [bind get] in Hrun.
    destruct (truthy_name (symbolToIdentifier st !! sn_s name)) eqn:Ht.
    + cbv beta iota delta [ret] in Hrun. eapply IH; eauto.
    + rewrite (makeIdentifierForSymbol_next name st (token_made_not_proto _ Hname)) in Hrun.
      destruct (IH Hrest _ _ _ _ Hrun) as [Hi Hd]. split.
      * intros Hall. apply Hi. now apply aliases_issued_after_new_alias.
      * intros Hall Hdist. apply Hd.
        -- now apply aliases_issued_after_new_alias.
        -- apply aliases_distinct_after_new_alias; auto.
           apply truthy_name_false; [now apply aliases_issued_nonempty | exact Ht].
Qed.

Lemma value_keeps_maps isDev pv rec itemCount indent itemIndex o value frags st r st' :
  printItem isDev pv rec itemCount indent itemIndex (VALUE o value) frags st = (r, st') ->
  symbolToIdentifier st' = symbolToIdentifier st /\ descCounter st' = descCounter st.
Proof.
  cbn [printItem]. cbv beta iota zeta delta [bind get modify throw ret].
  cbn [valueCount]. intros Hrun.
  destruct (65535 <? valueCount st + 1)%N; injection Hrun as <- <-; auto.
Qed.

Lemma same_maps_issued (st st' : CompileState) :
  symbolToIdentifier st' = symbolToIdentifier st ->
  descCounter st' = descCounter st ->
  (aliases_issued st -> aliases_issued st')
  /\ (aliases_distinct st -> aliases_distinct st').
Proof.
  unfold aliases_issued, aliases_distinct, issued. intros -> ->. auto.
Qed.

Lemma every_node_here (P : SQL -> bool) (sql : SQL) :
  every_node P sql = true -> P sql = true.
Proof. destruct sql; cbn [every_node]; rewrite andb_true_iff; now intros [H _]. Qed.

Section EveryNode.

Variable P : SQL -> bool.

Lemma every_node_indent o content :
  every_node P (INDENT o content) = true -> every_node P content = true.
Proof. cbn [every_node]. rewrite andb_true_iff. now intros [_ H]. Qed.

Lemma every_node_parens o content force :
  every_node P (PARENS o content force) = true -> every_node P content = true.
Proof. cbn [every_node]. rewrite andb_true_iff. now intros [_ H]. Qed.

Lemma every_node_query o nodes flags :
  every_node P (QUERY o nodes flags) = true ->
  Forall (fun sql => every_node P sql = true) nodes.
Proof.
  cbn [every_node]. rewrite andb_true_iff. intros [_ H].
  rewrite forallb_forall in H. rewrite Forall_forall. intros x Hx.
  apply H. now apply list_elem_of_In.
Qed.

Lemma every_node_fallback o symbol sql :
  every_node P (PLACEHOLDER o symbol (Some sql)) = true -> every_node P sql = true.
Proof. cbn [every_node]. rewrite andb_true_iff. now intros [_ H]. Qed.

End EveryNode.

Lemma keeps_distinct_same st e : keeps_distinct st (Some e) st.
Proof. intros H. exact H. Qed.

(** Without SymbolAlias nodes, the walk keeps the aliases of distinct
    tokens distinct. *)
Lemma print_keeps_distinct isDev pv fuel sql indent st r st' :
  every_node plain_node sql = true ->
  supplied_every plain_node pv ->
  print isDev pv fuel sql indent st = (r, st') ->
  aliases_issued st /\ aliases_distinct st ->
  aliases_issued st' /\ aliases_distinct st'.
Proof.
  intros Hsql Hpv Hrun.
  refine (print_rule isDev pv (fun sql => every_node plain_node sql = true) keeps_distinct
                     _ _ _ _ _ _ _ _ _ _ _ fuel sql indent st r st' Hsql Hrun).
  - apply every_node_indent.
  - apply every_node_parens.
  - apply every_node_query.
  - apply every_node_fallback.
  - exact Hpv.
  - intros st0 H. exact H.
  - intros st0 st1 st2 oe H1 H2 H. apply H2, H1, H.
  - intros st0 e _ _ H. exact H.
  - intros o names st0 r0 st0' Hnode H0 [Hi Hd].
    apply every_node_here in Hnode. unfold plain_node in Hnode.
    apply andb_true_iff in Hnode as [Hmade _]. cbn [tokens_made] in Hmade.
    destruct (mapNames_keeps_distinct names Hmade _ _ _ _ H0) as [Hi' Hd']. auto.
  - intros rec itemCount indent0 itemIndex o value frags st0 r0 st0' H0 [Hi Hd].
    apply value_keeps_maps in H0 as [Hs Hc].
    destruct (same_maps_issued st0 st0' Hs Hc). auto.
  - intros rec itemCount indent0 itemIndex o a b frags st0 r0 st0' Hnode.
    apply every_node_here in Hnode. unfold plain_node in Hnode.
    rewrite andb_false_r in Hnode. discriminate.
Qed.

Lemma with_alias_issued (symbol : Symbol) (name : string) (st : CompileState) :
  aliases_issued st -> issued st name -> aliases_issued (with_alias symbol name st).
Proof.
  intros Hall Hname s x. unfold with_alias. cbn [symbolToIdentifier].
  rewrite lookup_insert. case_decide; [intros [= <-]; exact Hname | apply Hall].
Qed.

Lemma symbol_alias_keeps_issued isDev pv rec itemCount indent itemIndex o a b frags st r st' :
  token_made a = true ->
  printItem isDev pv rec itemCount indent itemIndex (SYMBOL_ALIAS o a b) frags st = (r, st') ->
  aliases_issued st -> aliases_issued st'.
Proof.
  intros Hmade Hrun Hall.
  pose proof (aliases_issued_nonempty st Hall) as Hne.
  destruct (symbolToIdentifier st !! sn_s a) as [x|] eqn:Ha;
    destruct (symbolToIdentifier st !! sn_s b) as [y|] eqn:Hb.
  - destruct (decide (x = y)) as [->|Hxy].
    + rewrite (symbol_alias_first_known isDev pv rec _ _ _ o a b frags st Hne y Ha) in Hrun
        by (now right).
      injection Hrun as <- <-. apply with_alias_issued; eauto.
    + rewrite (symbol_alias_conflict isDev pv rec _ _ _ o a b frags st Hne x y Ha Hb Hxy) in Hrun.
      now injection Hrun as <- <-.
  - rewrite (symbol_alias_first_known isDev pv rec _ _ _ o a b frags st Hne x Ha) in Hrun
      by (now left).
    injection Hrun as <- <-. apply with_alias_issued; eauto.
  - rewrite (symbol_alias_second_known isDev pv rec _ _ _ o a b frags st Hne y Ha Hb) in Hrun.
    injection Hrun as <- <-. apply with_alias_issued; eauto.
  - destruct (symbol_alias_none_known isDev pv rec itemCount indent itemIndex o a b frags st Ha Hb)
      as (alias & st1 & Hmk & Hrec1 & Heq).
    rewrite Heq in Hrun. injection Hrun as <- <-.
    rewrite (makeIdentifierForSymbol_next a st (token_made_not_proto _ Hmade)) in Hmk.
    injection Hmk as <- <-.
    pose proof (aliases_issued_after_new_alias st (sn_s a) (sn_n a) Hall) as Hall1.
    pose proof (new_alias_issued st (sn_s a) (sn_n a)) as Hnew.
    apply with_alias_issued; [apply with_alias_issued|]; assumption.
Qed.

(** In every walk, the aliases on record are aliases that the walk has
    generated. *)
Lemma print_keeps_issued isDev pv fuel sql indent st r st' :
  every_node tokens_made sql = true ->
  supplied_every tokens_made pv ->
  print isDev pv fuel sql indent st = (r, st') ->
  aliases_issued st -> aliases_issued st'.
Proof.
  intros Hsql Hpv Hrun.
  refine (print_rule isDev pv (fun sql => every_node tokens_made sql = true) keeps_issued
                     _ _ _ _ _ _ _ _ _ _ _ fuel sql indent st r st' Hsql Hrun).
  - apply every_node_indent.
  - apply every_node_parens.
  - apply every_node_query.
  - apply every_node_fallback.
  - exact Hpv.
  - intros st0 H. exact H.
  - intros st0 st1 st2 oe H1 H2 H. apply H2, H1, H.
  - intros st0 e _ _ H. exact H.
  - intros o names st0 r0 st0' Hnode H0 Hi.
    apply every_node_here in Hnode. cbn [tokens_made] in Hnode.
    destruct (mapNames_keeps_distinct names Hnode _ _ _ _ H0) as [Hi' _]. auto.
  - intros rec itemCount indent0 itemIndex o value frags st0 r0 st0' H0 Hi.
    apply value_keeps_maps in H0 as [Hs Hc].
    destruct (same_maps_issued st0 st0' Hs Hc). auto.
  - intros rec itemCount indent0 itemIndex o a b frags st0 r0 st0' Hnode H0 Hi.
    apply every_node_here in Hnode. cbn [tokens_made] in Hnode.
    apply andb_true_iff in Hnode as [Ha _].
    eapply symbol_alias_keeps_issued; eauto.
Qed.

Lemma initial_aliases :
  aliases_issued initial_compile_state /\ aliases_distinct initial_compile_state.
Proof.
  split; intros s; intros; cbn [initial_compile_state symbolToIdentifier] in *;
    rewrite lookup_empty in *; discriminate.
Qed.

(** C9, as stated, fails: two distinct tokens joined by a SymbolAlias node
    are given the same alias. *)
Lemma aliased_tokens_share_alias :
  token_a <> token_b
  /\ compile false None 2 aliased_pair = Ok ("__u__/__u__", [])
  /\ symbolToIdentifier (snd (print false None 2 aliased_pair 0 initial_compile_state))
       !! token_a = Some "__u__"
  /\ symbolToIdentifier (snd (print false None 2 aliased_pair 0 initial_compile_state))
       !! token_b = Some "__u__".
Proof. repeat split; [discriminate | vm_compute; reflexivity ..]. Qed.

(** C9, amended: within one compile, the aliases generated for distinct
    tokens are pairwise distinct, also across descriptions; two tokens
    have the same alias only when a SymbolAlias node joined them.  When
    the walk meets no SymbolAlias node, the tokens on record have pairwise
    distinct aliases at every point of the walk, however it ends.  In
    every walk, an alias that is generated differs from every alias on
    record.  This holds because the description and the number can be
    read back from the alias: the first alias of a description ends in two
    underscores and the n-th in an underscore and [n]; and a mangled
    description has only lower-case letters, digits and underscores,
    between 1 and 50 of them, none at either end and no two in a row.
    Tokens are taken as [getSymbolAndName] makes them. *)
Theorem generated_aliases_differ :
  (forall isDev pv fuel sql indent r st',
      every_node plain_node sql = true ->
      supplied_every plain_node pv ->
      print isDev pv fuel sql indent initial_compile_state = (r, st') ->
      aliases_distinct st')
  /\ (forall isDev pv fuel sql indent r st' name,
         every_node tokens_made sql = true ->
         supplied_every tokens_made pv ->
         print isDev pv fuel sql indent initial_compile_state = (r, st') ->
         token_made name = true ->
         exists alias st'',
           makeIdentifierForSymbol name st' = (Ok alias, st'')
           /\ forall symbol, symbolToIdentifier st' !! symbol <> Some alias)
  /\ (forall d1 d2 v1 v2, alias_for d1 v1 = alias_for d2 v2 -> d1 = d2 /\ v1 = v2)
  /\ (forall symbol, mangled (sn_n (getSymbolAndName symbol)))
  /\ (alias_for "u" (CNumber 2) = "__u_2" /\ alias_for "u_2" (CNumber 1) = "__u_2__")
  /\ (forall isDev fuel,
         compile isDev None (S (S fuel)) three_tokens = Ok ("__u__/__u_2/__u_2__", [])).
Proof.
  split; [|split; [|split; [|split; [|split]]]].
  - intros isDev pv fuel sql indent r st' Hsql Hpv Hrun.
    now destruct (print_keeps_distinct _ _ _ _ _ _ _ _ Hsql Hpv Hrun initial_aliases).
  - intros isDev pv fuel sql indent r st' name Hsql Hpv Hrun Hname.
    pose proof (print_keeps_issued _ _ _ _ _ _ _ _ Hsql Hpv Hrun (proj1 initial_aliases))
      as Hall.
    eexists _, _. split.
    + apply makeIdentifierForSymbol_next. now apply token_made_not_proto.
    + intros symbol Hx. apply (next_alias_not_issued st' (sn_n name)).
      eapply Hall; eauto.
  - apply alias_for_inj.
  - intros symbol. apply mangleName_mangled.
  - split; reflexivity.
  - intros [] fuel; reflexivity.
Qed.

(* ================================================================== *)
(** * What a SymbolAlias node does *)
(* ================================================================== *)

Lemma getSymbolAndName_not_proto (symbol : Symbol) :
  sn_n (getSymbolAndName symbol) <> "__proto__".
Proof.
  apply token_made_not_proto. unfold token_made.
  now apply bool_decide_eq_true_2.
Qed.

(** An Identifier node of one token that has no alias yet. *)
Lemma identifier_first_seen isDev pv rec itemCount indent itemIndex o (a : SymbolAndName)
      frags (st : CompileState) :
  symbolToIdentifier st !! sn_s a = None ->
  sn_n a <> "__proto__" ->
  printItem isDev pv rec itemCount indent itemIndex (IDENTIFIER o [NameSymbol a]) frags st
  = (Ok (frags ++ [alias_for (sn_n a) (next_number (descCounter st) (sn_n a))]),
     after_new_alias st (sn_s a) (sn_n a)).
Proof.
  intros Ha Hproto. cbn [printItem mapNames length].
  cbv beta iota zeta delta [bind get ret]. rewrite Ha. cbn [truthy_name].
  rewrite (makeIdentifierForSymbol_next a st Hproto).
  cbn [app head default]. rewrite bool_decide_eq_true_2 by reflexivity.
  reflexivity.
Qed.

(** C7: when the walk of [compile] comes to a SymbolAlias node of the
    tokens [a] and [b], in a state whose aliases are non-empty strings (as
    all aliases that [compile] records are): if both tokens have aliases
    and the aliases differ, compilation fails with the conflicting-alias
    error; if exactly one of them has an alias, the other is given that
    same alias; if neither has one, the alias that is generated for [a]
    is the one an Identifier node of [a] alone would get at that point,
    with the same count of the description afterwards, and [a] and [b]
    are both put on record with it.  That alias is the description of
    [a] between two leading underscores and a suffix made of the next
    number of the description: two underscores for a description not met
    before, an underscore and k+1 after k aliases of it; it is fresh,
    since it differs from every alias on record when all of them were
    generated by the compile.  The description of a token is never
    [__proto__], which is the one description set aside.  What is
    recorded stays on record, unchanged, for the rest of the compile.
    So the fragment that joins two tokens described as u before it names
    them compiles to the same alias twice, and the fragment that first
    names another token described as u compiles to the first alias
    followed by the second alias twice. *)
Theorem symbol_alias_joins_tokens
        (isDev : bool) (pv : option (gmap Symbol SQL))
        (rec : SQL -> nat -> M CompileState string)
        (itemCount indent itemIndex : nat) (o : oid) (a b : SymbolAndName)
        (frags : list string) (st : CompileState) :
  names_nonempty st ->
  (forall x y,
      symbolToIdentifier st !! sn_s a = Some x ->
      symbolToIdentifier st !! sn_s b = Some y ->
      x <> y ->
      printItem isDev pv rec itemCount indent itemIndex (SYMBOL_ALIAS o a b) frags st
      = (Throw ConflictingSymbolAlias, st))
  /\ (forall x,
         symbolToIdentifier st !! sn_s a = Some x ->
         symbolToIdentifier st !! sn_s b = None ->
         printItem isDev pv rec itemCount indent itemIndex (SYMBOL_ALIAS o a b) frags st
         = (Ok frags, with_alias (sn_s b) x st))
  /\ (forall y,
         symbolToIdentifier st !! sn_s a = None ->
         symbolToIdentifier st !! sn_s b = Some y ->
         printItem isDev pv rec itemCount indent itemIndex (SYMBOL_ALIAS o a b) frags st
         = (Ok frags, with_alias (sn_s a) y st))
  /\ (symbolToIdentifier st !! sn_s a = None ->
      symbolToIdentifier st !! sn_s b = None ->
      exists alias st1,
        makeIdentifierForSymbol a st = (Ok alias, st1)
        /\ symbolToIdentifier st1 !! sn_s a = Some alias
        /\ printItem isDev pv rec itemCount indent itemIndex (SYMBOL_ALIAS o a b) frags st
           = (Ok frags, with_alias (sn_s b) alias (with_alias (sn_s a) alias st1)))
  /\ (symbolToIdentifier st !! sn_s a = None ->
      symbolToIdentifier st !! sn_s b = None ->
      sn_n a <> "__proto__" ->
      let alias := alias_for (sn_n a) (next_number (descCounter st) (sn_n a)) in
      let st1 := after_new_alias st (sn_s a) (sn_n a) in
      let st2 := with_alias (sn_s b) alias (with_alias (sn_s a) alias st1) in
      makeIdentifierForSymbol a st = (Ok alias, st1)
      /\ (forall o',
             printItem isDev pv rec itemCount indent itemIndex
                       (IDENTIFIER o' [NameSymbol a]) frags st
             = (Ok (frags ++ [alias]), st1))
      /\ printItem isDev pv rec itemCount indent itemIndex (SYMBOL_ALIAS o a b) frags st
         = (Ok frags, st2)
      /\ symbolToIdentifier st2 !! sn_s a = Some alias
      /\ symbolToIdentifier st2 !! sn_s b = Some alias
      /\ (forall symbol, symbol <> sn_s a -> symbol <> sn_s b ->
                         symbolToIdentifier st2 !! symbol = symbolToIdentifier st !! symbol)
      /\ descCounter st2 = <[sn_n a := next_number (descCounter st) (sn_n a)]> (descCounter st)
      /\ values st2 = values st /\ valueCount st2 = valueCount st
      /\ (aliases_issued st ->
          forall symbol name, symbolToIdentifier st !! symbol = Some name -> name <> alias))
  /\ ((descCounter st !! sn_n a = None -> ~ inherited_key (sn_n a) ->
       alias_for (sn_n a) (next_number (descCounter st) (sn_n a))
       = ("__" ++ sn_n a ++ "__")%string)
      /\ (forall k, descCounter st !! sn_n a = Some (CNumber k) -> (1 <= k)%N ->
            alias_for (sn_n a) (next_number (descCounter st) (sn_n a))
            = ("__" ++ sn_n a ++ "_" ++ dec (k + 1))%string))
  /\ (forall symbol, sn_n (getSymbolAndName symbol) <> "__proto__")
  /\ (forall symbol name st0,
         symbolToIdentifier (with_alias symbol name st0) !! symbol = Some name)
  /\ (forall fuel sql indent' st0 r st',
         names_nonempty st0 ->
         print isDev pv fuel sql indent' st0 = (r, st') ->
         names_nonempty st' /\ aliases_kept st0 st')
  /\ (forall dev fuel,
         compile dev None (S (S fuel)) aliased_pair = Ok ("__u__/__u__", [])
         /\ compile dev None (S (S fuel)) aliased_after_first
            = Ok ("__u__/__u_2/__u_2", [])).
Proof.
  intros Hne. repeat apply conj.
  - intros x y. now apply symbol_alias_conflict.
  - intros x Ha Hb. apply symbol_alias_first_known; auto.
  - intros y. now apply symbol_alias_second_known.
  - now apply symbol_alias_none_known.
  - intros Ha Hb Hproto alias st1 st2.
    pose proof (makeIdentifierForSymbol_next a st Hproto) as Hmk.
    repeat apply conj.
    + exact Hmk.
    + intros o'. now apply identifier_first_seen.
    + destruct (symbol_alias_none_known isDev pv rec itemCount indent itemIndex o a b
                                        frags st Ha Hb)
        as (alias' & st1' & Hmk' & _ & Hrun).
      rewrite Hmk in Hmk'. injection Hmk' as <- <-. exact Hrun.
    + subst st2. unfold with_alias. cbn [symbolToIdentifier].
      rewrite lookup_insert. case_decide; [reflexivity | apply lookup_insert_eq].
    + subst st2. unfold with_alias. cbn [symbolToIdentifier]. apply lookup_insert_eq.
    + intros symbol Hsa Hsb. subst st2 st1. unfold with_alias, after_new_alias.
      cbn [symbolToIdentifier].
      now rewrite !lookup_insert_ne by congruence.
    + reflexivity.
    + reflexivity.
    + reflexivity.
    + intros Hissued symbol name Hrec Heq.
      apply (next_alias_not_issued st (sn_n a)). fold alias. rewrite <- Heq.
      eapply Hissued; eauto.
  - intros Hnone Hown. unfold next_number. rewrite Hnone.
    rewrite bool_decide_eq_false_2; [reflexivity|].
    intros Hin. apply Hown. now right.
  - intros k Hk Hone. unfold next_number. rewrite Hk. unfold alias_for.
    rewrite alias_suffix_later by lia. reflexivity.
  - apply getSymbolAndName_not_proto.
  - intros symbol name st0. unfold with_alias. cbn [symbolToIdentifier].
    apply lookup_insert_eq.
  - intros fuel sql indent' st0 r st'. apply print_keeps_aliases.
  - intros dev fuel. split; destruct dev; reflexivity.
Qed.

(** Two SymbolAlias nodes met after a first token described as u got the
    first alias of that description.  When the first token of the node
    alone has an alias on record, the second is given the same alias.
    When neither token of the node has one, both are given the second
    alias of the description. *)
Lemma symbol_alias_joins_tokens_witness :
  printItem false None (print false None 0) 1 0 0
    (SYMBOL_ALIAS 5 (getSymbolAndName token_a) (getSymbolAndName token_b))
    [] (after_new_alias initial_compile_state token_a "u")
  = (Ok [],
     with_alias token_b "__u__" (after_new_alias initial_compile_state token_a "u"))
  /\ exists st',
       printItem false None (print false None 0) 1 0 0
         (SYMBOL_ALIAS 5 (getSymbolAndName token_b) (getSymbolAndName token_c))
         [] (after_new_alias initial_compile_state token_a "u")
       = (Ok [], st')
       /\ symbolToIdentifier st' !! token_a = Some "__u__"
       /\ symbolToIdentifier st' !! token_b = Some "__u_2"
       /\ symbolToIdentifier st' !! token_c = Some "__u_2".
Proof.
  assert (Hne : names_nonempty (after_new_alias initial_compile_state token_a "u")).
  { intros s x. unfold after_new_alias. cbn [symbolToIdentifier initial_compile_state].
    rewrite lookup_insert. case_decide; [intros [= <-]; discriminate|].
    rewrite lookup_empty. discriminate. }
  split.
  - apply (proj1 (proj2 (symbol_alias_joins_tokens
                           false None (print false None 0) 1 0 0 5
                           (getSymbolAndName token_a) (getSymbolAndName token_b)
                           [] _ Hne)) "__u__").
    + reflexivity.
    + reflexivity.
  - destruct (symbol_alias_joins_tokens
                false None (print false None 0) 1 0 0 5
                (getSymbolAndName token_b) (getSymbolAndName token_c)
                [] _ Hne)
      as (_ & _ & _ & _ & Hnone & _).
    destruct (Hnone eq_refl eq_refl) as (_ & _ & Hrun & _); [discriminate|].
    eexists. split; [exact Hrun|]. repeat split.
Defined.

(* ================================================================== *)
(** * parens *)
(* ================================================================== *)

Lemma parens_outcome (fragment : SQL) :
  forall force st,
    if unwraps_to_empty fragment force
    then parens fragment force st = (Throw EmptyParens, st)
    else exists node st', parens fragment force st = (Ok node, st').
Proof.
  induction fragment
    as [o text|o names|o value|o content IH|o content pforce IH|o a b
        |o symbol fallback IH|o nodes flags IH] using SQL_nested_ind;
    intros force st; try (cbn; do 2 eexists; reflexivity).
  - (* INDENT *)
    cbn [unwraps_to_empty parens].
    destruct content as [| | | |? ? []| | |? [|[| | | |? ? []| | |] [|]] ?];
      do 2 eexists; reflexivity.
  - (* PARENS *)
    cbn [unwraps_to_empty parens].
    destruct (pforce || not_forced force).
    + do 2 eexists; reflexivity.
    + apply IH.
  - (* QUERY *)
    cbn [unwraps_to_empty parens].
    destruct nodes as [|child [|second rest]].
    + reflexivity.
    + apply Forall_cons in IH as [Hchild _]. apply Hchild.
    + do 2 eexists; reflexivity.
Qed.

Lemma unwraps_to_empty_built (fragment : SQL) (force : option bool) :
  every_node built_node fragment = true ->
  unwraps_to_empty fragment force = true ->
  exists o flags, fragment = QUERY o [] flags.
Proof.
  intros Hb Hu.
  destruct fragment as [| | | |o content pforce| | |o nodes flags]; try discriminate.
  - (* PARENS *)
    cbn [unwraps_to_empty] in Hu.
    destruct (pforce || not_forced force); [discriminate|].
    apply every_node_here in Hb. cbn [built_node] in Hb.
    destruct content as [| | | | | | |o' [|n1 [|n2 rest]] flags']; try discriminate.
  - (* QUERY *)
    destruct nodes as [|child [|second rest]]; [eauto | | discriminate].
    exfalso. cbn [unwraps_to_empty] in Hu.
    pose proof (every_node_here _ _ Hb) as Hflat. cbn [built_node forallb] in Hflat.
    apply every_node_query in Hb. apply Forall_cons in Hb as [Hchild _].
    apply every_node_here in Hchild.
    destruct child as [| | | |o' content pforce| | |]; try discriminate.
    cbn [unwraps_to_empty] in Hu.
    destruct (pforce || not_forced force); [discriminate|].
    cbn [built_node] in Hchild.
    destruct content as [| | | | | | |o'' [|n1 [|n2 rest]] flags']; discriminate.
Qed.

(** The restriction to the shape of the constructors matters: on a
    Parens node that is not forced and whose content is a Query without
    nodes, a tree that no constructor builds, asking for forced
    parentheses raises the empty-fragment error although the tree is not
    a Query. *)
Lemma parens_raises_on_unforced_parens_of_empty :
  is_query (PARENS 10 (QUERY 11 [] 0) false) = false
  /\ every_node built_node (PARENS 10 (QUERY 11 [] 0) false) = false
  /\ parens (PARENS 10 (QUERY 11 [] 0) false) (Some true) loaded_module_state
     = (Throw EmptyParens, loaded_module_state).
Proof. repeat split; reflexivity. Qed.

(** On any tree of nodes, of the shape of the constructors or not:
    [parens fragment force] raises the empty-fragment error exactly when
    the walk it makes before it wraps ends in a Query without nodes, and
    it raises no other error. *)
Lemma parens_raises_iff_unwraps_to_empty :
  (forall fragment force st,
      (exists st', parens fragment force st = (Throw EmptyParens, st'))
      <-> unwraps_to_empty fragment force = true)
  /\ (forall fragment force st e st',
         parens fragment force st = (Throw e, st') -> e = EmptyParens).
Proof.
  repeat split.
  - intros [st' H]. pose proof (parens_outcome fragment force st) as Ho.
    destruct (unwraps_to_empty fragment force); [reflexivity|].
    destruct Ho as (node & st'' & Ho). congruence.
  - intros H. pose proof (parens_outcome fragment force st) as Ho.
    rewrite H in Ho. eauto.
  - intros fragment force st e st' H.
    pose proof (parens_outcome fragment force st) as Ho.
    destruct (unwraps_to_empty fragment force).
    + congruence.
    + destruct Ho as (node & st'' & Ho). congruence.
Qed.

(** C10: on a fragment of the shape that the module's constructors build
    (the nodes of a Query are not Queries, the content of a Parens node
    is neither a Parens node nor a Query of fewer than two nodes),
    [parens fragment force] raises the empty-fragment error exactly when
    the fragment is a Query whose node list is empty; it raises no other
    error and leaves the module's state alone when it raises, and it
    returns a node for every other fragment.  In particular it raises
    for every Query without nodes and accepts the blank fragment, which
    is a Raw node of the empty text and has that shape; [compile] of the
    Parens node made for blank gives the text of an empty pair of
    parentheses and no values, in either mode and forced or not, because
    the empty text is not parens-safe. *)
Theorem parens_raises_iff_empty_query
        (fragment : SQL) (force : option bool) (st : ModuleState) :
  every_node built_node fragment = true ->
  ((exists st', parens fragment force st = (Throw EmptyParens, st'))
   <-> exists o flags, fragment = QUERY o [] flags)
  /\ (forall e st', parens fragment force st = (Throw e, st') ->
                    e = EmptyParens /\ st' = st)
  /\ ((forall o flags, fragment <> QUERY o [] flags) ->
      exists node st', parens fragment force st = (Ok node, st'))
  /\ (forall o flags, parens (QUERY o [] flags) force st = (Throw EmptyParens, st))
  /\ parens blank force st
     = (Ok (PARENS (next_oid st) blank (default false force)),
        mkModuleState (next_oid st + 1) (CACHE_RAW_NODES st) (CACHE_SIMPLE_FRAGMENTS st))
  /\ every_node built_node blank = true
  /\ isParensSafe "" = false
  /\ (forall isDev pv fuel o forced,
         compile isDev pv (S (S fuel)) (PARENS o blank forced) = Ok ("()", [])).
Proof.
  intros Hb. pose proof (parens_outcome fragment force st) as Ho.
  split; [|split; [|split; [|repeat split]]].
  - split.
    + intros [st' Hrun].
      destruct (unwraps_to_empty fragment force) eqn:Hu.
      * eapply unwraps_to_empty_built; eauto.
      * destruct Ho as (node & st'' & Ho). congruence.
    + intros (o & flags & ->). now exists st.
  - intros e st' Hrun.
    destruct (unwraps_to_empty fragment force).
    + rewrite Ho in Hrun. now injection Hrun as <- <-.
    + destruct Ho as (node & st'' & Ho). congruence.
  - intros Hnot.
    destruct (unwraps_to_empty fragment force) eqn:Hu; [|exact Ho].
    destruct (unwraps_to_empty_built fragment force Hb Hu) as (o & flags & ->).
    now destruct (Hnot o flags).
  - intros isDev pv fuel o forced. unfold compile.
    destruct forced, isDev; reflexivity.
Qed.

(** C10 in the module as loaded: the Query without nodes is refused, and
    the Query of the one Raw node of a comparison is wrapped. *)
Lemma parens_raises_iff_empty_query_witness :
  parens (QUERY 7 [] 0) None loaded_module_state = (Throw EmptyParens, loaded_module_state)
  /\ exists node st',
       parens (QUERY 9 [RAW 8 "a = b"] 0) None loaded_module_state = (Ok node, st').
Proof.
  split.
  - destruct (parens_raises_iff_empty_query (QUERY 7 [] 0) None loaded_module_state eq_refl)
      as (_ & _ & _ & Hraise & _).
    apply Hraise.
  - destruct (parens_raises_iff_empty_query (QUERY 9 [RAW 8 "a = b"] 0) None
                loaded_module_state eq_refl)
      as (_ & _ & Hnode & _).
    apply Hnode. intros o flags. discriminate.
Defined.

(* ================================================================== *)
(** * Further properties *)
(* ================================================================== *)

(** X1: [mangleName] keeps the promise of its comment.  Whatever the
    string, the result has only the characters [[0-9a-z_]], between 1 and
    50 of them, no underscore at either end and no two underscores in a
    row. *)
Theorem mangleName_contract (str : string) :
  str_all is_mangled_char (mangleName str) = true
  /\ 1 <= String.length (mangleName str) <= 50
  /\ str_head (mangleName str) <> Some ch_underscore
  /\ str_last (mangleName str) <> Some ch_underscore
  /\ no_double_underscore (mangleName str) = true.
Proof. apply mangleName_mangled. Qed.

(** X2: where [replaceSymbol] keeps structural sharing.  For a node other
    than Indent and Parens in which the needle does not occur, and for a
    Query of such nodes, it returns the fragment it was given and
    allocates nothing. *)
Theorem replaceSymbol_keeps_flat_fragment
        (needle replacement : Symbol) (frag : SQL) (st : ModuleState) :
  leaf_without needle frag
  \/ (exists o nodes flags,
         frag = QUERY o nodes flags /\ Forall (leaf_without needle) nodes) ->
  replaceSymbol needle replacement frag st = (Ok frag, st).
Proof.
  intros [Hleaf|(o & nodes & flags & -> & Hnodes)].
  - unfold replaceSymbol, replaceSymbol_body.
    destruct frag; try (now apply replaceSymbolInNode_leaf); contradiction.
  - unfold replaceSymbol, replaceSymbol_body. unfold bind.
    now rewrite replaceNodes_leaves.
Qed.

(** X2 at a Query of a Raw node and an Identifier of another token. *)
Lemma replaceSymbol_keeps_flat_fragment_witness :
  replaceSymbol token_a token_b
    (QUERY 6 [RAW 5 "from "; IDENTIFIER 4 [NameSymbol (getSymbolAndName user_rows)]] 0)
    loaded_module_state
  = (Ok (QUERY 6 [RAW 5 "from "; IDENTIFIER 4 [NameSymbol (getSymbolAndName user_rows)]] 0),
     loaded_module_state).
Proof.
  apply replaceSymbol_keeps_flat_fragment. right. eexists _, _, _.
  split; [reflexivity|]. repeat constructor.
  cbn [leaf_without]. intros sn Hin. apply list_elem_of_singleton in Hin.
  injection Hin as ->. discriminate.
Defined.

(** X3: on fragments of the shape that the constructors build, [parens]
    raises the empty-fragment error exactly when the fragment is a Query
    without nodes, and the Parens node it makes has that shape again. *)
Theorem parens_on_built_fragments
        (fragment : SQL) (force : option bool) (st : ModuleState) :
  every_node built_node fragment = true ->
  ((exists st', parens fragment force st = (Throw EmptyParens, st'))
   <-> exists o flags, fragment = QUERY o [] flags)
  /\ (forall node st', parens fragment force st = (Ok node, st') ->
                       every_node built_node node = true).
Proof.
  intros Hb. split.
  - split.
    + intros [st' Hrun]. pose proof (parens_outcome fragment force st) as Ho.
      destruct (unwraps_to_empty fragment force) eqn:Hu.
      * eapply unwraps_to_empty_built; eauto.
      * destruct Ho as (node & st'' & Ho). congruence.
    + intros (o & flags & ->). now exists st.
  - revert force st Hb.
    induction fragment
      as [o text|o names|o value|o content IH|o content pforce IH|o a b
          |o symbol fallback IH|o nodes flags IH] using SQL_nested_ind;
      intros force st Hb node st' Hrun.
    + injection Hrun as <- _. reflexivity.
    + injection Hrun as <- _. reflexivity.
    + injection Hrun as <- _. reflexivity.
    + (* INDENT *)
      cbn [parens] in Hrun.
      pose proof (every_node_indent _ _ _ Hb) as Hc.
      destruct content as [| | | |o' c' [] | | |o' [|[| | | |o'' c'' []| | |] [|]] flags'];
        injection Hrun as <- _;
        try (cbn [every_node built_node]; cbn [every_node built_node] in Hb;
             now rewrite Hb).
      * (* content is a Parens that is not forced *)
        pose proof (every_node_here _ _ Hc) as Hhere.
        apply every_node_parens in Hc.
        cbn [every_node]. rewrite Hc, andb_true_r.
        cbn [built_node] in Hhere |- *.
        destruct c' as [| | | | | | |? [|? [|]] ?]; try reflexivity; discriminate.
      * (* content is a Query of one Parens that is not forced *)
        apply every_node_query in Hc. apply Forall_cons in Hc as [Hp _].
        pose proof (every_node_here _ _ Hp) as Hhere.
        apply every_node_parens in Hp.
        cbn [every_node]. rewrite Hp, andb_true_r.
        cbn [built_node] in Hhere |- *.
        destruct c'' as [| | | | | | |? [|? [|]] ?]; try reflexivity; discriminate.
    + (* PARENS *)
      cbn [parens] in Hrun.
      destruct (pforce || not_forced force).
      * injection Hrun as <- _. exact Hb.
      * eapply IH; [|exact Hrun]. eapply every_node_parens; eauto.
    + injection Hrun as <- _. reflexivity.
    + injection Hrun as <- _.
      change (every_node built_node (PARENS (next_oid st) (PLACEHOLDER o symbol fallback)
                                            (default false force)))
        with (true && every_node built_node (PLACEHOLDER o symbol fallback)).
      exact Hb.
    + (* QUERY *)
      cbn [parens] in Hrun.
      destruct nodes as [|child [|second rest]]; [discriminate | |].
      * apply Forall_cons in IH as [IHchild _].
        eapply IHchild; [|exact Hrun].
        apply every_node_query in Hb. now apply Forall_cons in Hb as [Hchild _].
      * injection Hrun as <- _.
        change (every_node built_node (PARENS (next_oid st) (QUERY o (child :: second :: rest) flags)
                                              (default false force)))
          with (true && every_node built_node (QUERY o (child :: second :: rest) flags)).
        exact Hb.
Qed.

(** X3 at a Query without nodes. *)
Lemma parens_on_built_fragments_witness :
  (exists st', parens (QUERY 7 [] 0) None loaded_module_state = (Throw EmptyParens, st'))
  <-> exists o flags, QUERY 7 [] 0 = QUERY o [] flags.
Proof.
  exact (proj1 (parens_on_built_fragments (QUERY 7 [] 0) None loaded_module_state eq_refl)).
Defined.

(** ** The depth allowed to [print] *)

Section FuelMonotone.

Variable isDev : bool.
Variable pv : option (gmap Symbol SQL).
Variables rec1 rec2 : SQL -> nat -> M CompileState string.

Hypothesis rec_extends : forall sql indent st r st',
    rec1 sql indent st = (r, st') -> outcome r <> Some StackExhausted ->
    rec2 sql indent st = (r, st').

Lemma bind_extends2 {A B} (m1 m2 : M CompileState A) (k1 k2 : A -> M CompileState B)
      st r st' :
  (forall r1 st1, m1 st = (r1, st1) -> outcome r1 <> Some StackExhausted ->
                  m2 st = (r1, st1)) ->
  (forall x st1, k1 x st1 = (r, st') -> k2 x st1 = (r, st')) ->
  bind m1 k1 st = (r, st') -> outcome r <> Some StackExhausted ->
  bind m2 k2 st = (r, st').
Proof.
  unfold bind. intros Hm Hk Hrun Hr.
  destruct (m1 st) as [[x|e] st1] eqn:H1.
  - rewrite (Hm _ _ eq_refl); [now apply Hk | discriminate].
  - injection Hrun as <- <-. now rewrite (Hm _ _ eq_refl Hr).
Qed.

Lemma bind_extends {A B} (m1 m2 : M CompileState A) (k : A -> M CompileState B) st r st' :
  (forall r1 st1, m1 st = (r1, st1) -> outcome r1 <> Some StackExhausted ->
                  m2 st = (r1, st1)) ->
  bind m1 k st = (r, st') -> outcome r <> Some StackExhausted ->
  bind m2 k st = (r, st').
Proof. intros Hm. apply bind_extends2; auto. Qed.

Lemma printItem_extends itemCount indent itemIndex item frags st r st' :
  printItem isDev pv rec1 itemCount indent itemIndex item frags st = (r, st') ->
  outcome r <> Some StackExhausted ->
  printItem isDev pv rec2 itemCount indent itemIndex item frags st = (r, st').
Proof.
  destruct item as [o text|o names|o value|o content|o content force|o a b
                    |o symbol fallback|o nodes flags]; cbn [printItem]; try tauto.
  - destruct isDev; [|tauto]. intros Hrun Hr.
    eapply bind_extends; [|exact Hrun|exact Hr]. intros. now apply rec_extends.
  - intros Hrun Hr.
    eapply bind_extends; [|exact Hrun|exact Hr]. intros. now apply rec_extends.
  - destruct (match pv ≫= (fun m => m !! symbol) with
              | Some v => Some v
              | None => fallback
              end); [|tauto].
    intros Hrun Hr.
    eapply bind_extends; [|exact Hrun|exact Hr]. intros. now apply rec_extends.
Qed.

Lemma printItems_extends itemCount indent (items : list SQL) :
  forall itemIndex frags st r st',
    printItems isDev pv rec1 itemCount indent items itemIndex frags st = (r, st') ->
    outcome r <> Some StackExhausted ->
    printItems isDev pv rec2 itemCount indent items itemIndex frags st = (r, st').
Proof.
  induction items as [|item rest IH]; intros itemIndex frags st r st'; [tauto|].
  cbn [printItems]. intros Hrun Hr.
  eapply bind_extends2; [| |exact Hrun|exact Hr].
  - intros r1 st1 H1 Hr1. now apply printItem_extends.
  - intros x st1 Hk. now apply IH.
Qed.

End FuelMonotone.

Lemma print_fuel_step isDev pv (fuel : nat) :
  forall sql indent st r st',
    print isDev pv fuel sql indent st = (r, st') ->
    outcome r <> Some StackExhausted ->
    print isDev pv (S fuel) sql indent st = (r, st').
Proof.
  induction fuel as [|fuel IH]; intros sql indent st r st' Hrun Hr.
  - injection Hrun as <- <-. now contradiction Hr.
  - rewrite print_unfold in Hrun |- *.
    eapply bind_extends; [|exact Hrun|exact Hr].
    intros r1 st1 H1 Hr1. eapply printItems_extends; [exact IH | exact H1 | exact Hr1].
Qed.

(** X4: the depth allowed to [print] matters only when it is exhausted.
    A walk that ends otherwise, normally or with an error of the module,
    ends in the same way and in the same state with any greater depth. *)
Theorem print_fuel_monotone isDev pv (fuel fuel' : nat) sql indent st r st' :
  fuel <= fuel' ->
  print isDev pv fuel sql indent st = (r, st') ->
  outcome r <> Some StackExhausted ->
  print isDev pv fuel' sql indent st = (r, st').
Proof.
  intros Hle Hrun Hr. induction Hle as [|fuel' Hle IH]; [exact Hrun|].
  now apply print_fuel_step.
Qed.

(** X4 at a Value node inside a Parens node. *)
Lemma print_fuel_monotone_witness :
  print false None 7 (PARENS 2 (VALUE 1 (JNumber (NumInt 7))) false) 0 initial_compile_state
  = (Ok "$1", with_value (JNumber (NumInt 7)) initial_compile_state).
Proof.
  apply (print_fuel_monotone false None 2 7); [lia | reflexivity | discriminate].
Defined.

(** X5: without fragments supplied for placeholders the walk of [print]
    always ends: a depth of at least the height of the fragment is never
    exhausted, so that [compile] returns a result or raises an error of
    the module. *)
Theorem print_ends isDev (fuel : nat) :
  forall sql indent st,
    height sql <= fuel ->
    outcome (fst (print isDev None fuel sql indent st)) <> Some StackExhausted.
Proof.
  induction fuel as [|fuel IH]; intros sql indent st Hh.
  - pose proof (height_positive sql). lia.
  - destruct (print isDev None (S fuel) sql indent st) as [r st'] eqn:Hrun.
    cbn [fst]. intros He. rewrite print_unfold in Hrun. unfold bind in Hrun.
    destruct (printItems isDev None (print isDev None fuel) _ indent _ 0 [] st)
      as [[frags|e] st1] eqn:Hloop.
    + injection Hrun as <- _. discriminate.
    + injection Hrun as <- _.
      destruct (printItems_exhausted _ _ _ _ _ _ _ _ _ _ _ Hloop He)
        as (item & child & i & s0 & r0 & s0' & Hin & Hnested & Hcall & He0).
      apply (IH child i s0).
      * apply height_nested in Hnested.
        destruct sql as [| | | | | | |o nodes flags];
          try (apply list_elem_of_singleton in Hin; subst item; lia).
        apply (height_item o nodes flags) in Hin. lia.
      * now rewrite Hcall.
Qed.

(** X5 at a Parens node around a Value node. *)
Lemma print_ends_witness :
  height (PARENS 2 (VALUE 1 JNull) false) <= 2
  /\ outcome (fst (print false None 2 (PARENS 2 (VALUE 1 JNull) false) 0
                         initial_compile_state))
     <> Some StackExhausted.
Proof.
  assert (H : height (PARENS 2 (VALUE 1 JNull) false) <= 2) by (cbn; lia).
  split; [exact H | exact (print_ends false 2 _ 0 initial_compile_state H)].
Defined.

(** The scenarios of the specification.  The select statement, the
    join of three values, the comparison in parentheses and the value in
    parentheses compile as the specification says.  Naming two tokens and
    joining them with a SymbolAlias only afterwards is rejected with the
    conflicting-alias error. *)
Theorem scenarios :
  fst (scenario_select loaded_module_state)
  = Ok (Ok (("select " ++ quoted "users" ++ "." ++ quoted "id" ++ " from "
             ++ quoted "users" ++ " where " ++ quoted "users" ++ "." ++ quoted "id"
             ++ " = $1")%string,
            [JNumber (NumInt 42)]))
  /\ fst (scenario_join loaded_module_state)
     = Ok (Ok ("$1, $2, $3",
               [JNumber (NumInt 1); JNumber (NumInt 2); JNumber (NumInt 3)]))
  /\ fst (scenario_where loaded_module_state)
     = Ok (Ok ("where ($1 = $2)", [JNumber (NumInt 1); JNumber (NumInt 2)]))
  /\ fst (scenario_parens_value loaded_module_state)
     = Ok (Ok ("$1", [JNumber (NumInt 7)]))
  /\ fst (scenario_alias_after_use loaded_module_state)
     = Ok (Throw ConflictingSymbolAlias).
Proof. repeat split; vm_compute; reflexivity. Qed.

(** X7: the description that [descCounter] inherits.  Of the keys that
    a plain object inherits, one only is a name as [mangleName] gives
    them: constructor.  For a token of that name the counter read the
    first time is not a number: the first alias generated ends in NaN
    and leaves NaN as the count, after which the numbering starts as for
    any other description, with the two underscores and then the number
    2. *)
Theorem inherited_description_aliases :
  (forall s, mangled s -> (inherited_key s <-> s = "constructor"))
  /\ (forall symbol st,
         descCounter st !! "constructor" = None ->
         exists st',
           makeIdentifierForSymbol (mkSymbolAndName symbol "constructor") st
           = (Ok "__constructor_NaN", st')
           /\ descCounter st' !! "constructor" = Some CNaN)
  /\ (forall symbol st,
         descCounter st !! "constructor" = Some CNaN ->
         exists st',
           makeIdentifierForSymbol (mkSymbolAndName symbol "constructor") st
           = (Ok "__constructor__", st')
           /\ descCounter st' !! "constructor" = Some (CNumber 1))
  /\ compile false None 2
       (QUERY 9 [IDENTIFIER 4 [NameSymbol (getSymbolAndName (mkSymbol 1 (Some "constructor")))];
                 RAW 5 " ";
                 IDENTIFIER 6 [NameSymbol (getSymbolAndName (mkSymbol 2 (Some "constructor")))];
                 RAW 7 " ";
                 IDENTIFIER 8 [NameSymbol (getSymbolAndName (mkSymbol 3 (Some "constructor")))]]
              0)
     = Ok ("__constructor_NaN __constructor__ __constructor_2", []).
Proof.
  split; [|split; [|split]].
  - intros s (Hall & _ & Hhead & _). unfold inherited_key, object_prototype_methods. split.
    + intros H.
      repeat (apply elem_of_cons in H as [->|H]);
        try reflexivity;
        try (vm_compute in Hall; discriminate Hall);
        try (exfalso; apply Hhead; reflexivity).
      now apply elem_of_nil in H.
    + intros ->. apply list_elem_of_further, list_elem_of_here.
  - intros symbol st Hnone. eexists.
    rewrite makeIdentifierForSymbol_next by discriminate.
    cbn [sn_n sn_s descCounter]. unfold next_number. rewrite Hnone.
    split; [reflexivity|]. cbn [descCounter]. apply lookup_insert_eq.
  - intros symbol st Hnan. eexists.
    rewrite makeIdentifierForSymbol_next by discriminate.
    cbn [sn_n sn_s descCounter]. unfold next_number. rewrite Hnan.
    split; [reflexivity|]. cbn [descCounter]. apply lookup_insert_eq.
  - vm_compute. reflexivity.
Qed.

(* ================================================================== *)
(** * escapeSqlIdentifier and identifier *)
(* ================================================================== *)

Lemma escapeSqlIdentifier_body (str : string) :
  escapeSqlIdentifier str
  = String ch_dquote (double_quotes str ++ String ch_dquote EmptyString).
Proof. reflexivity. Qed.

Lemma unquote_body_double_quotes (str : string) :
  unquote_body (double_quotes str ++ String ch_dquote EmptyString) = Some str.
Proof.
  induction str as [|c r IH].
  - reflexivity.
  - cbn [double_quotes]. destruct (is_char ch_dquote c) eqn:Hc.
    + apply is_char_true in Hc. subst c.
      rewrite !append_cons. cbn [unquote_body]. rewrite !is_char_refl.
      now rewrite IH.
    + rewrite append_cons. cbn [unquote_body]. rewrite Hc. now rewrite IH.
Qed.

(** X8: a name that [escapeSqlIdentifier] has quoted reads back as the
    name, whatever characters it holds: the result starts with a double
    quote, every double quote of the name is doubled, and a lone double
    quote ends it.  So two names with the same quoted form are the same
    name. *)
Theorem escapeSqlIdentifier_round_trip :
  (forall str, unquote_identifier (escapeSqlIdentifier str) = Some str)
  /\ (forall str1 str2,
         escapeSqlIdentifier str1 = escapeSqlIdentifier str2 -> str1 = str2).
Proof.
  assert (Hrt : forall str, unquote_identifier (escapeSqlIdentifier str) = Some str).
  { intros str. rewrite escapeSqlIdentifier_body. cbn [unquote_identifier].
    rewrite is_char_refl. apply unquote_body_double_quotes. }
  split; [exact Hrt|].
  intros str1 str2 H. apply (f_equal unquote_identifier) in H.
  rewrite !Hrt in H. now injection H.
Qed.

Lemma mapNames_strings (names : list string) (mappedNames : list string)
      (st : CompileState) :
  mapNames (string_names names) mappedNames st
  = (Ok (mappedNames ++ map escapeSqlIdentifier names), st).
Proof.
  revert mappedNames. induction names as [|name rest IH]; intros mappedNames.
  - cbn. now rewrite app_nil_r.
  - cbn [string_names map mapNames]. fold (string_names rest).
    rewrite IH. now rewrite <- app_assoc.
Qed.

Lemma print_string_names isDev pv fuel o (first : string) (rest : list string)
      indent (st : CompileState) :
  print isDev pv (S fuel) (IDENTIFIER o (string_names (first :: rest))) indent st
  = (Ok (quoted_path (first :: rest)), st).
Proof.
  rewrite print_single_node by reflexivity.
  cbn [printItem]. unfold bind. rewrite mapNames_strings. cbn [app].
  unfold ret. cbn [app]. rewrite str_concat_singleton.
  unfold quoted_path, string_names. rewrite length_map.
  destruct rest as [|second rest]; reflexivity.
Qed.

(** X9: [identifier] on names that are strings.  Without a name it
    raises; otherwise it makes one Identifier node, and the node compiles
    to the names, each quoted by [escapeSqlIdentifier], joined by dots,
    with no values.  In development mode the text then goes through the
    removal of blank lines like any other, so that a name which holds a
    blank line is altered there. *)
Theorem identifier_of_strings :
  (forall st, identifier [] st = (Throw EmptyIdentifier, st))
  /\ (forall first rest st,
         identifier (map ArgString (first :: rest)) st
         = (Ok (IDENTIFIER (next_oid st) (string_names (first :: rest))),
            mkModuleState (next_oid st + 1) (CACHE_RAW_NODES st)
                          (CACHE_SIMPLE_FRAGMENTS st)))
  /\ (forall isDev pv fuel o first rest,
         compile isDev pv (S fuel) (IDENTIFIER o (string_names (first :: rest)))
         = Ok (if isDev then collapse_blank_lines (quoted_path (first :: rest))
               else quoted_path (first :: rest), []))
  /\ compile true None 1 (IDENTIFIER 0 (string_names [String ch_newline (String ch_newline "")]))
     = Ok (String ch_dquote (String ch_newline (String ch_dquote "")), []).
Proof.
  split; [reflexivity|]. split; [|split].
  - intros first rest st. cbn [identifier map]. unfold makeIdentifierNode, bind, alloc, ret.
    unfold string_names. cbn [map]. rewrite map_map. reflexivity.
  - intros isDev pv fuel o first rest. unfold compile.
    now rewrite print_string_names.
  - vm_compute. reflexivity.
Qed.

(** ** Paths of plain names are parens-safe *)














(* ================================================================== *)
(** * mangleName on a name that is already mangled *)
(* ================================================================== *)

Lemma mangled_char_not_upper (c : ascii) :
  is_mangled_char c = true -> is_upper c = false.
Proof.
  destruct c as [[] [] [] [] [] [] [] []]; vm_compute; intros H;
    first [reflexivity | discriminate H].
Qed.

Lemma underscore_uppercase_mangled (s : string) :
  str_all is_mangled_char s = true -> underscore_uppercase s = s.
Proof.
  induction s as [|c r IH]; [reflexivity|].
  cbn [str_all underscore_uppercase]. rewrite andb_true_iff. intros [Hc Hr].
  rewrite (mangled_char_not_upper c Hc), (IH Hr). reflexivity.
Qed.

Lemma collapse_unsafe_from_mangled (in_run : bool) (s : string) :
  str_all is_mangled_char s = true -> collapse_unsafe_from in_run s = s.
Proof.
  revert in_run. induction s as [|c r IH]; intros in_run; [reflexivity|].
  cbn [str_all collapse_unsafe_from]. rewrite andb_true_iff. intros [Hc Hr].
  rewrite Hc, (IH false Hr). reflexivity.
Qed.

Lemma collapse_underscores_no_run (s : string) :
  no_double_underscore s = true -> collapse_underscores s = s.
Proof.
  induction s as [|c r IH]; [reflexivity|].
  intros Hnd. pose proof (no_double_tail _ _ Hnd) as Hr.
  cbn [collapse_underscores].
  destruct (is_char ch_underscore c) eqn:Hc; [|now rewrite (IH Hr)].
  destruct r as [|c' r']; [reflexivity|].
  destruct (is_char ch_underscore c') eqn:Hc'.
  - exfalso. cbn [no_double_underscore] in Hnd. rewrite Hc, Hc' in Hnd.
    cbn in Hnd. discriminate.
  - now rewrite (IH Hr).
Qed.

Lemma strip_leading_underscore_none (s : string) :
  str_head s <> Some ch_underscore -> strip_leading_underscore s = s.
Proof.
  destruct s as [|c r]; [reflexivity|].
  cbn [str_head strip_leading_underscore]. intros Hc.
  destruct (is_char ch_underscore c) eqn:Hu; [|reflexivity].
  apply is_char_true in Hu. congruence.
Qed.

Lemma str_take_all (k : nat) (s : string) :
  String.length s <= k -> str_take k s = s.
Proof.
  revert k. induction s as [|c r IH]; intros [|k] Hk; try reflexivity.
  - cbn [String.length] in Hk. lia.
  - cbn [String.length] in Hk. cbn [str_take]. rewrite IH by lia. reflexivity.
Qed.

Lemma strip_trailing_underscore_none (s : string) :
  str_last s <> Some ch_underscore -> strip_trailing_underscore s = s.
Proof.
  unfold strip_trailing_underscore. intros Hlast.
  destruct (str_last s) as [c|]; [|reflexivity].
  destruct (is_char ch_underscore c) eqn:Hu; [|reflexivity].
  apply is_char_true in Hu. congruence.
Qed.

Lemma mangleName_fixes_mangled (s : string) : mangled s -> mangleName s = s.
Proof.
  intros (Hall & Hlen & Hhead & Hlast & Hnd). unfold mangleName, collapse_unsafe.
  rewrite (underscore_uppercase_mangled _ Hall).
  rewrite (collapse_unsafe_from_mangled _ _ Hall).
  rewrite (collapse_underscores_no_run _ Hnd).
  rewrite (strip_leading_underscore_none _ Hhead).
  rewrite str_take_all by lia.
  rewrite (strip_trailing_underscore_none _ Hlast).
  destruct s; [cbn in Hlen; lia | reflexivity].
Qed.

(** X11: [mangleName] changes nothing in a name that already is as its
    comment describes (only the characters [[0-9a-z_]], between 1 and 50
    of them, no underscore at either end, no two in a row).  So mangling
    twice is mangling once, and the name that [getSymbolAndName] gives to
    the token of a symbol is the name it gives to a symbol described by
    that name. *)
Theorem mangleName_idempotent :
  (forall str, mangleName (mangleName str) = mangleName str)
  /\ (forall str, mangled str -> mangleName str = str)
  /\ (forall symbol k,
         sn_n (getSymbolAndName (mkSymbol k (Some (sn_n (getSymbolAndName symbol)))))
         = sn_n (getSymbolAndName symbol)).
Proof.
  assert (Hid : forall str, mangleName (mangleName str) = mangleName str)
    by (intros str; apply mangleName_fixes_mangled, mangleName_mangled).
  split; [exact Hid|]. split; [exact mangleName_fixes_mangled|].
  intros symbol k. unfold getSymbolAndName. cbn [sn_n description].
  set (d := match description symbol with Some d => or_local d | None => "local" end).
  assert (Hne : or_local (mangleName d) = mangleName d).
  { pose proof (mangleName_mangled d) as (_ & Hlen & _).
    destruct (mangleName d); [cbn in Hlen; lia | reflexivity]. }
  rewrite Hne. apply Hid.
Qed.

(* ================================================================== *)
(** * parens: what it returns *)
(* ================================================================== *)

Lemma makeParensNode_run (content : SQL) (force : option bool) (st : ModuleState) :
  makeParensNode content force st
  = (Ok (PARENS (next_oid st) content (default false force)), after_alloc st).
Proof. reflexivity. Qed.

Lemma wrapped_for_made (o : oid) (content : SQL) (force : option bool) :
  wrapped_for force (PARENS o content (default false force)) = true.
Proof. unfold wrapped_for, not_forced. now destruct (default false force). Qed.

Lemma wrapped_for_forced (force : option bool) (r : SQL) :
  wrapped_for (Some true) r = true -> wrapped_for force r = true.
Proof.
  destruct r; try discriminate. cbn. rewrite orb_false_r. now intros ->.
Qed.

Lemma parens_returns (fragment : SQL) :
  forall force st r st',
    parens fragment force st = (Ok r, st') ->
    wrapped_for force r = true
    /\ (st' = st \/ (oid_of r = next_oid st /\ st' = after_alloc st)).
Proof.
  induction fragment as [o text|o names|o value|o content IH|o content fforce IH
                         |o a b|o symbol fallback _|o nodes flags IH]
    using SQL_nested_ind; intros force st r st' Hrun.
  - cbn [parens] in Hrun. rewrite makeParensNode_run in Hrun. injection Hrun as <- <-.
    split; [apply wrapped_for_made | now right].
  - cbn [parens] in Hrun. rewrite makeParensNode_run in Hrun. injection Hrun as <- <-.
    split; [apply wrapped_for_made | now right].
  - cbn [parens] in Hrun. rewrite makeParensNode_run in Hrun. injection Hrun as <- <-.
    split; [apply wrapped_for_made | now right].
  - assert (Hmade : exists inner, r = PARENS (next_oid st) inner (default false force)
                                  /\ st' = after_alloc st).
    { cbn [parens] in Hrun.
      destruct content as [| | | |? ? []| | |? [|[| | | |? ? []| | |] []] ?];
        rewrite makeParensNode_run in Hrun; injection Hrun as <- <-; eauto. }
    destruct Hmade as (inner & -> & ->).
    split; [apply wrapped_for_made | now right].
  - cbn [parens] in Hrun.
    destruct (fforce || not_forced force) eqn:Hw.
    + injection Hrun as <- <-. split; [exact Hw | now left].
    + destruct (IH _ _ _ _ Hrun) as [Hwrapped Hst].
      split; [now apply wrapped_for_forced | exact Hst].
  - cbn [parens] in Hrun. rewrite makeParensNode_run in Hrun. injection Hrun as <- <-.
    split; [apply wrapped_for_made | now right].
  - cbn [parens] in Hrun. rewrite makeParensNode_run in Hrun. injection Hrun as <- <-.
    split; [apply wrapped_for_made | now right].
  - cbn [parens] in Hrun.
    destruct nodes as [|child [|second rest]].
    + discriminate.
    + apply Forall_cons in IH as [IHchild _]. exact (IHchild _ _ _ _ Hrun).
    + rewrite makeParensNode_run in Hrun. injection Hrun as <- <-.
      split; [apply wrapped_for_made | now right].
Qed.

(** X12: what [parens] returns.  When it returns, the result is a Parens
    node; it is forced when force was asked for; [parens] applied to the
    result with the same [force] returns the very same node and allocates
    nothing, so that parentheses are never doubled; and the call has
    allocated at most one node, in which case the result is that node. *)
Theorem parens_never_wraps_twice
        (fragment : SQL) (force : option bool) (st : ModuleState) (r : SQL)
        (st' : ModuleState) :
  parens fragment force st = (Ok r, st') ->
  (exists o content fforce,
      r = PARENS o content fforce /\ (force = Some true -> fforce = true))
  /\ (forall st2, parens r force st2 = (Ok r, st2))
  /\ (st' = st \/ (oid_of r = next_oid st /\ st' = after_alloc st)).
Proof.
  intros Hrun. destruct (parens_returns _ _ _ _ _ Hrun) as [Hw Hst].
  destruct r as [| | | |o content fforce| | |]; try discriminate Hw.
  split; [|split; [|exact Hst]].
  - exists o, content, fforce. split; [reflexivity|].
    intros ->. cbn in Hw. now rewrite orb_false_r in Hw.
  - intros st2. cbn [parens]. cbn [wrapped_for] in Hw. now rewrite Hw.
Qed.

(** X12 at a comparison: the first call wraps it, the second returns the
    node of the first. *)
Lemma parens_never_wraps_twice_witness :
  parens (PARENS 7 (QUERY 6 [VALUE 4 JNull; RAW 5 " is null"] 0) false) None
         loaded_module_state
  = (Ok (PARENS 7 (QUERY 6 [VALUE 4 JNull; RAW 5 " is null"] 0) false),
     loaded_module_state).
Proof.
  apply (proj1 (proj2 (parens_never_wraps_twice
                         (QUERY 6 [VALUE 4 JNull; RAW 5 " is null"] 0) None
                         (mkModuleState 7 (CACHE_RAW_NODES loaded_module_state) ∅)
                         (PARENS 7 (QUERY 6 [VALUE 4 JNull; RAW 5 " is null"] 0) false)
                         (after_alloc (mkModuleState 7 (CACHE_RAW_NODES loaded_module_state) ∅))
                         eq_refl))).
Defined.

(* ================================================================== *)
(** * The walk of print in production mode is a concatenation *)
(* ================================================================== *)

Lemma str_concat_app (a b : list string) :
  str_concat (a ++ b) = (str_concat a ++ str_concat b)%string.
Proof.
  induction a as [|x a IH]; [reflexivity|].
  cbn [app str_concat]. now rewrite IH, append_assoc.
Qed.

Section ProductionWalk.

Variable pv : option (gmap Symbol SQL).
Variable rec : SQL -> nat -> M CompileState string.

(** In production mode an item adds its text to the pieces collected so
    far, whatever they are and wherever the item stands. *)
Lemma printItem_production itemCount indent itemIndex item frags st :
  printItem false pv rec itemCount indent itemIndex item frags st
  = match printItem false pv rec 1 indent 0 item [] st with
    | (Ok added, st') => (Ok (frags ++ added), st')
    | (Throw e, st') => (Throw e, st')
    end.
Proof.
  destruct item as [o text|o names|o value|o content|o content force|o a b
                    |o symbol fallback|o nodes flags]; cbn [printItem andb].
  - destruct (str_nonempty text); unfold bind, ret; cbn [app];
      now rewrite ?app_nil_r.
  - unfold bind, ret. destruct (mapNames names [] st) as [[mapped|e] st']; reflexivity.
  - unfold bind, modify, get, ret, throw.
    cbn [valueCount values symbolToIdentifier descCounter].
    destruct (65535 <? valueCount st + 1)%N; reflexivity.
  - reflexivity.
  - unfold bind, ret. destruct (rec content indent st) as [[inner|e] st']; [|reflexivity].
    destruct (force || negb (isParensSafe inner)); reflexivity.
  - unfold bind, get, ret, throw, symbolToIdentifier_set, modify.
    destruct (truthy_name _ && truthy_name _ && _); [reflexivity|].
    destruct (truthy_name (symbolToIdentifier st !! sn_s a));
      [now rewrite app_nil_r|].
    destruct (truthy_name (symbolToIdentifier st !! sn_s b));
      [now rewrite app_nil_r|].
    destruct (makeIdentifierForSymbol a st) as [[alias|e] st']; [|reflexivity].
    now rewrite app_nil_r.
  - destruct (match pv ≫= (fun m => m !! symbol) with
              | Some v => Some v
              | None => fallback
              end) as [resolved|]; [|reflexivity].
    unfold bind, ret. destruct (rec resolved indent st) as [[inner|e] st']; reflexivity.
  - reflexivity.
Qed.

Lemma printItems_production itemCount indent (items : list SQL) :
  forall itemIndex frags st,
    printItems false pv rec itemCount indent items itemIndex frags st
    = match printItems false pv rec (length items) indent items 0 [] st with
      | (Ok added, st') => (Ok (frags ++ added), st')
      | (Throw e, st') => (Throw e, st')
      end.
Proof.
  assert (Hgen : forall count1 count2 index1 index2 frags st,
             printItems false pv rec count1 indent items index1 frags st
             = match printItems false pv rec count2 indent items index2 [] st with
               | (Ok added, st') => (Ok (frags ++ added), st')
               | (Throw e, st') => (Throw e, st')
               end).
  { induction items as [|item rest IH]; intros count1 count2 index1 index2 frags st.
    - cbn [printItems]. unfold ret. now rewrite app_nil_r.
    - cbn [printItems]. unfold bind.
      rewrite (printItem_production count1 indent index1 item frags st).
      rewrite (printItem_production count2 indent index2 item [] st).
      destruct (printItem false pv rec 1 indent 0 item [] st) as [[added|e] st1];
        [|reflexivity].
      rewrite (IH count1 count2 (S index1) (S index2) (frags ++ added) st1).
      rewrite (IH count2 count2 (S index2) (S index2) ([] ++ added) st1).
      destruct (printItems false pv rec count2 indent rest (S index2) [] st1)
        as [[more|e] st2]; [|reflexivity].
      cbn [app]. now rewrite app_assoc. }
  intros itemIndex frags st. apply Hgen.
Qed.

Lemma printItems_production_app indent (xs ys : list SQL) :
  forall st,
    printItems false pv rec (length (xs ++ ys)) indent (xs ++ ys) 0 [] st
    = match printItems false pv rec (length xs) indent xs 0 [] st with
      | (Ok first, st1) =>
          match printItems false pv rec (length ys) indent ys 0 [] st1 with
          | (Ok second, st2) => (Ok (first ++ second), st2)
          | (Throw e, st2) => (Throw e, st2)
          end
      | (Throw e, st1) => (Throw e, st1)
      end.
Proof.
  induction xs as [|item rest IH]; intros st.
  - cbn [app printItems length]. unfold ret.
    destruct (printItems false pv rec (length ys) indent ys 0 [] st) as [[second|e] st2];
      reflexivity.
  - cbn [app printItems]. unfold bind.
    rewrite (printItem_production (length (item :: rest ++ ys)) indent 0 item [] st).
    rewrite (printItem_production (length (item :: rest)) indent 0 item [] st).
    destruct (printItem false pv rec 1 indent 0 item [] st) as [[added|e] st1];
      [|reflexivity].
    rewrite (printItems_production (length (item :: rest ++ ys)) indent (rest ++ ys)
               1 ([] ++ added) st1).
    rewrite (printItems_production (length (item :: rest)) indent rest 1 ([] ++ added) st1).
    rewrite IH.
    destruct (printItems false pv rec (length rest) indent rest 0 [] st1)
      as [[first|e] st2]; [|reflexivity].
    destruct (printItems false pv rec (length ys) indent ys 0 [] st2)
      as [[second|e] st3]; [|reflexivity].
    cbn [app]. now rewrite app_assoc.
Qed.

End ProductionWalk.

Lemma print_query_app pv fuel (o o1 o2 : oid) (flags flags1 flags2 : N)
        (xs ys : list SQL) indent (st : CompileState) :
  print false pv (S fuel) (QUERY o (xs ++ ys) flags) indent st
  = (let* first := print false pv (S fuel) (QUERY o1 xs flags1) indent in
     let* second := print false pv (S fuel) (QUERY o2 ys flags2) indent in
     ret (first ++ second)%string) st.
Proof.
  rewrite !print_unfold. unfold bind at 1.
  rewrite printItems_production_app. unfold bind, ret.
  destruct (printItems false pv (print false pv fuel) (length xs) indent xs 0 [] st)
    as [[first|e] st1]; [|reflexivity].
  destruct (printItems false pv (print false pv fuel) (length ys) indent ys 0 [] st1)
    as [[second|e] st2]; [|reflexivity].
  now rewrite str_concat_app.
Qed.

(** X13: in production mode the text of a Query is the concatenation of
    the texts of its parts.  Printing a Query of the nodes [xs ++ ys] is
    printing a Query of [xs] and then, in the state this leaves, a Query
    of [ys], and joining the two texts; the first error met is the error
    of the whole.  The identities and the flags of the Queries do not
    matter. *)
Theorem print_concatenates pv fuel (o o1 o2 : oid) (flags flags1 flags2 : N)
        (xs ys : list SQL) indent (st : CompileState) :
  print false pv (S fuel) (QUERY o (xs ++ ys) flags) indent st
  = (let* first := print false pv (S fuel) (QUERY o1 xs flags1) indent in
     let* second := print false pv (S fuel) (QUERY o2 ys flags2) indent in
     ret (first ++ second)%string) st.
Proof. apply print_query_app. Qed.

(* ================================================================== *)
(** * Templates and joins in production mode *)
(* ================================================================== *)

Lemma print_query_of_raw pv fuel (o o' : oid) (flags : N) (text : string) indent
      (st : CompileState) :
  print false pv (S fuel) (QUERY o' [RAW o text] flags) indent st = (Ok text, st).
Proof.
  rewrite print_unfold. cbn [length printItems printItem andb]. unfold bind, ret.
  destruct text as [|c r]; [reflexivity|].
  cbn [str_nonempty app]. now rewrite str_concat_singleton.
Qed.

Lemma print_query_of_nothing pv fuel (o : oid) (flags : N) indent (st : CompileState) :
  print false pv (S fuel) (QUERY o [] flags) indent st = (Ok "", st).
Proof. reflexivity. Qed.

(** Printing a fragment is printing the Query of its items. *)
Lemma print_items_of isDev pv fuel (o : oid) (flags : N) (sql : SQL) indent :
  print isDev pv (S fuel) sql indent
  = print isDev pv (S fuel)
      (QUERY o match sql with QUERY _ nodes _ => nodes | _ => [sql] end flags) indent.
Proof. rewrite !print_unfold. now destruct sql. Qed.

Lemma flat_nodes_app (a b : list SQL) :
  flat_nodes (a ++ b) = flat_nodes a && flat_nodes b.
Proof. unfold flat_nodes. apply forallb_app. Qed.

Lemma flat_items_of (sql : SQL) :
  built_node sql = true ->
  flat_nodes match sql with QUERY _ nodes _ => nodes | _ => [sql] end = true.
Proof. destruct sql; try reflexivity. intros H. exact H. Qed.

Lemma template_text_step pv fuel (text text' : string) (strings : list string)
      (v : SQL) (values : list SQL) indent :
  template_text pv fuel (text :: text' :: strings) (v :: values) indent
  = (let* inner := print false pv fuel v indent in
     let* rest := template_text pv fuel (text' :: strings) values indent in
     ret (text ++ inner ++ rest)%string).
Proof. reflexivity. Qed.

Lemma sql_loop_text (strings : list string) :
  forall values items st items' st',
    raw_cache_ok st ->
    sql_loop strings values items st = (Ok items', st') ->
    raw_cache_ok st'
    /\ exists added,
         items' = items ++ added
         /\ (Forall (fun v => built_node v = true) values -> flat_nodes added = true)
         /\ forall pv fuel o flags indent cs,
              print false pv (S fuel) (QUERY o added flags) indent cs
              = template_text pv (S fuel) strings values indent cs.
Proof.
  induction strings as [|text strings' IH]; intros values items st items' st' Hok Hrun.
  - injection Hrun as <- <-. split; [exact Hok|]. exists []. rewrite app_nil_r.
    repeat split; reflexivity.
  - cbn [sql_loop] in Hrun. unfold bind at 1 in Hrun.
    assert (Hpiece : exists piece st1,
               (if str_nonempty text
                then let* node := makeRawNode text in ret (items ++ [node])
                else ret items) st = (Ok (items ++ piece), st1)
               /\ raw_cache_ok st1
               /\ flat_nodes piece = true
               /\ forall pv fuel o flags indent cs,
                    print false pv (S fuel) (QUERY o piece flags) indent cs
                    = (Ok text, cs)).
    { destruct (str_nonempty text) eqn:Hne.
      - destruct (makeRawNode_ok text st Hok) as (o1 & st1 & Hraw & Hok1).
        exists [RAW o1 text], st1. unfold bind. rewrite Hraw.
        repeat split; [exact Hok1|]. intros. apply print_query_of_raw.
      - exists [], st. rewrite app_nil_r. destruct text; [|discriminate].
        repeat split; exact Hok. }
    destruct Hpiece as (piece & st1 & Hp & Hok1 & Hflat1 & Hprint1).
    rewrite Hp in Hrun.
    destruct strings' as [|text' strings''].
    + injection Hrun as <- <-. split; [exact Hok1|]. exists piece.
      repeat split; [now intros _|]. intros. cbn [template_text]. apply Hprint1.
    + destruct values as [|valid values']; [discriminate|].
      set (nodes := match valid with QUERY _ nodes _ => nodes | _ => [valid] end).
      assert (Hitems2 : match valid with
                        | QUERY _ nodes _ => (items ++ piece) ++ nodes
                        | _ => (items ++ piece) ++ [valid]
                        end = (items ++ piece) ++ nodes)
        by (now destruct valid).
      rewrite Hitems2 in Hrun.
      destruct (IH _ _ _ _ _ Hok1 Hrun) as (Hok' & added & -> & Hflat & Hprint).
      split; [exact Hok'|]. exists (piece ++ nodes ++ added).
      split; [now rewrite <- !app_assoc|]. split.
      * intros Hbuilt. apply Forall_cons in Hbuilt as [Hvalid Hrest].
        rewrite !flat_nodes_app, Hflat1, (Hflat Hrest).
        unfold nodes. now rewrite (flat_items_of _ Hvalid).
      * intros pv fuel o flags indent cs.
        rewrite (print_query_app pv fuel o 0 0 flags 0 0 piece (nodes ++ added)).
        unfold bind at 1. rewrite Hprint1. unfold bind at 1.
        rewrite (print_query_app pv fuel 0 0 0 0 0 0 nodes added).
        rewrite template_text_step.
        unfold bind, ret. unfold nodes.
        rewrite <- (print_items_of false pv fuel 0 0 valid).
        destruct (print false pv (S fuel) valid indent cs) as [[inner|e] cs1];
          [|reflexivity].
        rewrite Hprint.
        destruct (template_text pv (S fuel) (text' :: strings'') values' indent cs1)
          as [[rest|e] cs2]; reflexivity.
Qed.

(** X14: a template in production mode.  With a sound cache of Raw
    nodes, the template tag applied to two strings or more returns a new
    Query; when no value brought a Query among its own nodes, the Query
    has none among its nodes either; and the Query prints as the strings
    with the texts of the values in between, each value printed in the
    state the one before has left: a value that is a Query is spread
    into the new Query, and this changes nothing of the text. *)
Theorem sql_template_text
        (first second : string) (strings : list string) (values : list SQL)
        (st : ModuleState) (q : SQL) (st' : ModuleState) :
  raw_cache_ok st ->
  sql (first :: second :: strings) values st = (Ok q, st') ->
  raw_cache_ok st'
  /\ (exists nodes, q = QUERY (next_oid st' - 1) nodes 0
                    /\ (Forall (fun v => built_node v = true) values ->
                        flat_nodes nodes = true))
  /\ (forall pv fuel indent cs,
         print false pv (S fuel) q indent cs
         = template_text pv (S fuel) (first :: second :: strings) values indent cs).
Proof.
  intros Hok Hrun. unfold sql in Hrun. unfold bind in Hrun.
  destruct (sql_loop (first :: second :: strings) values [] st) as [[items|e] st1] eqn:Hloop;
    [|discriminate].
  destruct (sql_loop_text _ _ _ _ _ _ Hok Hloop) as (Hok1 & added & -> & Hflat & Hprint).
  cbn [app] in Hrun. unfold makeQueryNode, bind, alloc, ret in Hrun.
  injection Hrun as <- <-. cbn [next_oid].
  split; [exact Hok1|]. split.
  - exists added. split; [|exact Hflat]. f_equal. lia.
  - intros pv fuel indent cs. apply Hprint.
Qed.

(** X14 at a comparison of a column with a value. *)
Lemma sql_template_text_witness :
  print false None 1
    (QUERY 5 [IDENTIFIER 8 [NameString (quoted "id")]; RAW 4 " = "; VALUE 9 JNull] 0)
    0 initial_compile_state
  = template_text None 1 [""; " = "; ""]
      [IDENTIFIER 8 [NameString (quoted "id")]; VALUE 9 JNull] 0 initial_compile_state.
Proof.
  assert (Hrun : sql [""; " = "; ""]
                     [IDENTIFIER 8 [NameString (quoted "id")]; VALUE 9 JNull]
                     loaded_module_state
                 = (Ok (QUERY 5 [IDENTIFIER 8 [NameString (quoted "id")]; RAW 4 " = ";
                                 VALUE 9 JNull] 0),
                    mkModuleState 6
                      (lru_set " = " (RAW 4 " = ") (CACHE_RAW_NODES loaded_module_state)) ∅))
    by reflexivity.
  exact (proj2 (proj2 (sql_template_text _ _ _ _ _ _ _ raw_cache_ok_loaded Hrun))
           None 0 0 initial_compile_state).
Defined.

(** ** join *)

Lemma joined_text_step pv fuel (sep : string) (item next : SQL) (rest : list SQL) indent :
  joined_text pv fuel sep (item :: next :: rest) indent
  = (let* first := print false pv fuel item indent in
     let* others := joined_text pv fuel sep (next :: rest) indent in
     ret (first ++ sep ++ others)%string).
Proof. reflexivity. Qed.

Lemma join_loop_step (node : SQL) (rest : list SQL) (first hasSeparator : bool)
      (sepNode : SQL) (currentItems : list SQL) :
  join_loop (node :: rest) first hasSeparator sepNode currentItems
  = join_loop rest false hasSeparator sepNode
      match node with
      | QUERY _ nodes _ =>
          (if negb first && hasSeparator then currentItems ++ [sepNode] else currentItems)
            ++ nodes
      | _ =>
          (if negb first && hasSeparator then currentItems ++ [sepNode] else currentItems)
            ++ [node]
      end.
Proof. reflexivity. Qed.

Lemma join_loop_text (hasSeparator : bool) (sepNode : SQL) (sep : string) (o1 : oid) :
  sepNode = RAW o1 sep ->
  (hasSeparator = false -> sep = "") ->
  forall rest item currentItems,
    exists added,
      join_loop (item :: rest) false hasSeparator sepNode currentItems
      = currentItems ++ added
      /\ (Forall (fun v => built_node v = true) (item :: rest) -> flat_nodes added = true)
      /\ forall pv fuel o flags indent cs,
           print false pv (S fuel) (QUERY o added flags) indent cs
           = (let* others := joined_text pv (S fuel) sep (item :: rest) indent in
              ret (sep ++ others)%string) cs.
Proof.
  intros Hsep Hempty.
  assert (Hpiece : exists piece,
             (forall l, (if negb false && hasSeparator then l ++ [sepNode] else l)
                        = l ++ piece)
             /\ flat_nodes piece = true
             /\ forall pv fuel o flags indent cs,
                  print false pv (S fuel) (QUERY o piece flags) indent cs = (Ok sep, cs)).
  { destruct hasSeparator.
    - exists [sepNode]. subst sepNode. repeat split. intros. apply print_query_of_raw.
    - exists []. rewrite (Hempty eq_refl). repeat split. intros l. now rewrite app_nil_r. }
  destruct Hpiece as (piece & Hp & Hflatp & Hprintp).
  induction rest as [|next rest IH]; intros item currentItems.
  - set (nodes := match item with QUERY _ nodes _ => nodes | _ => [item] end).
    exists (piece ++ nodes). split; [|split].
    + rewrite join_loop_step, Hp. cbn [join_loop]. rewrite app_assoc. now destruct item.
    + intros Hbuilt. apply Forall_cons in Hbuilt as [Hitem _].
      rewrite flat_nodes_app, Hflatp. unfold nodes. now rewrite flat_items_of.
    + intros pv fuel o flags indent cs.
      rewrite (print_query_app pv fuel o 0 0 flags 0 0 piece nodes).
      unfold bind at 1. rewrite Hprintp. unfold bind, ret. unfold nodes.
      rewrite <- (print_items_of false pv fuel 0 0 item). cbn [joined_text].
      destruct (print false pv (S fuel) item indent cs) as [[text|e] cs1]; reflexivity.
  - set (nodes := match item with QUERY _ nodes _ => nodes | _ => [item] end).
    destruct (IH next (currentItems ++ piece ++ nodes)) as (added & Hloop & Hflat & Hprint).
    exists (piece ++ nodes ++ added). split; [|split].
    + rewrite join_loop_step, Hp.
      assert (Hw : match item with
                   | QUERY _ nodes0 _ => (currentItems ++ piece) ++ nodes0
                   | _ => (currentItems ++ piece) ++ [item]
                   end = currentItems ++ piece ++ nodes)
        by (unfold nodes; rewrite app_assoc; now destruct item).
      rewrite Hw, Hloop. now rewrite <- !app_assoc.
    + intros Hbuilt. apply Forall_cons in Hbuilt as [Hitem Hrest].
      rewrite !flat_nodes_app, Hflatp, (Hflat Hrest). unfold nodes.
      now rewrite flat_items_of.
    + intros pv fuel o flags indent cs.
      rewrite (print_query_app pv fuel o 0 0 flags 0 0 piece (nodes ++ added)).
      unfold bind at 1. rewrite Hprintp. unfold bind at 1.
      rewrite (print_query_app pv fuel 0 0 0 0 0 0 nodes added).
      rewrite joined_text_step. unfold bind, ret. unfold nodes.
      rewrite <- (print_items_of false pv fuel 0 0 item).
      destruct (print false pv (S fuel) item indent cs) as [[text|e] cs1]; [|reflexivity].
      rewrite Hprint. unfold bind, ret.
      destruct (joined_text pv (S fuel) sep (next :: rest) indent cs1)
        as [[others|e] cs2]; reflexivity.
Qed.

(** X15: [join] in production mode.  With a sound cache of Raw nodes,
    joining two items or more with a separator returns a new Query; when
    no item brought a Query among its own nodes, the Query has none among
    its nodes either; and the Query prints as the texts of the items, each
    printed in the state the one before has left, with the separator in
    between.  Joining no item returns the blank fragment, and joining one
    item returns the item itself; neither allocates. *)
Theorem join_text
        (first second : SQL) (rest : list SQL) (separator : string) (st : ModuleState) :
  raw_cache_ok st ->
  (exists o nodes st',
      join (first :: second :: rest) separator st = (Ok (QUERY o nodes 0), st')
      /\ raw_cache_ok st'
      /\ (Forall (fun v => built_node v = true) (first :: second :: rest) ->
          flat_nodes nodes = true)
      /\ forall pv fuel indent cs,
           print false pv (S fuel) (QUERY o nodes 0) indent cs
           = joined_text pv (S fuel) separator (first :: second :: rest) indent cs)
  /\ join [] separator st = (Ok blank, st)
  /\ join [first] separator st = (Ok first, st).
Proof.
  intros Hok. split; [|split; reflexivity].
  assert (Hsep : exists o1 st1,
             (if str_nonempty separator then makeRawNode separator else ret blank) st
             = (Ok (RAW o1 separator), st1)
             /\ raw_cache_ok st1).
  { destruct separator as [|c r].
    - exists 3%N, st. split; [reflexivity | exact Hok].
    - cbn [str_nonempty]. now apply makeRawNode_ok. }
  destruct Hsep as (o1 & st1 & Hsep & Hok1).
  destruct (join_loop_text (str_nonempty separator) (RAW o1 separator) separator o1
              eq_refl) with (rest := rest) (item := second)
              (currentItems := [] ++ match first with
                                     | QUERY _ nodes _ => nodes
                                     | _ => [first]
                                     end)
    as (added & Hloop & Hflat & Hprint).
  { now destruct separator. }
  set (nodes := match first with QUERY _ nodes _ => nodes | _ => [first] end) in *.
  exists (next_oid st1), (nodes ++ added), (after_alloc st1).
  split; [|split; [exact Hok1|split]].
  - unfold join. unfold bind at 1. rewrite Hsep.
    unfold makeQueryNode, bind, alloc, ret. rewrite join_loop_step. cbn [andb negb].
    assert (Hw : match first with
                 | QUERY _ nodes0 _ => [] ++ nodes0
                 | _ => [] ++ [first]
                 end = [] ++ nodes) by (unfold nodes; now destruct first).
    rewrite Hw, Hloop. reflexivity.
  - intros Hbuilt. apply Forall_cons in Hbuilt as [Hfirst Hrest].
    rewrite flat_nodes_app, (Hflat Hrest). unfold nodes. now rewrite flat_items_of.
  - intros pv fuel indent cs.
    rewrite (print_query_app pv fuel _ 0 0 _ 0 0 nodes added).
    rewrite joined_text_step. unfold bind, ret. unfold nodes.
    rewrite <- (print_items_of false pv fuel 0 0 first).
    destruct (print false pv (S fuel) first indent cs) as [[text|e] cs1]; [|reflexivity].
    rewrite Hprint. unfold bind, ret.
    destruct (joined_text pv (S fuel) separator (second :: rest) indent cs1)
      as [[others|e] cs2]; reflexivity.
Qed.

(** X15 at three values joined with a comma. *)
Lemma join_text_witness :
  exists o nodes st',
    join [VALUE 7 JNull; VALUE 8 JNull; VALUE 9 JNull] ", " loaded_module_state
    = (Ok (QUERY o nodes 0), st')
    /\ print false None 1 (QUERY o nodes 0) 0 initial_compile_state
       = joined_text None 1 ", " [VALUE 7 JNull; VALUE 8 JNull; VALUE 9 JNull] 0
           initial_compile_state.
Proof.
  destruct (join_text (VALUE 7 JNull) (VALUE 8 JNull) [VALUE 9 JNull] ", "
              loaded_module_state raw_cache_ok_loaded)
    as [(o & nodes & st' & Hrun & _ & _ & Hprint) _].
  exists o, nodes, st'. split; [exact Hrun | apply Hprint].
Defined.

(* ================================================================== *)
(** * The text does not depend on the values *)
(* ================================================================== *)

Lemma makeIdentifierForSymbol_set_values (name : SymbolAndName) (st : CompileState)
      (vs : list JsVal) :
  makeIdentifierForSymbol name (set_values vs st)
  = (fst (makeIdentifierForSymbol name st),
     set_values vs (snd (makeIdentifierForSymbol name st))).
Proof.
  unfold makeIdentifierForSymbol, bind, ret, descCounter_get, descCounter_set,
    symbolToIdentifier_set, modify, set_values.
  cbn [descCounter symbolToIdentifier valueCount values].
  destruct (read_truthy (property_get (descCounter st) (sn_n name))); reflexivity.
Qed.

Lemma mapNames_set_values (names : list Name) :
  forall mapped st vs,
    mapNames names mapped (set_values vs st)
    = (fst (mapNames names mapped st), set_values vs (snd (mapNames names mapped st))).
Proof.
  induction names as [|[str|name] rest IH]; intros mapped st vs.
  - reflexivity.
  - cbn [mapNames]. apply IH.
  - cbn [mapNames]. unfold bind, get, ret.
    change (symbolToIdentifier (set_values vs st)) with (symbolToIdentifier st).
    destruct (truthy_name (symbolToIdentifier st !! sn_s name)); [apply IH|].
    rewrite makeIdentifierForSymbol_set_values.
    destruct (makeIdentifierForSymbol name st) as [[alias|e] st1]; [apply IH | reflexivity].
Qed.

Section WithoutValues.

Variable isDev : bool.
Variable pv : option (gmap Symbol SQL).
Variables rec1 rec2 : SQL -> nat -> M CompileState string.

Hypothesis rec_without : forall sql indent st vs,
    exists vs',
      rec2 (without_values sql) indent (set_values vs st)
      = (fst (rec1 sql indent st), set_values vs' (snd (rec1 sql indent st))).

Lemma printItem_without_values itemCount indent itemIndex item frags st vs :
  exists vs',
    printItem isDev (without_supplied_values pv) rec2 itemCount indent itemIndex
              (without_values item) frags (set_values vs st)
    = (fst (printItem isDev pv rec1 itemCount indent itemIndex item frags st),
       set_values vs'
         (snd (printItem isDev pv rec1 itemCount indent itemIndex item frags st))).
Proof.
  destruct item as [o text|o names|o value|o content|o content force|o a b
                    |o symbol fallback|o nodes flags]; cbn [without_values printItem].
  - exists vs. destruct (str_nonempty text); [|reflexivity].
    unfold bind, ret, throw.
    destruct (isDev && _ && _); [|reflexivity].
    destruct (trim_before_semicolon frags); reflexivity.
  - exists vs. unfold bind, ret. rewrite mapNames_set_values.
    destruct (mapNames names [] st) as [[mapped|e] st1]; reflexivity.
  - unfold bind, modify, get, ret, throw, set_values.
    cbn [valueCount values symbolToIdentifier descCounter].
    destruct (65535 <? valueCount st + 1)%N; eexists; reflexivity.
  - destruct isDev; [|exists vs; reflexivity].
    destruct (rec_without content (indent + 1) st vs) as [vs' Hrec].
    exists vs'. unfold bind, ret. rewrite Hrec.
    destruct (rec1 content (indent + 1) st) as [[inner|e] st1]; reflexivity.
  - destruct (rec_without content indent st vs) as [vs' Hrec].
    exists vs'. unfold bind, ret. rewrite Hrec.
    destruct (rec1 content indent st) as [[inner|e] st1]; [|reflexivity].
    cbn [fst snd]. destruct (force || negb (isParensSafe inner)); reflexivity.
  - exists vs. unfold bind, get, ret, throw, symbolToIdentifier_set, modify.
    change (symbolToIdentifier (set_values vs st)) with (symbolToIdentifier st).
    destruct (truthy_name _ && truthy_name _ && _); [reflexivity|].
    destruct (truthy_name (symbolToIdentifier st !! sn_s a)); [reflexivity|].
    destruct (truthy_name (symbolToIdentifier st !! sn_s b)); [reflexivity|].
    rewrite makeIdentifierForSymbol_set_values.
    destruct (makeIdentifierForSymbol a st) as [[alias|e] st1]; reflexivity.
  - assert (Hres : match without_supplied_values pv ≫= (fun m => m !! symbol) with
                   | Some v => Some v
                   | None => match fallback with
                             | Some sql' => Some (without_values sql')
                             | None => None
                             end
                   end
                   = match match pv ≫= (fun m => m !! symbol) with
                           | Some v => Some v
                           | None => fallback
                           end with
                     | Some sql' => Some (without_values sql')
                     | None => None
                     end).
    { destruct pv as [m|]; cbn; [|reflexivity].
      rewrite lookup_fmap. destruct (m !! symbol); reflexivity. }
    rewrite Hres.
    destruct (match pv ≫= (fun m => m !! symbol) with
              | Some v => Some v
              | None => fallback
              end) as [resolved|]; [|exists vs; reflexivity].
    destruct (rec_without resolved indent st vs) as [vs' Hrec].
    exists vs'. unfold bind, ret. rewrite Hrec.
    destruct (rec1 resolved indent st) as [[inner|e] st1]; reflexivity.
  - exists vs. reflexivity.
Qed.

Lemma printItems_without_values itemCount indent (items : list SQL) :
  forall itemIndex frags st vs,
    exists vs',
      printItems isDev (without_supplied_values pv) rec2 itemCount indent
                 (map without_values items) itemIndex frags (set_values vs st)
      = (fst (printItems isDev pv rec1 itemCount indent items itemIndex frags st),
         set_values vs'
           (snd (printItems isDev pv rec1 itemCount indent items itemIndex frags st))).
Proof.
  induction items as [|item rest IH]; intros itemIndex frags st vs.
  - exists vs. reflexivity.
  - cbn [map printItems]. unfold bind.
    destruct (printItem_without_values itemCount indent itemIndex item frags st vs)
      as [vs1 Hitem].
    rewrite Hitem.
    destruct (printItem isDev pv rec1 itemCount indent itemIndex item frags st)
      as [[frags1|e] st1]; cbn [fst snd].
    + apply IH.
    + exists vs1. reflexivity.
Qed.

End WithoutValues.

Lemma print_without_values isDev pv (fuel : nat) :
  forall sql indent st vs,
    exists vs',
      print isDev (without_supplied_values pv) fuel (without_values sql) indent
            (set_values vs st)
      = (fst (print isDev pv fuel sql indent st),
         set_values vs' (snd (print isDev pv fuel sql indent st))).
Proof.
  induction fuel as [|fuel IH]; intros sql indent st vs.
  - exists vs. reflexivity.
  - rewrite !print_unfold. unfold bind, ret.
    assert (Hitems : match without_values sql with
                     | QUERY _ nodes _ => nodes
                     | _ => [without_values sql]
                     end
                     = map without_values
                         match sql with QUERY _ nodes _ => nodes | _ => [sql] end)
      by (now destruct sql).
    rewrite Hitems, length_map.
    destruct (printItems_without_values isDev pv _ _ IH
                (length match sql with QUERY _ nodes _ => nodes | _ => [sql] end)
                indent match sql with QUERY _ nodes _ => nodes | _ => [sql] end
                0 [] st vs) as [vs' Hrun].
    exists vs'. rewrite Hrun.
    destruct (printItems isDev pv (print isDev pv fuel) _ indent _ 0 [] st)
      as [[frags|e] st1]; reflexivity.
Qed.

(** X16: the text that [compile] returns does not depend on what the
    Value nodes hold.  Replacing the payload of every Value node, in the
    fragment and in the fragments supplied for placeholders, changes
    neither the text nor the error; so two fragments that differ in the
    payloads of their Value nodes alone compile to the same text.  What a
    Value node holds reaches the values array only. *)
Theorem compile_text_ignores_values :
  (forall isDev pv fuel sql,
      result_text (compile isDev (without_supplied_values pv) fuel (without_values sql))
      = result_text (compile isDev pv fuel sql))
  /\ (forall isDev pv1 pv2 fuel sql1 sql2,
         without_values sql1 = without_values sql2 ->
         without_supplied_values pv1 = without_supplied_values pv2 ->
         result_text (compile isDev pv1 fuel sql1)
         = result_text (compile isDev pv2 fuel sql2)).
Proof.
  assert (H : forall isDev pv fuel sql,
             result_text (compile isDev (without_supplied_values pv) fuel
                                  (without_values sql))
             = result_text (compile isDev pv fuel sql)).
  { intros isDev pv fuel sql. unfold compile.
    destruct (print_without_values isDev pv fuel sql 0 initial_compile_state [])
      as [vs' Hrun].
    change (set_values [] initial_compile_state) with initial_compile_state in Hrun.
    rewrite Hrun.
    destruct (print isDev pv fuel sql 0 initial_compile_state) as [[text|e] st1];
      reflexivity. }
  split; [exact H|].
  intros isDev pv1 pv2 fuel sql1 sql2 Hsql Hpv.
  rewrite <- (H isDev pv1), <- (H isDev pv2). now rewrite Hsql, Hpv.
Qed.

(* ================================================================== *)
(** * getSubstitute *)
(* ================================================================== *)

Section Substitutes.

Variable subs : option (gmap Symbol Symbol).

Lemma follow_add (a b : nat) (symbol : Symbol) :
  follow subs (a + b) symbol
  = match follow subs a symbol with
    | Some mid => follow subs b mid
    | None => None
    end.
Proof.
  revert symbol. induction a as [|a IH]; intros symbol; [reflexivity|].
  cbn [Nat.add follow]. destruct (substitute_of subs symbol); [apply IH | reflexivity].
Qed.

(** A chain of substitutions that ends does not come back to a symbol
    it has left. *)
Lemma follow_no_cycle (n k : nat) (symbol r : Symbol) :
  follow subs n symbol = Some r ->
  substitute_of subs r = None ->
  1 <= k ->
  follow subs k symbol <> Some symbol.
Proof.
  intros Hn Hr Hk Hcycle.
  pose proof (follow_add k n symbol) as H1. rewrite Hcycle, Hn in H1.
  pose proof (follow_add n k symbol) as H2. rewrite Hn in H2.
  replace (n + k) with (k + n) in H2 by lia. rewrite H1 in H2.
  destruct k as [|k]; [lia|]. cbn [follow] in H2. rewrite Hr in H2. discriminate.
Qed.

Lemma getSubstitute_loop_sound (remaining : nat) :
  forall path symbol r,
    getSubstitute_loop subs remaining path symbol = Ok r ->
    exists n, n < remaining /\ follow subs n symbol = Some r
              /\ substitute_of subs r = None.
Proof.
  induction remaining as [|remaining IH]; intros path symbol r; [discriminate|].
  cbn [getSubstitute_loop]. case_bool_decide; [discriminate|].
  fold (substitute_of subs symbol).
  destruct (substitute_of subs symbol) as [sub|] eqn:Hsub.
  - case_bool_decide; [discriminate|]. intros Hrun.
    destruct (IH _ _ _ Hrun) as (n & Hn & Hfollow & Hend).
    exists (S n). split; [lia|]. split; [|exact Hend].
    cbn [follow]. now rewrite Hsub.
  - intros [= <-]. exists 0. split; [lia|]. split; [reflexivity | exact Hsub].
Qed.

Lemma getSubstitute_loop_complete (remaining : nat) :
  forall n path symbol r,
    n < remaining ->
    follow subs n symbol = Some r ->
    substitute_of subs r = None ->
    (forall p, p ∈ path -> exists k, 1 <= k /\ follow subs k p = Some symbol) ->
    getSubstitute_loop subs remaining path symbol = Ok r.
Proof.
  induction remaining as [|remaining IH]; intros n path symbol r Hn Hfollow Hend Hpath;
    [lia|].
  cbn [getSubstitute_loop]. case_bool_decide as Hin.
  - exfalso. destruct (Hpath _ Hin) as (k & Hk & Hcycle).
    exact (follow_no_cycle n k symbol r Hfollow Hend Hk Hcycle).
  - fold (substitute_of subs symbol).
    destruct n as [|n].
    + injection Hfollow as <-. now rewrite Hend.
    + cbn [follow] in Hfollow.
      destruct (substitute_of subs symbol) as [sub|] eqn:Hsub; [|discriminate].
      case_bool_decide as Hself.
      * exfalso. subst sub.
        apply (follow_no_cycle (S n) 1 symbol r); [|exact Hend|lia|].
        -- cbn [follow]. now rewrite Hsub.
        -- cbn [follow]. now rewrite Hsub.
      * apply (IH n); [lia | exact Hfollow | exact Hend |].
        intros p Hp. apply elem_of_app in Hp as [Hp|Hp].
        -- destruct (Hpath _ Hp) as (k & Hk & Hreach).
           exists (k + 1). split; [lia|]. rewrite follow_add, Hreach.
           cbn [follow]. now rewrite Hsub.
        -- apply list_elem_of_singleton in Hp. subst p.
           exists 1. split; [lia|]. cbn [follow]. now rewrite Hsub.
Qed.

Lemma getSubstitute_loop_self (remaining : nat) (symbol : Symbol) :
  substitute_of subs symbol = Some symbol ->
  getSubstitute_loop subs (S remaining) [] symbol = Throw SelfSubstitute.
Proof.
  intros Hself. cbn [getSubstitute_loop].
  rewrite bool_decide_eq_false_2 by apply not_elem_of_nil.
  fold (substitute_of subs symbol). rewrite Hself.
  now rewrite bool_decide_eq_true_2.
Qed.

End Substitutes.

(** X17: what [getSubstitute] returns.  It returns [r] exactly when
    following the substitutes from the symbol comes, after fewer than
    1000 substitutions, to [r] and [r] has no substitute; in every other
    case it raises.  So the symbol returned never has a substitute, the
    result for it is itself, and without a table of substitutes every
    symbol is returned as it is.  A symbol that is its own substitute
    raises the error of the self-substitute. *)
Theorem getSubstitute_follows :
  (forall subs symbol r,
      getSubstitute subs symbol = Ok r
      <-> exists n, n < 1000 /\ follow subs n symbol = Some r
                    /\ substitute_of subs r = None)
  /\ (forall subs symbol r,
         getSubstitute subs symbol = Ok r -> getSubstitute subs r = Ok r)
  /\ (forall symbol, getSubstitute None symbol = Ok symbol)
  /\ (forall subs symbol,
         substitute_of subs symbol = Some symbol ->
         getSubstitute subs symbol = Throw SelfSubstitute).
Proof.
  assert (Hiff : forall subs symbol r,
             getSubstitute subs symbol = Ok r
             <-> exists n, n < 1000 /\ follow subs n symbol = Some r
                           /\ substitute_of subs r = None).
  { intros subs symbol r. unfold getSubstitute. split.
    - apply getSubstitute_loop_sound.
    - intros (n & Hn & Hfollow & Hend).
      apply (getSubstitute_loop_complete subs 1000 n); auto.
      intros p Hp. now apply elem_of_nil in Hp. }
  split; [exact Hiff|]. split.
  - intros subs symbol r Hrun. apply Hiff in Hrun as (n & _ & _ & Hend).
    apply Hiff. exists 0. split; [lia|]. split; [reflexivity | exact Hend].
  - split.
    + intros symbol. apply Hiff. exists 0. split; [lia|]. split; reflexivity.
    + intros subs symbol Hself. unfold getSubstitute.
      change 1000 with (S 999). now apply getSubstitute_loop_self.
Qed.

(* ================================================================== *)
(** * isEquivalent without substitutes is symmetric *)
(* ================================================================== *)

Lemma bool_decide_sym {A} `{EqDecision A} (x y : A) :
  bool_decide (x = y) = bool_decide (y = x).
Proof. apply bool_decide_ext. split; congruence. Qed.

Lemma eqb_sym (a b : bool) : Bool.eqb a b = Bool.eqb b a.
Proof. now destruct a, b. Qed.

Lemma strict_equal_sym (x y : JsVal) : strict_equal x y = strict_equal y x.
Proof.
  destruct x as [| |a|a|a|a|a ?|a ?], y as [| |b|b|b|b|b ?|b ?]; try reflexivity;
    cbn [strict_equal].
  - apply eqb_sym.
  - destruct a, b; try reflexivity; cbn [number_strict_equal].
    + apply Z.eqb_sym.
    + apply bool_decide_sym.
    + apply bool_decide_sym.
    + apply eqb_sym.
  - apply bool_decide_sym.
  - apply bool_decide_sym.
  - apply N.eqb_sym.
  - apply N.eqb_sym.
Qed.

Lemma same_object_sym (a b : SQL) : same_object a b = same_object b a.
Proof. apply N.eqb_sym. Qed.

Lemma arraysMatch_loop_sym {T} (cmp : T -> T -> result bool) (xs : list T) :
  Forall (fun x => forall y, cmp x y = cmp y x) xs ->
  forall ys, length xs = length ys ->
             arraysMatch_loop cmp xs ys = arraysMatch_loop cmp ys xs.
Proof.
  induction 1 as [|x xs Hx _ IH]; intros [|y ys] Hlen; try discriminate; [reflexivity|].
  cbn [arraysMatch_loop]. rewrite (Hx y).
  destruct (cmp y x) as [[]|]; try reflexivity. apply IH. now injection Hlen.
Qed.

Lemma arraysMatch_sym {T} (cmp : T -> T -> result bool) (id1 id2 : oid) (xs ys : list T) :
  Forall (fun x => forall y, cmp x y = cmp y x) xs ->
  arraysMatch cmp id1 id2 xs ys = arraysMatch cmp id2 id1 ys xs.
Proof.
  intros Hsym. unfold arraysMatch. rewrite (N.eqb_sym id2 id1).
  destruct (id1 =? id2)%N; [reflexivity|].
  rewrite (bool_decide_sym (length ys) (length xs)).
  case_bool_decide as Hlen; [|reflexivity].
  now apply arraysMatch_loop_sym.
Qed.

Lemma getSubstitute_none (symbol : Symbol) : getSubstitute None symbol = Ok symbol.
Proof. reflexivity. Qed.

Lemma identifiersAreEquivalent_sym (ids1 ids2 : Name) :
  identifiersAreEquivalent None ids1 ids2 = identifiersAreEquivalent None ids2 ids1.
Proof.
  destruct ids1 as [a|a], ids2 as [b|b]; cbn [identifiersAreEquivalent]; try reflexivity.
  - f_equal. apply bool_decide_sym.
  - rewrite !getSubstitute_none. cbn [result_bind]. f_equal.
    now rewrite (bool_decide_sym (sn_n a)), (bool_decide_sym (sn_s a)).
Qed.

Lemma isEquivalent_sql_sym (sql1 : SQL) :
  forall sql2, isEquivalent_sql None sql1 sql2 = isEquivalent_sql None sql2 sql1.
Proof.
  induction sql1 as [o text|o names|o value|o content IH|o content force IH
                     |o a b|o symbol fallback _|o nodes flags IH]
    using SQL_nested_ind; intros sql2;
    destruct sql2 as [o2 text2|o2 names2|o2 value2|o2 content2|o2 content2 force2
                      |o2 a2 b2|o2 symbol2 fallback2|o2 nodes2 flags2];
    cbn [isEquivalent_sql is_query];
    match goal with
    | |- (if same_object ?x ?y then _ else _) = _ =>
        rewrite (same_object_sym y x); destruct (same_object x y)
    end; try reflexivity.
  - f_equal. apply bool_decide_sym.
  - apply arraysMatch_sym. rewrite Forall_forall. intros x _ y.
    apply identifiersAreEquivalent_sym.
  - f_equal. apply strict_equal_sym.
  - apply IH.
  - rewrite (eqb_sym force2 force). destruct (negb (Bool.eqb force force2)); [reflexivity|].
    apply IH.
  - rewrite !getSubstitute_none. cbn [result_bind]. f_equal. apply bool_decide_sym.
  - apply arraysMatch_sym. exact IH.
Qed.

Lemma arraysMatch_answers {T} (cmp : T -> T -> result bool) (id1 id2 : oid)
      (xs ys : list T) :
  Forall (fun x => forall y, exists answer, cmp x y = Ok answer) xs ->
  exists answer, arraysMatch cmp id1 id2 xs ys = Ok answer.
Proof.
  intros Hcmp. unfold arraysMatch.
  destruct (id1 =? id2)%N; [now exists true|].
  case_bool_decide; [|now exists false].
  clear H. revert ys. induction Hcmp as [|x xs Hx _ IH]; intros ys.
  - exists true. now destruct ys.
  - destruct ys as [|y ys]; [now exists true|].
    cbn [arraysMatch_loop]. destruct (Hx y) as [[] ->]; [apply IH | now exists false].
Qed.

Lemma isEquivalent_sql_answers (sql1 : SQL) :
  forall sql2, exists answer, isEquivalent_sql None sql1 sql2 = Ok answer.
Proof.
  induction sql1 as [o text|o names|o value|o content IH|o content force IH
                     |o a b|o symbol fallback _|o nodes flags IH]
    using SQL_nested_ind; intros sql2;
    destruct sql2 as [o2 text2|o2 names2|o2 value2|o2 content2|o2 content2 force2
                      |o2 a2 b2|o2 symbol2 fallback2|o2 nodes2 flags2];
    cbn [isEquivalent_sql is_query];
    match goal with
    | |- exists _, (if same_object ?x ?y then _ else _) = _ =>
        destruct (same_object x y)
    end; try (eexists; reflexivity).
  - apply arraysMatch_answers. rewrite Forall_forall. intros x _ y.
    destruct x as [s|s], y as [t|t]; cbn [identifiersAreEquivalent];
      rewrite ?getSubstitute_none; eexists; reflexivity.
  - apply IH.
  - destruct (negb (Bool.eqb force2 force)); [now exists false | apply IH].
  - apply arraysMatch_answers. exact IH.
Qed.

(** X18: without a table of substitutes [isEquivalent] is symmetric: on
    fragments and on bare symbols the two orders of the arguments give
    the same answer, and neither raises.  With a table it is not: a bare
    symbol is equivalent to its substitute, but the substitute is not
    equivalent to the symbol. *)
Theorem isEquivalent_symmetric :
  (forall sql1 sql2, isEquivalent None sql1 sql2 = isEquivalent None sql2 sql1)
  /\ (forall sql1 sql2, exists answer, isEquivalent None sql1 sql2 = Ok answer)
  /\ (forall symbol sub,
         symbol <> sub ->
         isEquivalent (Some {[symbol := sub]}) (IsSymbol symbol) (IsSymbol sub) = Ok true
         /\ isEquivalent (Some {[symbol := sub]}) (IsSymbol sub) (IsSymbol symbol)
            = Ok false).
Proof.
  split; [|split].
  - intros [sql1|s1] [sql2|s2]; cbn [isEquivalent]; try reflexivity.
    + apply isEquivalent_sql_sym.
    + cbn. rewrite (bool_decide_sym s2 s1).
      destruct (bool_decide (s1 = s2)); reflexivity.
  - intros [sql1|s1] [sql2|s2]; cbn [isEquivalent]; try (eexists; reflexivity).
    + apply isEquivalent_sql_answers.
    + cbn. destruct (bool_decide (s1 = s2)); eexists; reflexivity.
  - intros symbol sub Hne. cbn [isEquivalent]. split.
    + rewrite bool_decide_eq_false_2 by exact Hne. cbn.
      rewrite lookup_singleton_eq. now rewrite bool_decide_eq_true_2.
    + rewrite bool_decide_eq_false_2 by congruence. cbn.
      rewrite lookup_singleton_ne by exact Hne.
      now rewrite bool_decide_eq_false_2.
Qed.

(** ** arraysMatch *)

Lemma arraysMatch_loop_true {T} (cmp : T -> T -> result bool) (xs : list T) :
  forall ys, length xs = length ys ->
             (arraysMatch_loop cmp xs ys = Ok true
              <-> Forall2 (fun x y => cmp x y = Ok true) xs ys).
Proof.
  induction xs as [|x xs IH]; intros [|y ys] Hlen; try discriminate.
  - split; [constructor | reflexivity].
  - injection Hlen as Hlen. cbn [arraysMatch_loop]. split.
    + destruct (cmp x y) as [[]|] eqn:Hxy; try discriminate.
      intros H. constructor; [exact Hxy | now apply IH].
    + intros H. apply Forall2_cons in H as [-> H]. now apply IH.
Qed.

Lemma arraysMatch_true {T} (cmp : T -> T -> result bool) (id1 id2 : oid) (xs ys : list T) :
  arraysMatch cmp id1 id2 xs ys = Ok true
  <-> id1 = id2 \/ Forall2 (fun x y => cmp x y = Ok true) xs ys.
Proof.
  unfold arraysMatch. destruct (N.eqb_spec id1 id2) as [Heq|Hne].
  - split; [now left | reflexivity].
  - case_bool_decide as Hlen.
    + rewrite (arraysMatch_loop_true cmp xs ys Hlen). split; [now right|].
      now intros [?|?].
    + split; [discriminate|]. intros [?|H]; [contradiction|].
      apply Forall2_length in H. contradiction.
Qed.

(** X27: [arraysMatch] with a comparator.  It answers true exactly when
    the two arrays are the same array or have the same length and the
    comparator answers true on every pair; and it stops at the first pair
    on which the comparator does not answer true, so that what the
    comparator would do on a later pair, be it to raise, is of no
    account. *)
Theorem arraysMatch_true_iff {T} (cmp : T -> T -> result bool) (id1 id2 : oid)
        (xs ys : list T) :
  (arraysMatch cmp id1 id2 xs ys = Ok true
   <-> id1 = id2 \/ Forall2 (fun x y => cmp x y = Ok true) xs ys)
  /\ (forall x y xs' ys' r,
         id1 <> id2 -> length xs' = length ys' ->
         Forall2 (fun x y => cmp x y = Ok true) xs ys ->
         cmp x y = r -> r <> Ok true ->
         arraysMatch cmp id1 id2 (xs ++ x :: xs') (ys ++ y :: ys')
         = match r with Ok _ => Ok false | Throw e => Throw e end).
Proof.
  split; [apply arraysMatch_true|].
  intros x y xs' ys' r Hne Hlen Hprefix Hxy Hr. unfold arraysMatch.
  {
    destruct (N.eqb_spec id1 id2) as [Heq|_]; [contradiction|].
    rewrite bool_decide_eq_true_2
      by (rewrite !length_app; cbn [length]; apply Forall2_length in Hprefix; lia).
    induction Hprefix as [|x0 y0 xs0 ys0 H0 _ IH].
    + cbn [app arraysMatch_loop]. rewrite Hxy.
      destruct r as [[]|]; [congruence | reflexivity | reflexivity].
    + cbn [app arraysMatch_loop]. rewrite H0. exact IH. }
Qed.

(* ================================================================== *)
(** * replaceSymbol renames the needle *)
(* ================================================================== *)

Section Renaming.

Variable needle : Symbol.
Variable replacement : Symbol.

Lemma replaceNames_symbols (names : list Name) :
  name_symbols (snd (replaceNames needle replacement names))
  = map (renamed needle replacement) (name_symbols names)
  /\ (fst (replaceNames needle replacement names) = false ->
      map (renamed needle replacement) (name_symbols names) = name_symbols names).
Proof.
  induction names as [|[str|sn] rest [IHs IHu]]; [split; reflexivity| |].
  - cbn [replaceNames]. destruct (replaceNames needle replacement rest) as [changed newNames].
    split; [exact IHs | exact IHu].
  - cbn [replaceNames]. destruct (replaceNames needle replacement rest) as [changed newNames].
    cbn [fst snd] in *. unfold name_symbols in *. cbn [flat_map app map].
    unfold renamed at 1 3. case_bool_decide as Hn; cbn [fst snd flat_map app].
    + split; [now rewrite IHs | discriminate].
    + split; [now rewrite IHs | intros Hc; now rewrite (IHu Hc)].
Qed.

(** What a call on [frag] in the state [st] has done when it returns
    [r] in the state [st']. *)
Definition renames (st : ModuleState) (frag r : SQL) (st' : ModuleState) : Prop :=
  symbols_of r = map (renamed needle replacement) (symbols_of frag)
  /\ (r = frag \/ (next_oid st <= oid_of r)%N)
  /\ (next_oid st <= next_oid st')%N.

Lemma replaceNodes_renames (nodes : list SQL) :
  Forall (fun node => forall st r st' bound,
              oids_below bound node = true -> (bound <= next_oid st)%N ->
              replaceSymbolInNode needle replacement node st = (Ok r, st') ->
              renames st node r st') nodes ->
  forall st changed newNodes st' bound,
    forallb (oids_below bound) nodes = true -> (bound <= next_oid st)%N ->
    replaceNodes (replaceSymbolInNode needle replacement) nodes st
    = (Ok (changed, newNodes), st') ->
    flat_map symbols_of newNodes
    = map (renamed needle replacement) (flat_map symbols_of nodes)
    /\ (changed = false -> newNodes = nodes)
    /\ (next_oid st <= next_oid st')%N.
Proof.
  induction 1 as [|node rest Hnode _ IH]; intros st changed newNodes st' bound Hb Hle Hrun.
  - injection Hrun as <- <- <-. repeat split. lia.
  - cbn [replaceNodes] in Hrun. unfold bind at 1 in Hrun.
    cbn [forallb] in Hb. apply andb_true_iff in Hb as [Hbnode Hbrest].
    destruct (replaceSymbolInNode needle replacement node st) as [[newNode|e] st1] eqn:H1;
      [|discriminate].
    destruct (Hnode _ _ _ _ Hbnode Hle H1) as (Hsym & Hfresh & Hle1).
    unfold bind at 1 in Hrun.
    destruct (replaceNodes _ rest st1) as [[[changed' newRest]|e] st2] eqn:H2;
      [|discriminate].
    injection Hrun as <- <- <-.
    assert (Hle' : (bound <= next_oid st1)%N) by lia.
    destruct (IH _ _ _ _ bound Hbrest Hle' H2) as (Hsyms & Hsame & Hle2).
    split; [|split; [|lia]].
    + cbn [flat_map]. now rewrite map_app, Hsym, Hsyms.
    + intros Hc. apply orb_false_iff in Hc as [Hobj Hc].
      rewrite (Hsame Hc). f_equal.
      destruct Hfresh as [->|Hfresh]; [reflexivity|].
      apply negb_false_iff in Hobj. unfold same_object in Hobj.
      apply N.eqb_eq in Hobj.
      assert (Hnode_below : (oid_of node <? bound)%N = true)
        by (destruct node; cbn [oids_below] in Hbnode;
            now apply andb_true_iff in Hbnode as [-> _]).
      apply N.ltb_lt in Hnode_below. lia.
Qed.

Lemma replaceSymbol_body_renames (frag : SQL) :
  (forall st r st' bound,
      oids_below bound frag = true -> (bound <= next_oid st)%N ->
      replaceSymbolInNode needle replacement frag st = (Ok r, st') ->
      renames st frag r st')
  /\ (forall st r st' bound,
         oids_below bound frag = true -> (bound <= next_oid st)%N ->
         replaceSymbol_body (replaceSymbolInNode needle replacement) frag st = (Ok r, st') ->
         renames st frag r st').
Proof.
  induction frag as [o text|o names|o value|o content IH|o content force IH
                     |o a b|o symbol fallback _|o nodes flags IH]
    using SQL_nested_ind.
  - assert (H : forall st r st',
               replaceSymbolInNode needle replacement (RAW o text) st = (Ok r, st') ->
               renames st (RAW o text) r st').
    { intros st r st' [= <- <-]. repeat split; [now left | lia]. }
    split; intros; now apply H.
  - assert (H : forall st r st',
               replaceSymbolInNode needle replacement (IDENTIFIER o names) st = (Ok r, st') ->
               renames st (IDENTIFIER o names) r st').
    { intros st r st'. cbn [replaceSymbolInNode].
      destruct (replaceNames_symbols names) as [Hs Hu].
      destruct (replaceNames needle replacement names) as [[] newNames]; cbn [fst snd] in *.
      - intros [= <- <-]. split; [exact Hs|]. split; [right; cbn; lia | cbn; lia].
      - intros [= <- <-]. split; [cbn [symbols_of]; now rewrite Hu|].
        split; [now left | lia]. }
    split; intros; now apply H.
  - assert (H : forall st r st',
               replaceSymbolInNode needle replacement (VALUE o value) st = (Ok r, st') ->
               renames st (VALUE o value) r st').
    { intros st r st'. cbn [replaceSymbolInNode].
      destruct (strict_equal value (JSymbol needle)).
      - intros [= <- <-]. split; [reflexivity|]. split; [right; cbn; lia | cbn; lia].
      - intros [= <- <-]. split; [reflexivity|]. split; [now left | lia]. }
    split; intros; now apply H.
  - destruct IH as [_ IHbody].
    assert (H : forall st r st' bound,
               oids_below bound (INDENT o content) = true -> (bound <= next_oid st)%N ->
               replaceSymbolInNode needle replacement (INDENT o content) st = (Ok r, st') ->
               renames st (INDENT o content) r st').
    { intros st r st' bound Hb Hle. cbn [replaceSymbolInNode]. unfold bind.
      cbn [oids_below] in Hb. apply andb_true_iff in Hb as [_ Hb].
      destruct (replaceSymbol_body _ content st) as [[newContent|e] st1] eqn:H1;
        [|discriminate].
      destruct (IHbody _ _ _ _ Hb Hle H1) as (Hsym & _ & Hle1).
      intros [= <- <-]. split; [exact Hsym|]. split; [right; cbn; lia | cbn; lia]. }
    split; intros; eapply H; eauto.
  - destruct IH as [_ IHbody].
    assert (H : forall st r st' bound,
               oids_below bound (PARENS o content force) = true -> (bound <= next_oid st)%N ->
               replaceSymbolInNode needle replacement (PARENS o content force) st
               = (Ok r, st') ->
               renames st (PARENS o content force) r st').
    { intros st r st' bound Hb Hle. cbn [replaceSymbolInNode]. unfold bind.
      cbn [oids_below] in Hb. apply andb_true_iff in Hb as [_ Hb].
      destruct (replaceSymbol_body _ content st) as [[newContent|e] st1] eqn:H1;
        [|discriminate].
      destruct (IHbody _ _ _ _ Hb Hle H1) as (Hsym & _ & Hle1).
      intros [= <- <-]. split; [exact Hsym|]. split; [right; cbn; lia | cbn; lia]. }
    split; intros; eapply H; eauto.
  - assert (H : forall st r st',
               replaceSymbolInNode needle replacement (SYMBOL_ALIAS o a b) st = (Ok r, st') ->
               renames st (SYMBOL_ALIAS o a b) r st').
    { intros st r st'. cbn [replaceSymbolInNode].
      fold (renamed needle replacement (sn_s a)). fold (renamed needle replacement (sn_s b)).
      destruct (negb (bool_decide (renamed needle replacement (sn_s a) = sn_s a))
                || negb (bool_decide (renamed needle replacement (sn_s b) = sn_s b)))
        eqn:Hc.
      - intros [= <- <-]. split; [reflexivity|]. split; [right; cbn; lia | cbn; lia].
      - intros [= <- <-]. apply orb_false_iff in Hc as [Ha Hb].
        apply negb_false_iff, bool_decide_eq_true_1 in Ha, Hb.
        split; [cbn [symbols_of map]; now rewrite Ha, Hb|]. split; [now left | lia]. }
    split; intros; now apply H.
  - assert (H : forall st r st',
               replaceSymbolInNode needle replacement (PLACEHOLDER o symbol fallback) st
               = (Ok r, st') ->
               renames st (PLACEHOLDER o symbol fallback) r st').
    { intros st r st'. cbn [replaceSymbolInNode].
      case_bool_decide as Hn.
      - intros [= <- <-]. split.
        + cbn [symbols_of map]. unfold renamed. now rewrite bool_decide_eq_true_2.
        + split; [right; cbn; lia | cbn; lia].
      - intros [= <- <-]. split.
        + cbn [symbols_of map]. unfold renamed. now rewrite bool_decide_eq_false_2.
        + split; [now left | lia]. }
    split; intros; now apply H.
  - split; [discriminate|].
    intros st r st' bound Hb Hle. cbn [replaceSymbol_body]. unfold bind.
    cbn [oids_below] in Hb. apply andb_true_iff in Hb as [_ Hb].
    destruct (replaceNodes _ nodes st) as [[[changed newNodes]|e] st1] eqn:H1;
      [|discriminate].
    assert (Hnodes : Forall (fun node => forall st r st' bound,
                                 oids_below bound node = true -> (bound <= next_oid st)%N ->
                                 replaceSymbolInNode needle replacement node st = (Ok r, st') ->
                                 renames st node r st') nodes).
    { eapply Forall_impl; [exact IH|]. intros node [Hn _]. exact Hn. }
    destruct (replaceNodes_renames nodes Hnodes _ _ _ _ bound Hb Hle H1)
      as (Hsym & Hsame & Hle1).
    destruct changed.
    + intros [= <- <-]. split; [exact Hsym|]. split; [right; cbn; lia | cbn; lia].
    + intros [= <- <-]. split; [|split; [now left | lia]].
      cbn [symbols_of]. now rewrite <- Hsym, (Hsame eq_refl).
Qed.

End Renaming.

(** X19: [replaceSymbol] renames the needle and nothing else.  In a
    state in which every node of the fragment has been allocated, when
    [replaceSymbol] returns, the symbols of the result (the tokens of
    the Identifier names, the sides of the SymbolAlias nodes, the handles
    of the Placeholders) are those of the fragment in the same order,
    with the replacement wherever the needle stood.  So the needle is
    gone from them when the replacement is another symbol.  The fallback
    of a Placeholder is not entered: a needle in it stays. *)
Theorem replaceSymbol_renames
        (needle replacement : Symbol) (frag : SQL) (st : ModuleState) (r : SQL)
        (st' : ModuleState) :
  oids_below (next_oid st) frag = true ->
  replaceSymbol needle replacement frag st = (Ok r, st') ->
  symbols_of r = map (renamed needle replacement) (symbols_of frag)
  /\ (needle <> replacement -> needle ∉ symbols_of r)
  /\ (forall o fallback st0,
         replaceSymbol needle replacement (PLACEHOLDER o needle (Some fallback)) st0
         = (Ok (PLACEHOLDER (next_oid st0) replacement (Some fallback)), after_alloc st0)).
Proof.
  intros Hb Hrun.
  destruct (proj2 (replaceSymbol_body_renames needle replacement frag)
              st r st' (next_oid st) Hb (N.le_refl _) Hrun) as (Hsym & _ & _).
  split; [exact Hsym|]. split.
  - intros Hne Hin. rewrite Hsym in Hin. apply list_elem_of_fmap in Hin as (s & Hs & _).
    unfold renamed in Hs. case_bool_decide; congruence.
  - intros o fallback st0. unfold replaceSymbol, replaceSymbol_body.
    cbn [replaceSymbolInNode]. now rewrite bool_decide_eq_true_2.
Qed.

(** X19 at the comparison of two columns of the same token. *)
Lemma replaceSymbol_renames_witness :
  symbols_of
    (QUERY 9 [IDENTIFIER 8 [NameSymbol (getSymbolAndName token_b); NameString (quoted "id")];
              RAW 5 " = ";
              IDENTIFIER 6 [NameSymbol (getSymbolAndName user_rows)]] 0)
  = map (renamed token_a token_b)
      (symbols_of
         (QUERY 7 [IDENTIFIER 4 [NameSymbol (getSymbolAndName token_a); NameString (quoted "id")];
                   RAW 5 " = ";
                   IDENTIFIER 6 [NameSymbol (getSymbolAndName user_rows)]] 0)).
Proof.
  exact (proj1 (replaceSymbol_renames token_a token_b
                  (QUERY 7 [IDENTIFIER 4 [NameSymbol (getSymbolAndName token_a);
                                          NameString (quoted "id")];
                            RAW 5 " = ";
                            IDENTIFIER 6 [NameSymbol (getSymbolAndName user_rows)]] 0)
                  (mkModuleState 8 (CACHE_RAW_NODES loaded_module_state) ∅)
                  _ _ eq_refl eq_refl)).
Defined.

(** ** When replaceSymbol raises *)

Section ReplaceOutcome.

Variable needle : Symbol.
Variable replacement : Symbol.

Lemma replaceNodes_outcome (nodes : list SQL) :
  Forall (fun node => forall st,
              outcome (fst (replaceSymbolInNode needle replacement node st))
              = if negb (is_query node) && replaceable node
                then None else Some UnsupportedNode) nodes ->
  forall st,
    outcome (fst (replaceNodes (replaceSymbolInNode needle replacement) nodes st))
    = if forallb (fun n => negb (is_query n) && replaceable n) nodes
      then None else Some UnsupportedNode.
Proof.
  induction 1 as [|node rest Hnode _ IH]; intros st; [reflexivity|].
  cbn [replaceNodes forallb]. unfold bind at 1. specialize (Hnode st).
  destruct (replaceSymbolInNode needle replacement node st) as [[newNode|e] st1].
  - cbn [fst outcome] in Hnode.
    destruct (negb (is_query node) && replaceable node); [|discriminate].
    cbn [andb]. unfold bind at 1. specialize (IH st1).
    destruct (replaceNodes _ rest st1) as [[[changed newRest]|e] st2]; exact IH.
  - cbn [fst outcome] in Hnode |- *.
    destruct (negb (is_query node) && replaceable node); [discriminate|]. exact Hnode.
Qed.

Lemma replaceSymbol_body_outcome (frag : SQL) :
  (forall st,
      outcome (fst (replaceSymbolInNode needle replacement frag st))
      = if negb (is_query frag) && replaceable frag then None else Some UnsupportedNode)
  /\ (forall st,
         outcome (fst (replaceSymbol_body (replaceSymbolInNode needle replacement) frag st))
         = if replaceable frag then None else Some UnsupportedNode).
Proof.
  induction frag as [o text|o names|o value|o content IH|o content force IH
                     |o a b|o symbol fallback _|o nodes flags IH]
    using SQL_nested_ind.
  - split; reflexivity.
  - assert (H : forall st,
               outcome (fst (replaceSymbolInNode needle replacement (IDENTIFIER o names) st))
               = None).
    { intros st. cbn [replaceSymbolInNode].
      destruct (replaceNames needle replacement names) as [[] newNames]; reflexivity. }
    split; exact H.
  - assert (H : forall st,
               outcome (fst (replaceSymbolInNode needle replacement (VALUE o value) st))
               = None).
    { intros st. cbn [replaceSymbolInNode].
      destruct (strict_equal value (JSymbol needle)); reflexivity. }
    split; exact H.
  - destruct IH as [_ IHbody].
    assert (H : forall st,
               outcome (fst (replaceSymbolInNode needle replacement (INDENT o content) st))
               = if replaceable content then None else Some UnsupportedNode).
    { intros st. cbn [replaceSymbolInNode]. unfold bind. specialize (IHbody st).
      destruct (replaceSymbol_body _ content st) as [[newContent|e] st1]; exact IHbody. }
    split; exact H.
  - destruct IH as [_ IHbody].
    assert (H : forall st,
               outcome (fst (replaceSymbolInNode needle replacement
                               (PARENS o content force) st))
               = if replaceable content then None else Some UnsupportedNode).
    { intros st. cbn [replaceSymbolInNode]. unfold bind. specialize (IHbody st).
      destruct (replaceSymbol_body _ content st) as [[newContent|e] st1]; exact IHbody. }
    split; exact H.
  - assert (H : forall st,
               outcome (fst (replaceSymbolInNode needle replacement (SYMBOL_ALIAS o a b) st))
               = None).
    { intros st. cbn [replaceSymbolInNode].
      destruct (negb _ || negb _); reflexivity. }
    split; exact H.
  - assert (H : forall st,
               outcome (fst (replaceSymbolInNode needle replacement
                               (PLACEHOLDER o symbol fallback) st))
               = None).
    { intros st. cbn [replaceSymbolInNode]. case_bool_decide; reflexivity. }
    split; exact H.
  - split; [reflexivity|].
    intros st. cbn [replaceSymbol_body replaceable]. unfold bind.
    assert (Hnodes : Forall (fun node => forall st,
                                 outcome (fst (replaceSymbolInNode needle replacement node st))
                                 = if negb (is_query node) && replaceable node
                                   then None else Some UnsupportedNode) nodes).
    { eapply Forall_impl; [exact IH|]. intros node [Hn _]. exact Hn. }
    pose proof (replaceNodes_outcome nodes Hnodes st) as Hout.
    destruct (replaceNodes _ nodes st) as [[[[] newNodes]|e] st1]; exact Hout.
Qed.

End ReplaceOutcome.

(** X20: when [replaceSymbol] raises.  It returns a fragment exactly when
    no Query stands among the nodes of a Query, in the fragment and in
    the contents of its Indent and Parens nodes; otherwise it raises the
    error of the unhandled node type.  Fallbacks of placeholders are not
    looked at. *)
Theorem replaceSymbol_outcome
        (needle replacement : Symbol) (frag : SQL) (st : ModuleState) :
  outcome (fst (replaceSymbol needle replacement frag st))
  = if replaceable frag then None else Some UnsupportedNode.
Proof. apply replaceSymbol_body_outcome. Qed.

(* ================================================================== *)
(** * The errors of compile *)
(* ================================================================== *)

Section ExpectedErrors.

Variable isDev : bool.
Variable pv : option (gmap Symbol SQL).
Variable rec : SQL -> nat -> M CompileState string.

Hypothesis supplied : supplied_every (compilable isDev pv) pv.

Hypothesis rec_expected : forall sql indent st e st',
    every_node (compilable isDev pv) sql = true ->
    rec sql indent st = (Throw e, st') -> expected_error isDev e.

Lemma printItem_expected itemCount indent itemIndex item frags st e st' :
  every_node (compilable isDev pv) item = true ->
  is_query item = false ->
  printItem isDev pv rec itemCount indent itemIndex item frags st = (Throw e, st') ->
  expected_error isDev e.
Proof.
  intros HG Hq.
  destruct item as [o text|o names|o value|o content|o content force|o a b
                    |o symbol fallback|o nodes flags]; cbn [printItem]; try discriminate Hq.
  - destruct (str_nonempty text); [|discriminate].
    unfold bind, ret, throw.
    destruct (isDev && _ && _) eqn:Hsemi; [|discriminate].
    apply andb_true_iff in Hsemi as [Hsemi _]. apply andb_true_iff in Hsemi as [Hdev _].
    unfold trim_before_semicolon.
    destruct (last frags); [destruct (ends_with_newline _); discriminate|].
    intros [= <- <-]. right; right; right. auto.
  - unfold bind, ret. destruct (mapNames names [] st) as [[mapped|e0] st1] eqn:Hm;
      [discriminate|].
    apply mapNames_frame in Hm as (_ & _ & Hout). discriminate.
  - unfold bind, modify, get, ret, throw.
    destruct (_ <? _)%N; [|discriminate]. intros [= <- <-]. now left.
  - apply every_node_here in HG as Hdev. cbn [compilable] in Hdev.
    intros Hrun. rewrite Hdev in Hrun. revert Hrun.
    apply every_node_indent in HG.
    unfold bind, ret. destruct (rec content (indent + 1) st) as [[inner|e0] st1] eqn:Hrec;
      [discriminate|].
    intros [= <- <-]. eapply rec_expected; eauto.
  - apply every_node_parens in HG.
    unfold bind, ret. destruct (rec content indent st) as [[inner|e0] st1] eqn:Hrec.
    + destruct (force || negb (isParensSafe inner)); discriminate.
    + intros [= <- <-]. eapply rec_expected; eauto.
  - intros Hrun.
    change (printItem isDev pv rec itemCount indent itemIndex (SYMBOL_ALIAS o a b) frags st
            = (Throw e, st')) in Hrun.
    apply symbol_alias_outcome in Hrun as [H|H]; [discriminate|].
    injection H as ->. right; now left.
  - apply every_node_here in HG as Hres. cbn [compilable] in Hres. unfold resolves in Hres.
    destruct (pv ≫= (fun m => m !! symbol)) as [v|] eqn:Hv.
    + assert (Hgv : every_node (compilable isDev pv) v = true).
      { destruct pv as [m|]; [|discriminate]. cbn in Hv. eapply supplied; eauto. }
      unfold bind, ret. destruct (rec v indent st) as [[inner|e0] st1] eqn:Hrec;
        [discriminate|].
      intros [= <- <-]. eapply rec_expected; eauto.
    + destruct fallback as [fb|]; [|discriminate].
      apply every_node_fallback in HG.
      unfold bind, ret. destruct (rec fb indent st) as [[inner|e0] st1] eqn:Hrec;
        [discriminate|].
      intros [= <- <-]. eapply rec_expected; eauto.
Qed.

Lemma printItems_expected itemCount indent (items : list SQL) :
  forall itemIndex frags st e st',
    Forall (fun sql => every_node (compilable isDev pv) sql = true) items ->
    flat_nodes items = true ->
    printItems isDev pv rec itemCount indent items itemIndex frags st = (Throw e, st') ->
    expected_error isDev e.
Proof.
  induction items as [|item rest IH]; intros itemIndex frags st e st' HG Hflat;
    [discriminate|].
  apply Forall_cons in HG as [Hitem Hrest].
  cbn [flat_nodes forallb] in Hflat. apply andb_true_iff in Hflat as [Hq Hflat].
  apply negb_true_iff in Hq.
  cbn [printItems]. unfold bind.
  destruct (printItem isDev pv rec itemCount indent itemIndex item frags st)
    as [[frags1|e0] st1] eqn:H1.
  - intros Hrun. eapply IH; eauto.
  - intros [= <- <-]. eapply printItem_expected; eauto.
Qed.

End ExpectedErrors.

(** X21: the errors that are left to [compile].  When, in the fragment
    and in the fragments supplied for placeholders, no Query has a Query
    among its nodes, every Placeholder resolves and Indent nodes stand in
    development mode only, the walk of [print] can end in three errors
    only: too many placeholders, conflicting aliases, and the exhaustion
    of the stack; in development mode the type error of a semicolon
    without a piece before it is a fourth. *)
Theorem print_expected_errors isDev pv (fuel : nat) sql indent st e st' :
  every_node (compilable isDev pv) sql = true ->
  supplied_every (compilable isDev pv) pv ->
  print isDev pv fuel sql indent st = (Throw e, st') ->
  expected_error isDev e.
Proof.
  intros HG Hpv. revert sql indent st e st' HG.
  induction fuel as [|fuel IH]; intros sql indent st e st' HG.
  - intros [= <- <-]. right; right; now left.
  - rewrite print_unfold. unfold bind, ret.
    destruct (printItems isDev pv (print isDev pv fuel) _ indent _ 0 [] st)
      as [[frags|e0] st1] eqn:Hitems; [discriminate|].
    intros [= <- <-].
    eapply (printItems_expected isDev pv (print isDev pv fuel) Hpv IH); [| |exact Hitems].
    + destruct sql; try (constructor; [exact HG | constructor]).
      now apply every_node_query in HG.
    + destruct sql; try reflexivity.
      apply every_node_here in HG. exact HG.
Qed.

(** X21 at the Value node that goes past the limit. *)
Lemma print_expected_errors_witness :
  print false None 1 (VALUE 0 JNull) 0 (mkCompileState [] 65535 ∅ ∅)
  = (Throw TooManyPlaceholders, mkCompileState [] 65536 ∅ ∅)
  /\ expected_error false TooManyPlaceholders.
Proof.
  assert (Hrun : print false None 1 (VALUE 0 JNull) 0
                       (mkCompileState [] 65535 ∅ ∅)
                 = (Throw TooManyPlaceholders, mkCompileState [] 65536 ∅ ∅))
    by reflexivity.
  split; [exact Hrun|].
  refine (print_expected_errors false None 1 (VALUE 0 JNull) 0 _ _ _ eq_refl _ Hrun).
  intros m symbol sql Hm. discriminate Hm.
Defined.

(** X22: what [print] rejects.  An Indent node outside development mode,
    a Query among the nodes of a Query and a Placeholder without a
    fragment supplied and without fallback are rejected where they are
    met, each with its own error and with the state as it was.  In
    development mode a semicolon that is the last item and has no piece
    before it raises a type error, because the piece before it is looked
    at; in production mode the same fragment prints as the semicolon. *)
Theorem print_rejections :
  (forall pv fuel o content indent st,
      print false pv (S fuel) (INDENT o content) indent st
      = (Throw IndentOutsideDevelopment, st))
  /\ (forall isDev pv fuel o nodes flags itemCount indent itemIndex frags st,
         printItem isDev pv (print isDev pv fuel) itemCount indent itemIndex
                   (QUERY o nodes flags) frags st
         = (Throw UnsupportedNode, st))
  /\ (forall isDev pv fuel o symbol indent st,
         pv ≫= (fun m => m !! symbol) = None ->
         print isDev pv (S fuel) (PLACEHOLDER o symbol None) indent st
         = (Throw MissingPlaceholder, st))
  /\ (forall pv fuel o o' flags indent st,
         print true pv (S fuel) (RAW o ";") indent st = (Throw TypeError, st)
         /\ print true pv (S fuel) (QUERY o' [RAW o ";"] flags) indent st
            = (Throw TypeError, st)
         /\ print false pv (S fuel) (RAW o ";") indent st = (Ok ";", st)).
Proof.
  split; [reflexivity|]. split; [reflexivity|]. split.
  - intros isDev pv fuel o symbol indent st Hpv.
    rewrite print_single_node by reflexivity. cbn [printItem]. now rewrite Hpv.
  - intros. repeat split; reflexivity.
Qed.

(** X23: a placeholder that is supplied with itself.  When the fragment
    supplied for a symbol is a Placeholder of the same symbol, [print]
    calls itself on it without end: whatever the depth allowed, the walk
    over a Placeholder of that symbol ends with the stack exhausted, and
    the fallback is never used. *)
Theorem placeholder_cycle_never_ends isDev pv (symbol : Symbol) (o : oid)
        (fallback : option SQL) :
  pv ≫= (fun m => m !! symbol) = Some (PLACEHOLDER o symbol fallback) ->
  forall fuel o' fallback' indent st,
    print isDev pv fuel (PLACEHOLDER o' symbol fallback') indent st
    = (Throw StackExhausted, st).
Proof.
  intros Hpv. induction fuel as [|fuel IH]; intros o' fallback' indent st; [reflexivity|].
  rewrite print_single_node by reflexivity. cbn [printItem]. rewrite Hpv.
  unfold bind. now rewrite IH.
Qed.

(** X23 at a symbol supplied with a Placeholder of itself. *)
Lemma placeholder_cycle_never_ends_witness :
  print false (Some {[token_a := PLACEHOLDER 1 token_a None]}) 100
        (PLACEHOLDER 2 token_a (Some (RAW 0 "TRUE"))) 0 initial_compile_state
  = (Throw StackExhausted, initial_compile_state).
Proof.
  apply (placeholder_cycle_never_ends false (Some {[token_a := PLACEHOLDER 1 token_a None]})
           token_a 1 None).
  vm_compute. reflexivity.
Defined.

(* ================================================================== *)
(** * The removal of blank lines *)
(* ================================================================== *)

Lemma newline_is_space (c : ascii) : is_char ch_newline c = true -> is_space c = true.
Proof. intros H. apply is_char_true in H. now subst c. Qed.

Lemma after_blank_run_shorter (s rest : string) :
  after_blank_run s = Some rest ->
  String.length rest < String.length s /\ after_blank_run rest = None.
Proof.
  revert rest. induction s as [|c r IH]; intros rest; [discriminate|].
  cbn [after_blank_run String.length]. destruct (is_space c); [|discriminate].
  destruct (after_blank_run r) as [rest'|] eqn:Hr.
  - intros [= <-]. destruct (IH _ eq_refl) as [Hlen Hnone]. split; [lia | exact Hnone].
  - destruct (is_char ch_newline c); [|discriminate].
    intros [= <-]. split; [lia | exact Hr].
Qed.

Lemma collapse_keeps_no_run (fuel : nat) :
  forall s, after_blank_run s = None ->
            after_blank_run (collapse_blank_lines_from fuel s) = None.
Proof.
  induction fuel as [|fuel IH]; intros s Hs; [exact Hs|].
  destruct s as [|c r]; [reflexivity|].
  cbn [after_blank_run] in Hs. cbn [collapse_blank_lines_from].
  destruct (is_space c) eqn:Hsp.
  - destruct (after_blank_run r) as [rest|] eqn:Hr; [discriminate|].
    destruct (is_char ch_newline c) eqn:Hnl; [discriminate|].
    cbn [after_blank_run]. now rewrite Hsp, (IH r Hr), Hnl.
  - destruct (is_char ch_newline c) eqn:Hnl.
    + apply newline_is_space in Hnl. congruence.
    + cbn [after_blank_run]. now rewrite Hsp.
Qed.

Lemma collapse_has_no_blank_line (fuel : nat) :
  forall s, String.length s <= fuel ->
            has_blank_line (collapse_blank_lines_from fuel s) = false.
Proof.
  induction fuel as [|fuel IH]; intros s Hlen.
  - destruct s; [reflexivity | cbn in Hlen; lia].
  - destruct s as [|c r]; [reflexivity|].
    cbn [String.length] in Hlen. cbn [collapse_blank_lines_from].
    destruct (is_char ch_newline c) eqn:Hnl.
    + destruct (after_blank_run r) as [rest|] eqn:Hr.
      * destruct (after_blank_run_shorter _ _ Hr) as [Hshort Hnone].
        cbn [has_blank_line]. rewrite is_char_refl.
        rewrite (collapse_keeps_no_run fuel rest Hnone).
        rewrite bool_decide_eq_false_2 by (intros [x Hx]; discriminate).
        cbn [andb orb]. apply IH. lia.
      * cbn [has_blank_line]. rewrite Hnl.
        rewrite (collapse_keeps_no_run fuel r Hr).
        rewrite bool_decide_eq_false_2 by (intros [x Hx]; discriminate).
        cbn [andb orb]. apply IH. lia.
    + cbn [has_blank_line]. rewrite Hnl. cbn [andb orb]. apply IH. lia.
Qed.

Lemma collapse_without_blank_line (fuel : nat) :
  forall s, has_blank_line s = false -> collapse_blank_lines_from fuel s = s.
Proof.
  induction fuel as [|fuel IH]; intros s Hs; [reflexivity|].
  destruct s as [|c r]; [reflexivity|].
  cbn [has_blank_line] in Hs. apply orb_false_iff in Hs as [Hhere Hr].
  cbn [collapse_blank_lines_from].
  destruct (is_char ch_newline c); [|now rewrite (IH r Hr)].
  cbn [andb] in Hhere. apply bool_decide_eq_false_1 in Hhere.
  destruct (after_blank_run r) as [rest|]; [|now rewrite (IH r Hr)].
  exfalso. apply Hhere. now exists rest.
Qed.

(** X24: the removal of blank lines in development mode.  The text that
    [compile] returns in development mode has no blank line left: the
    pattern (a newline, white space, another newline) matches nowhere in
    it.  A text without blank lines is returned as it is, so that removing
    twice is removing once. *)
Theorem compile_removes_blank_lines :
  (forall pv fuel sql text vs,
      compile true pv fuel sql = Ok (text, vs) -> has_blank_line text = false)
  /\ (forall s, has_blank_line (collapse_blank_lines s) = false)
  /\ (forall s, has_blank_line s = false -> collapse_blank_lines s = s)
  /\ (forall s, collapse_blank_lines (collapse_blank_lines s) = collapse_blank_lines s).
Proof.
  assert (Hno : forall s, has_blank_line (collapse_blank_lines s) = false)
    by (intros s; now apply collapse_has_no_blank_line).
  assert (Hid : forall s, has_blank_line s = false -> collapse_blank_lines s = s)
    by (intros s; apply collapse_without_blank_line).
  split; [|split; [exact Hno|split; [exact Hid|]]].
  - intros pv fuel sql text vs. unfold compile.
    destruct (print true pv fuel sql 0 initial_compile_state) as [[printed|e] st];
      [|discriminate].
    intros [= <- _]. apply Hno.
  - intros s. apply Hid, Hno.
Qed.

(* ================================================================== *)
(** * literal on numbers *)
(* ================================================================== *)

Lemma str_span_all (p : ascii -> bool) (s : string) :
  str_all p s = true -> str_span p s = (s, "").
Proof.
  induction s as [|c r IH]; [reflexivity|].
  cbn [str_all str_span]. rewrite andb_true_iff. intros [Hc Hr].
  now rewrite Hc, (IH Hr).
Qed.

Lemma str_nonempty_true (s : string) : s <> "" -> str_nonempty s = true.
Proof. destruct s; [congruence | reflexivity]. Qed.

Lemma digits_parens_safe (k : N) : isParensSafe (dec k) = true.
Proof.
  unfold isParensSafe. destruct (re_dollar_digits (dec k)); [reflexivity|].
  assert (Hn : re_number (dec k) = true).
  { unfold re_number. rewrite (str_span_all _ _ (dec_digits k)).
    now rewrite (str_nonempty_true _ (dec_nonempty k)). }
  now rewrite Hn.
Qed.

Lemma minus_not_parens_safe (r : string) : isParensSafe (String "-" r) = false.
Proof.
  unfold isParensSafe, re_dollar_digits, re_number, re_dot_digits, re_quoted.
  cbn [str_span str_split].
  change (is_char ch_dollar "-") with false.
  change (is_digit "-") with false.
  change (is_char ch_dot "-") with false.
  change (is_char ch_squote "-") with false.
  cbn [andb orb str_nonempty].
  destruct (str_split ch_dot r) as [|p ps]; reflexivity.
Qed.

Lemma number_text_line (z : Z) :
  str_nonempty (number_to_string (NumInt z)) = true
  /\ number_to_string (NumInt z) <> ";"
  /\ str_all not_newline (number_to_string (NumInt z)) = true.
Proof.
  assert (Hd : forall k, str_all not_newline (dec k) = true)
    by (intros k; exact (str_all_impl _ _ _ digit_not_newline (dec_digits k))).
  assert (Hs : forall k, dec k <> ";").
  { intros k Hk. pose proof (dec_digits k) as Hall. rewrite Hk in Hall. discriminate. }
  cbn [number_to_string]. destruct (z <? 0)%Z.
  - rewrite append_cons, append_nil_l. repeat split; [discriminate|].
    cbn [str_all]. now rewrite Hd.
  - repeat split; [apply str_nonempty_true, dec_nonempty | apply Hs | apply Hd].
Qed.

(** X25: [literal] on numbers.  With a sound cache of Raw nodes, an
    integer of magnitude at most 2^53 (the range in which every integer
    is a number and JavaScript prints all its digits) gives a Raw node of
    its decimal text, which compiles to that text with no values in
    either mode; the text is parens-safe exactly when the integer is not
    negative.  An integer-valued number beyond that range gives a Raw
    node of the text JavaScript prints for it.  A finite number that is
    not an integer gives a Raw node of its text between single quotes
    with the cast to float after it.  A number that is not finite is left
    to [value] and compiles to the first placeholder. *)
Theorem literal_numbers (st : ModuleState) :
  raw_cache_ok st ->
  (forall z,
      exact_integer z ->
      exists o st',
        literal (JNumber (NumInt z)) st = (Ok (RAW o (number_to_string (NumInt z))), st')
        /\ raw_cache_ok st'
        /\ (forall isDev pv fuel,
               compile isDev pv (S fuel) (RAW o (number_to_string (NumInt z)))
               = Ok (number_to_string (NumInt z), []))
        /\ isParensSafe (number_to_string (NumInt z)) = (0 <=? z)%Z)
  /\ (number_to_string (NumInt 0) = "0"
      /\ number_to_string (NumInt 42) = "42"
      /\ number_to_string (NumInt (-5)) = "-5"
      /\ number_to_string (NumInt (2 ^ 53)) = "9007199254740992"
      /\ number_to_string (NumInt (- 2 ^ 53)) = "-9007199254740992")
  /\ (forall repr,
         exists o st',
           literal (JNumber (NumBig repr)) st = (Ok (RAW o repr), st')
           /\ raw_cache_ok st'
           /\ forall pv fuel, compile false pv (S fuel) (RAW o repr) = Ok (repr, []))
  /\ (forall repr,
         exists o st',
           literal (JNumber (NumFrac repr)) st
           = (Ok (RAW o (quote_string repr ++ "::float")), st')
           /\ raw_cache_ok st'
           /\ forall pv fuel,
                compile false pv (S fuel) (RAW o (quote_string repr ++ "::float"))
                = Ok ((quote_string repr ++ "::float")%string, []))
  /\ (forall x,
         number_is_finite x = false ->
         literal (JNumber x) st = (Ok (VALUE (next_oid st) (JNumber x)), after_alloc st)
         /\ forall isDev pv fuel,
              compile isDev pv (S fuel) (VALUE (next_oid st) (JNumber x))
              = Ok ("$1", [JNumber x])).
Proof.
  intros Hok. split; [|split; [|split; [|split]]].
  - intros z _.
    destruct (makeRawNode_ok (number_to_string (NumInt z)) st Hok) as (o & st' & Hrun & Hok').
    exists o, st'. split; [exact Hrun|]. split; [exact Hok'|]. split.
    + intros isDev pv fuel. destruct (number_text_line z) as (Hne & Hsemi & Hnl).
      now apply compile_raw_line.
    + cbn [number_to_string]. destruct (Z.ltb_spec z 0) as [Hneg|Hpos].
      * rewrite append_cons, append_nil_l, minus_not_parens_safe.
        symmetry. apply Z.leb_gt. exact Hneg.
      * rewrite digits_parens_safe. symmetry. now apply Z.leb_le.
  - repeat split; vm_compute; reflexivity.
  - intros repr.
    destruct (makeRawNode_ok repr st Hok) as (o & st' & Hrun & Hok').
    exists o, st'. split; [exact Hrun|]. split; [exact Hok'|].
    intros pv fuel. unfold compile. rewrite print_single_node by reflexivity.
    cbn [printItem]. destruct repr as [|c r]; [reflexivity|].
    cbn [str_nonempty andb]. unfold bind, ret. cbn [app].
    now rewrite str_concat_singleton.
  - intros repr.
    destruct (makeRawNode_ok (quote_string repr ++ "::float") st Hok)
      as (o & st' & Hrun & Hok').
    exists o, st'. split; [exact Hrun|]. split; [exact Hok'|].
    intros pv fuel. unfold compile. rewrite print_single_node by reflexivity.
    unfold quote_string. rewrite append_cons. cbn [printItem str_nonempty andb].
    unfold bind, ret. cbn [app]. now rewrite str_concat_singleton.
  - intros x Hx. split.
    + cbn [literal]. rewrite Hx. reflexivity.
    + intros. apply compile_value.
Qed.

(** X25 at the integers 42 and -5, both in the range of [NumInt], in the
    module as loaded. *)
Lemma literal_numbers_witness :
  (exact_integer 42 /\ exact_integer (-5))
  /\ (exists o st',
         literal (JNumber (NumInt 42)) loaded_module_state = (Ok (RAW o "42"), st')
         /\ isParensSafe "42" = true)
  /\ (exists o st',
         literal (JNumber (NumInt (-5))) loaded_module_state = (Ok (RAW o "-5"), st')
         /\ isParensSafe "-5" = false).
Proof.
  assert (H42 : exact_integer 42) by (vm_compute; discriminate).
  assert (H5 : exact_integer (-5)) by (vm_compute; discriminate).
  destruct (literal_numbers loaded_module_state raw_cache_ok_loaded) as [Hint _].
  split; [split; assumption|]. split.
  - destruct (Hint 42%Z H42) as (o & st' & Hrun & _ & _ & Hsafe).
    exists o, st'. split; [exact Hrun | exact Hsafe].
  - destruct (Hint (-5)%Z H5) as (o & st' & Hrun & _ & _ & Hsafe).
    exists o, st'. split; [exact Hrun | exact Hsafe].
Defined.

(* ================================================================== *)
(** * Constant templates *)
(* ================================================================== *)

Lemma simple_cache_ok_loaded : simple_cache_ok loaded_module_state.
Proof. intros text node H. cbn in H. rewrite lookup_empty in H. discriminate. Qed.

(** X26: a template without values.  With sound caches, the template tag
    applied to a single string returns a Raw node of that string and
    keeps the caches sound; applied to the same string again it returns
    the very same node and changes nothing.  For the empty string the
    node is the blank fragment. *)
Theorem sql_constant_template (text : string) (st : ModuleState) :
  raw_cache_ok st ->
  simple_cache_ok st ->
  (exists o st',
      sql [text] [] st = (Ok (RAW o text), st')
      /\ raw_cache_ok st'
      /\ simple_cache_ok st'
      /\ sql [text] [] st' = (Ok (RAW o text), st'))
  /\ sql [""] [] st = (Ok blank, st).
Proof.
  intros Hraw Hsimple. split; [|reflexivity].
  destruct text as [|c r].
  - exists 3%N, st. repeat split; assumption.
  - set (text := String c r).
    assert (Hsql : forall st0,
               sql [text] [] st0
               = match CACHE_SIMPLE_FRAGMENTS st0 !! text with
                 | Some node => (Ok node, st0)
                 | None =>
                     match makeRawNode text st0 with
                     | (Ok node, st1) =>
                         (Ok node,
                          mkModuleState (next_oid st1) (CACHE_RAW_NODES st1)
                                        (<[text := node]> (CACHE_SIMPLE_FRAGMENTS st1)))
                     | (Throw e, st1) => (Throw e, st1)
                     end
                 end).
    { intros st0. unfold text. cbn [sql str_nonempty].
      unfold bind, simple_cache_get, simple_cache_set, modify, ret.
      destruct (CACHE_SIMPLE_FRAGMENTS st0 !! String c r); [reflexivity|].
      destruct (makeRawNode (String c r) st0) as [[node|e] st1]; reflexivity. }
    destruct (CACHE_SIMPLE_FRAGMENTS st !! text) as [node|] eqn:Hfind.
    + destruct (Hsimple _ _ Hfind) as [o ->].
      exists o, st. rewrite !Hsql, Hfind. repeat split; assumption.
    + destruct (makeRawNode_ok text st Hraw) as (o & st1 & Hrun & Hraw1).
      exists o. eexists. rewrite (Hsql st), Hfind, Hrun.
      split; [reflexivity|]. split; [exact Hraw1|]. split.
      * intros k v. cbn [CACHE_SIMPLE_FRAGMENTS]. rewrite lookup_insert.
        case_decide as Hk; [intros [= <-]; subst k; now exists o|].
        assert (Hsame : CACHE_SIMPLE_FRAGMENTS st1 = CACHE_SIMPLE_FRAGMENTS st).
        { clear -Hrun. unfold makeRawNode, bind, raw_cache_get, raw_cache_set, alloc,
            modify, ret in Hrun.
          destruct (lru_get text (CACHE_RAW_NODES st)) as [[found|] c0];
            injection Hrun as _ <-; reflexivity. }
        rewrite Hsame. apply Hsimple.
      * rewrite Hsql. cbn [CACHE_SIMPLE_FRAGMENTS]. now rewrite lookup_insert_eq.
Qed.

(** X26 at a keyword, in the module as loaded. *)
Lemma sql_constant_template_witness :
  exists o st',
    sql ["select 1"] [] loaded_module_state = (Ok (RAW o "select 1"), st')
    /\ sql ["select 1"] [] st' = (Ok (RAW o "select 1"), st').
Proof.
  destruct (sql_constant_template "select 1" loaded_module_state
              raw_cache_ok_loaded simple_cache_ok_loaded)
    as [(o & st' & Hfirst & _ & _ & Hsecond) _].
  exists o, st'. split; [exact Hfirst | exact Hsecond].
Defined.

(* ================================================================== *)
(** * compile does not look at identities *)
(* ================================================================== *)

Section ForgetIds.

Variable isDev : bool.
Variable pv : option (gmap Symbol SQL).
Variables rec1 rec2 : SQL -> nat -> M CompileState string.

Hypothesis rec_forget : forall sql indent st,
    rec2 (forget_ids sql) indent st = rec1 sql indent st.

Lemma printItem_forget_ids itemCount indent itemIndex item frags st :
  printItem isDev (forget_supplied_ids pv) rec2 itemCount indent itemIndex
            (forget_ids item) frags st
  = printItem isDev pv rec1 itemCount indent itemIndex item frags st.
Proof.
  destruct item as [o text|o names|o value|o content|o content force|o a b
                    |o symbol fallback|o nodes flags]; cbn [forget_ids printItem];
    try reflexivity.
  - destruct isDev; [|reflexivity]. unfold bind. now rewrite rec_forget.
  - unfold bind. now rewrite rec_forget.
  - assert (Hres : match forget_supplied_ids pv ≫= (fun m => m !! symbol) with
                   | Some v => Some v
                   | None => match fallback with
                             | Some sql' => Some (forget_ids sql')
                             | None => None
                             end
                   end
                   = match match pv ≫= (fun m => m !! symbol) with
                           | Some v => Some v
                           | None => fallback
                           end with
                     | Some sql' => Some (forget_ids sql')
                     | None => None
                     end).
    { destruct pv as [m|]; cbn; [|reflexivity].
      rewrite lookup_fmap. destruct (m !! symbol); reflexivity. }
    rewrite Hres.
    destruct (match pv ≫= (fun m => m !! symbol) with
              | Some v => Some v
              | None => fallback
              end) as [resolved|]; [|reflexivity].
    unfold bind. now rewrite rec_forget.
Qed.

Lemma printItems_forget_ids itemCount indent (items : list SQL) :
  forall itemIndex frags st,
    printItems isDev (forget_supplied_ids pv) rec2 itemCount indent
               (map forget_ids items) itemIndex frags st
    = printItems isDev pv rec1 itemCount indent items itemIndex frags st.
Proof.
  induction items as [|item rest IH]; intros itemIndex frags st; [reflexivity|].
  cbn [map printItems]. unfold bind. rewrite printItem_forget_ids.
  destruct (printItem isDev pv rec1 itemCount indent itemIndex item frags st)
    as [[frags1|e] st1]; [apply IH | reflexivity].
Qed.

End ForgetIds.

Lemma print_forget_ids isDev pv (fuel : nat) :
  forall sql indent st,
    print isDev (forget_supplied_ids pv) fuel (forget_ids sql) indent st
    = print isDev pv fuel sql indent st.
Proof.
  induction fuel as [|fuel IH]; intros sql indent st; [reflexivity|].
  rewrite !print_unfold. unfold bind.
  assert (Hitems : match forget_ids sql with
                   | QUERY _ nodes _ => nodes
                   | _ => [forget_ids sql]
                   end
                   = map forget_ids match sql with QUERY _ nodes _ => nodes | _ => [sql] end)
    by (now destruct sql).
  rewrite Hitems, length_map.
  now rewrite (printItems_forget_ids isDev pv _ _ IH).
Qed.

(** X28: [compile] does not look at identities or flags.  Two fragments
    that are alike but for the identities of their nodes and the flags of
    their Queries compile to the same text and the same values, or fail
    with the same error. *)
Theorem compile_ignores_identities :
  (forall isDev pv fuel sql,
      compile isDev (forget_supplied_ids pv) fuel (forget_ids sql)
      = compile isDev pv fuel sql)
  /\ (forall isDev pv1 pv2 fuel sql1 sql2,
         forget_ids sql1 = forget_ids sql2 ->
         forget_supplied_ids pv1 = forget_supplied_ids pv2 ->
         compile isDev pv1 fuel sql1 = compile isDev pv2 fuel sql2).
Proof.
  assert (H : forall isDev pv fuel sql,
             compile isDev (forget_supplied_ids pv) fuel (forget_ids sql)
             = compile isDev pv fuel sql).
  { intros isDev pv fuel sql. unfold compile. now rewrite print_forget_ids. }
  split; [exact H|].
  intros isDev pv1 pv2 fuel sql1 sql2 Hsql Hpv.
  rewrite <- (H isDev pv1), <- (H isDev pv2). now rewrite Hsql, Hpv.
Qed.

(** ** Equivalent fragments compile to the same text *)

Lemma names_equivalent_equal (names1 names2 : list Name) :
  Forall2 (fun x y => identifiersAreEquivalent None x y = Ok true) names1 names2 ->
  names1 = names2.
Proof.
  induction 1 as [|x y xs ys Hxy _ IH]; [reflexivity|]. f_equal; [|exact IH].
  destruct x as [a|[s1 n1]], y as [b|[s2 n2]]; cbn [identifiersAreEquivalent] in Hxy;
    try discriminate.
  - injection Hxy as Hxy. apply bool_decide_eq_true_1 in Hxy. now subst.
  - rewrite !getSubstitute_none in Hxy. cbn [result_bind sn_n sn_s] in Hxy.
    injection Hxy as Hxy. apply andb_true_iff in Hxy as [Hn Hs].
    apply bool_decide_eq_true_1 in Hn, Hs. now subst.
Qed.

Lemma subnodes_self (sql : SQL) : sql ∈ subnodes sql.
Proof. destruct sql; left. Qed.

Lemma subnodes_content (outer content : SQL) :
  (exists o, outer = INDENT o content) \/ (exists o force, outer = PARENS o content force) ->
  forall x, x ∈ subnodes content -> x ∈ subnodes outer.
Proof. intros [[o ->]|(o & force & ->)] x Hx; now right. Qed.

Lemma subnodes_node (o : oid) (nodes : list SQL) (flags : N) (node : SQL) :
  node ∈ nodes -> forall x, x ∈ subnodes node -> x ∈ subnodes (QUERY o nodes flags).
Proof.
  intros Hnode x Hx. right. apply list_elem_of_In, in_flat_map.
  exists node. split; now apply list_elem_of_In.
Qed.

Lemma without_placeholders_sub (outer inner : SQL) :
  (forall x, x ∈ subnodes inner -> x ∈ subnodes outer) ->
  without_placeholders outer = true -> without_placeholders inner = true.
Proof.
  unfold without_placeholders. rewrite !forallb_forall. intros Hsub Hall x Hx.
  apply Hall. apply list_elem_of_In, Hsub. now apply list_elem_of_In.
Qed.

Lemma identities_agree_sub (outer1 outer2 inner1 inner2 : SQL) :
  (forall x, x ∈ subnodes inner1 -> x ∈ subnodes outer1) ->
  (forall x, x ∈ subnodes inner2 -> x ∈ subnodes outer2) ->
  identities_agree outer1 outer2 -> identities_agree inner1 inner2.
Proof. intros H1 H2 Hagree x y Hx Hy. apply Hagree; auto. Qed.

Lemma nodes_same_shape (nodes1 nodes2 : list SQL) :
  Forall2 (fun x y => isEquivalent_sql None x y = Ok true) nodes1 nodes2 ->
  Forall (fun x => forall y,
              isEquivalent_sql None x y = Ok true ->
              without_placeholders x = true ->
              identities_agree x y ->
              without_values (forget_ids x) = without_values (forget_ids y)) nodes1 ->
  Forall (fun x => without_placeholders x = true) nodes1 ->
  (forall x y, x ∈ nodes1 -> y ∈ nodes2 -> identities_agree x y) ->
  map without_values (map forget_ids nodes1) = map without_values (map forget_ids nodes2).
Proof.
  induction 1 as [|x y xs ys Hxy _ IH]; intros Hshape Hnp Hagree; [reflexivity|].
  apply Forall_cons in Hshape as [Hx Hxs]. apply Forall_cons in Hnp as [Hnpx Hnpxs].
  cbn [map]. f_equal.
  - apply Hx; [exact Hxy | exact Hnpx |]. apply Hagree; left.
  - apply IH; [exact Hxs | exact Hnpxs |].
    intros x' y' Hx' Hy'. apply Hagree; now right.
Qed.

Lemma equivalent_same_shape (sql1 : SQL) :
  forall sql2,
    isEquivalent_sql None sql1 sql2 = Ok true ->
    without_placeholders sql1 = true ->
    identities_agree sql1 sql2 ->
    without_values (forget_ids sql1) = without_values (forget_ids sql2).
Proof.
  induction sql1 as [o text|o names|o value|o content IH|o content force IH
                     |o a b|o symbol fallback _|o nodes flags IH]
    using SQL_nested_ind; intros sql2 Heq Hnp Hagree;
    (match type of Heq with
     | isEquivalent_sql None ?a sql2 = _ => destruct (same_object a sql2) eqn:Hobj
     end;
     [ apply N.eqb_eq in Hobj;
       now rewrite (Hagree _ _ (subnodes_self _) (subnodes_self _) Hobj)
     | ]);
    destruct sql2 as [o2 text2|o2 names2|o2 value2|o2 content2|o2 content2 force2
                      |o2 a2 b2|o2 symbol2 fallback2|o2 nodes2 flags2];
    cbn [isEquivalent_sql is_query] in Heq; rewrite Hobj in Heq; try discriminate Heq.
  - injection Heq as Heq. apply bool_decide_eq_true_1 in Heq. now subst.
  - apply arraysMatch_true in Heq as [Hid|Hnames].
    + unfold same_object in Hobj. cbn [oid_of] in Hobj. subst o2.
      now rewrite N.eqb_refl in Hobj.
    + cbn [forget_ids without_values]. now rewrite (names_equivalent_equal _ _ Hnames).
  - reflexivity.
  - cbn [forget_ids without_values]. f_equal. apply IH; [exact Heq | |].
    + eapply without_placeholders_sub; [|exact Hnp].
      apply subnodes_content. left. now exists o.
    + eapply identities_agree_sub; [| |exact Hagree]; apply subnodes_content; left; eauto.
  - destruct (Bool.eqb force2 force) eqn:Hforce; [|discriminate Heq].
    apply Bool.eqb_prop in Hforce. subst force2. cbn [negb] in Heq.
    cbn [forget_ids without_values]. f_equal. apply IH; [exact Heq | |].
    + eapply without_placeholders_sub; [|exact Hnp].
      apply subnodes_content. right. now exists o, force.
    + eapply identities_agree_sub; [| |exact Hagree]; apply subnodes_content; right; eauto.
  - exfalso. unfold without_placeholders in Hnp. cbn in Hnp. discriminate.
  - apply arraysMatch_true in Heq as [Hid|Hnodes].
    + unfold same_object in Hobj. cbn [oid_of] in Hobj. subst o2.
      now rewrite N.eqb_refl in Hobj.
    + cbn [forget_ids without_values]. f_equal.
      apply (nodes_same_shape nodes nodes2 Hnodes IH).
      * rewrite Forall_forall. intros x Hx.
        eapply without_placeholders_sub; [|exact Hnp]. now apply subnodes_node.
      * intros x y Hx Hy.
        eapply identities_agree_sub; [| |exact Hagree]; now apply subnodes_node.
Qed.

(** X29: what [isEquivalent] promises of [compile].  Two fragments that
    [isEquivalent] finds equivalent without a table of substitutes
    compile to the same text, or fail with the same error, whatever is
    supplied for placeholders, provided that the first has no Placeholder
    (the fallbacks of Placeholders are not compared) and that a node of
    the one and a node of the other with the same identity are the same
    node. *)
Theorem isEquivalent_same_text (sql1 sql2 : SQL) :
  isEquivalent None (IsSQL sql1) (IsSQL sql2) = Ok true ->
  without_placeholders sql1 = true ->
  identities_agree sql1 sql2 ->
  forall isDev pv fuel,
    result_text (compile isDev pv fuel sql1) = result_text (compile isDev pv fuel sql2).
Proof.
  intros Heq Hnp Hagree isDev pv fuel.
  pose proof (equivalent_same_shape sql1 sql2 Heq Hnp Hagree) as Hshape.
  assert (Htext : forall sql,
             result_text (compile isDev pv fuel sql)
             = result_text
                 (compile isDev (without_supplied_values (forget_supplied_ids pv)) fuel
                          (without_values (forget_ids sql)))).
  { intros sql. unfold compile.
    destruct (print_without_values isDev (forget_supplied_ids pv) fuel (forget_ids sql) 0
                initial_compile_state []) as [vs' Hrun].
    change (set_values [] initial_compile_state) with initial_compile_state in Hrun.
    rewrite Hrun, print_forget_ids.
    destruct (print isDev pv fuel sql 0 initial_compile_state) as [[text|e] st1];
      reflexivity. }
  now rewrite (Htext sql1), (Htext sql2), Hshape.
Qed.

(** X29 at two copies of a comparison with a value. *)
Lemma isEquivalent_same_text_witness :
  result_text (compile false None 2 (QUERY 3 [RAW 1 "id = "; VALUE 2 (JNumber (NumInt 7))] 0))
  = result_text (compile false None 2
                   (QUERY 6 [RAW 4 "id = "; VALUE 5 (JNumber (NumInt 7))] 0)).
Proof.
  apply (isEquivalent_same_text
           (QUERY 3 [RAW 1 "id = "; VALUE 2 (JNumber (NumInt 7))] 0)
           (QUERY 6 [RAW 4 "id = "; VALUE 5 (JNumber (NumInt 7))] 0)).
  - reflexivity.
  - reflexivity.
  - intros x y Hx Hy Hid. exfalso. cbn in Hx, Hy.
    repeat (apply elem_of_cons in Hx as [->|Hx]);
      repeat (apply elem_of_cons in Hy as [->|Hy]);
      try discriminate Hid;
      try (now apply elem_of_nil in Hx); try (now apply elem_of_nil in Hy).
Defined.

(* ================================================================== *)
(** * The values array holds the payloads in order *)
(* ================================================================== *)

Section Payloads.

Variable isDev : bool.
Variable pv : option (gmap Symbol SQL).
Variable rec : SQL -> nat -> M CompileState string.

Hypothesis rec_payloads : forall sql indent st text st',
    without_placeholders sql = true ->
    values_in_step st ->
    rec sql indent st = (Ok text, st') ->
    values_in_step st' /\ values st' = values st ++ payloads sql.

Lemma printItem_payloads itemCount indent itemIndex item frags st frags' st' :
  without_placeholders item = true ->
  values_in_step st ->
  printItem isDev pv rec itemCount indent itemIndex item frags st = (Ok frags', st') ->
  values_in_step st' /\ values st' = values st ++ payloads item.
Proof.
  intros Hnp Hstep.
  destruct item as [o text|o names|o value|o content|o content force|o a b
                    |o symbol fallback|o nodes flags]; cbn [payloads].
  - cbn [printItem]. destruct (str_nonempty text).
    + unfold bind, ret, throw. destruct (isDev && _ && _).
      * destruct (trim_before_semicolon frags); [|discriminate].
        intros [= _ <-]. now rewrite app_nil_r.
      * intros [= _ <-]. now rewrite app_nil_r.
    + intros [= _ <-]. now rewrite app_nil_r.
  - cbn [printItem]. unfold bind, ret.
    destruct (mapNames names [] st) as [[mapped|e] st1] eqn:Hm; [|discriminate].
    apply mapNames_frame in Hm as (Hv & Hc & _). intros [= _ <-].
    rewrite app_nil_r. split; [|exact Hv].
    destruct Hstep as [Hle Hlen]. split; [now rewrite Hc | now rewrite Hv, Hc].
  - rewrite value_step by exact Hstep. destruct Hstep as [Hle Hlen].
    destruct (N.ltb_spec (valueCount st) 65535) as [Hlt|Hge]; [|discriminate].
    intros [= _ <-]. unfold with_value, values_in_step. cbn [values valueCount].
    split; [|reflexivity]. split; [lia | rewrite length_app; cbn [length]; lia].
  - cbn [printItem]. destruct isDev; [|discriminate].
    unfold bind, ret. destruct (rec content (indent + 1) st) as [[inner|e] st1] eqn:Hrec;
      [|discriminate].
    intros [= _ <-]. eapply rec_payloads; [|exact Hstep|exact Hrec].
    eapply without_placeholders_sub; [|exact Hnp].
    apply subnodes_content. left. now exists o.
  - cbn [printItem]. unfold bind, ret.
    destruct (rec content indent st) as [[inner|e] st1] eqn:Hrec; [|discriminate].
    intros Hrun.
    assert (Hst : st' = st1)
      by (destruct (force || negb (isParensSafe inner)); now injection Hrun).
    subst st'. eapply rec_payloads; [|exact Hstep|exact Hrec].
    eapply without_placeholders_sub; [|exact Hnp].
    apply subnodes_content. right. now exists o, force.
  - intros Hrun. apply symbol_alias_frame in Hrun as (Hv & Hc & _).
    rewrite app_nil_r. split; [|exact Hv].
    destruct Hstep as [Hle Hlen]. split; [now rewrite Hc | now rewrite Hv, Hc].
  - unfold without_placeholders in Hnp. cbn in Hnp. discriminate.
  - discriminate.
Qed.

Lemma printItems_payloads itemCount indent (items : list SQL) :
  forall itemIndex frags st frags' st',
    Forall (fun item => without_placeholders item = true) items ->
    values_in_step st ->
    printItems isDev pv rec itemCount indent items itemIndex frags st = (Ok frags', st') ->
    values_in_step st' /\ values st' = values st ++ flat_map payloads items.
Proof.
  induction items as [|item rest IH]; intros itemIndex frags st frags' st' Hnp Hstep.
  - intros [= _ <-]. now rewrite app_nil_r.
  - apply Forall_cons in Hnp as [Hitem Hrest].
    cbn [printItems flat_map]. unfold bind.
    destruct (printItem isDev pv rec itemCount indent itemIndex item frags st)
      as [[frags1|e] st1] eqn:H1; [|discriminate].
    destruct (printItem_payloads _ _ _ _ _ _ _ _ Hitem Hstep H1) as [Hstep1 Hv1].
    intros Hrun. destruct (IH _ _ _ _ _ Hrest Hstep1 Hrun) as [Hstep' Hv'].
    split; [exact Hstep'|]. now rewrite Hv', Hv1, app_assoc.
Qed.

End Payloads.

Lemma print_payloads isDev pv (fuel : nat) :
  forall sql indent st text st',
    without_placeholders sql = true ->
    values_in_step st ->
    print isDev pv fuel sql indent st = (Ok text, st') ->
    values_in_step st' /\ values st' = values st ++ payloads sql.
Proof.
  induction fuel as [|fuel IH]; intros sql indent st text st' Hnp Hstep; [discriminate|].
  rewrite print_unfold. unfold bind, ret.
  destruct (printItems isDev pv (print isDev pv fuel) _ indent _ 0 [] st)
    as [[frags|e] st1] eqn:Hitems; [|discriminate].
  intros [= _ <-].
  assert (Hpay : flat_map payloads match sql with QUERY _ nodes _ => nodes | _ => [sql] end
                 = payloads sql)
    by (destruct sql; cbn [flat_map payloads]; now rewrite ?app_nil_r).
  rewrite <- Hpay.
  eapply (printItems_payloads isDev pv (print isDev pv fuel) IH); [|exact Hstep|exact Hitems].
  destruct sql; try (constructor; [exact Hnp | constructor]).
  rewrite Forall_forall. intros node Hnode.
  eapply without_placeholders_sub; [|exact Hnp]. now apply subnodes_node.
Qed.

(** X6: the values array.  When [compile] succeeds on a fragment without
    Placeholders, the values it returns are the payloads of the Value
    nodes of the fragment, one for one and in the order in which the
    nodes stand; a node that stands twice in the fragment gives its
    payload twice. *)
Theorem compile_values_in_order isDev pv (fuel : nat) (sql : SQL) (text : string)
        (vs : list JsVal) :
  without_placeholders sql = true ->
  compile isDev pv fuel sql = Ok (text, vs) ->
  vs = payloads sql.
Proof.
  intros Hnp. unfold compile.
  destruct (print isDev pv fuel sql 0 initial_compile_state) as [[printed|e] st] eqn:Hrun;
    [|discriminate].
  intros [= _ <-].
  now destruct (print_payloads isDev pv fuel sql 0 _ _ _ Hnp values_in_step_initial Hrun)
    as [_ ->].
Qed.

(** X6 at a comparison in parentheses that stands twice. *)
Lemma compile_values_in_order_witness :
  [JString "a"; JNumber (NumInt 1); JString "a"; JNumber (NumInt 1)]
  = payloads
      (QUERY 9 [PARENS 4 (QUERY 3 [VALUE 1 (JString "a"); RAW 0 " < ";
                                   VALUE 2 (JNumber (NumInt 1))] 0) false;
                RAW 5 " or ";
                PARENS 4 (QUERY 3 [VALUE 1 (JString "a"); RAW 0 " < ";
                                   VALUE 2 (JNumber (NumInt 1))] 0) false] 0).
Proof.
  apply (compile_values_in_order false None 3 _ "($1 < $2) or ($3 < $4)");
    reflexivity.
Defined.

(* ================================================================== *)
(** * The constructors keep the caches sound *)
(* ================================================================== *)

Lemma keeps_caches_ret {A} (x : A) : keeps_caches (ret x).
Proof. intros st r st' [= _ <-] H. exact H. Qed.

Lemma keeps_caches_throw {A} (e : Error) : keeps_caches (@throw ModuleState A e).
Proof. intros st r st' [= _ <-] H. exact H. Qed.

Lemma keeps_caches_bind {A B} (m : M ModuleState A) (k : A -> M ModuleState B) :
  keeps_caches m -> (forall x, keeps_caches (k x)) -> keeps_caches (bind m k).
Proof.
  intros Hm Hk st r st'. unfold bind.
  destruct (m st) as [[x|e] st1] eqn:H1.
  - intros Hrun Hok. eapply Hk; [exact Hrun|]. eapply Hm; eauto.
  - intros [= _ <-] Hok. eapply Hm; eauto.
Qed.

Lemma keeps_caches_alloc : keeps_caches alloc.
Proof. intros st r st' [= _ <-] H. exact H. Qed.

Lemma makeRawNode_simple_cache (text : string) (st : ModuleState) r st' :
  makeRawNode text st = (r, st') ->
  CACHE_SIMPLE_FRAGMENTS st' = CACHE_SIMPLE_FRAGMENTS st.
Proof.
  unfold makeRawNode, bind, raw_cache_get, raw_cache_set, alloc, modify, ret.
  destruct (lru_get text (CACHE_RAW_NODES st)) as [[found|] c0];
    intros [= _ <-]; reflexivity.
Qed.

Lemma keeps_caches_makeRawNode (text : string) : keeps_caches (makeRawNode text).
Proof.
  intros st r st' Hrun [Hraw Hsimple].
  destruct (makeRawNode_ok text st Hraw) as (o & st1 & Hrun1 & Hraw1).
  rewrite Hrun1 in Hrun. injection Hrun as _ <-. split; [exact Hraw1|].
  unfold simple_cache_ok. rewrite (makeRawNode_simple_cache _ _ _ _ Hrun1). exact Hsimple.
Qed.

Lemma keeps_caches_sql_loop (strings : list string) :
  forall values items, keeps_caches (sql_loop strings values items).
Proof.
  induction strings as [|text strings' IH]; intros values items; [apply keeps_caches_ret|].
  cbn [sql_loop]. apply keeps_caches_bind.
  - destruct (str_nonempty text); [|apply keeps_caches_ret].
    apply keeps_caches_bind; [apply keeps_caches_makeRawNode|].
    intros node. apply keeps_caches_ret.
  - intros items1. destruct strings'; [apply keeps_caches_ret|].
    destruct values; [apply keeps_caches_throw | apply IH].
Qed.

Lemma keeps_caches_sql (strings : list string) (values : list SQL) :
  keeps_caches (sql strings values).
Proof.
  assert (Hquery : keeps_caches (let* items := sql_loop strings values [] in
                                 makeQueryNode items 0)).
  { apply keeps_caches_bind; [apply keeps_caches_sql_loop|].
    intros items. apply keeps_caches_bind; [apply keeps_caches_alloc|].
    intros o. apply keeps_caches_ret. }
  destruct strings as [|first [|second strings]]; try exact Hquery.
  cbn [sql]. destruct (str_nonempty first); [|apply keeps_caches_ret].
  intros st r st' Hrun [Hraw Hsimple]. unfold bind, simple_cache_get in Hrun.
  destruct (CACHE_SIMPLE_FRAGMENTS st !! first) as [node|] eqn:Hfind.
  - injection Hrun as _ <-. now split.
  - destruct (makeRawNode_ok first st Hraw) as (o & st1 & Hrun1 & Hraw1).
    rewrite Hrun1 in Hrun. unfold simple_cache_set, modify, ret in Hrun.
    injection Hrun as _ <-. split; [exact Hraw1|].
    intros k v. cbn [CACHE_SIMPLE_FRAGMENTS]. rewrite lookup_insert.
    case_decide as Hk; [intros [= <-]; subst k; now exists o|].
    rewrite (makeRawNode_simple_cache _ _ _ _ Hrun1). apply Hsimple.
Qed.

Lemma keeps_caches_parens (fragment : SQL) (force : option bool) :
  keeps_caches (parens fragment force).
Proof.
  intros st r st' Hrun Hok. destruct r as [node|e].
  - destruct (parens_returns _ _ _ _ _ Hrun) as [_ [->| [_ ->]]]; exact Hok.
  - pose proof (parens_outcome fragment force st) as Hout.
    destruct (unwraps_to_empty fragment force).
    + rewrite Hrun in Hout. injection Hout as _ <-. exact Hok.
    + destruct Hout as (node & st2 & Hout). rewrite Hrun in Hout. discriminate Hout.
Qed.

Section ReplaceKeeps.

Variable needle : Symbol.
Variable replacement : Symbol.

Lemma keeps_caches_replaceNodes (nodes : list SQL) :
  Forall (fun node => keeps_caches (replaceSymbolInNode needle replacement node)) nodes ->
  keeps_caches (replaceNodes (replaceSymbolInNode needle replacement) nodes).
Proof.
  induction 1 as [|node rest Hnode _ IH]; [apply keeps_caches_ret|].
  cbn [replaceNodes]. apply keeps_caches_bind; [exact Hnode|].
  intros newNode. apply keeps_caches_bind; [exact IH|].
  intros [changed newNodes]. apply keeps_caches_ret.
Qed.

Lemma keeps_caches_replace (frag : SQL) :
  keeps_caches (replaceSymbolInNode needle replacement frag)
  /\ keeps_caches (replaceSymbol_body (replaceSymbolInNode needle replacement) frag).
Proof.
  assert (Hmake : forall A (m : M ModuleState A),
             (forall st, exists x, m st = (Ok x, st) \/ m st = (Ok x, after_alloc st)) ->
             keeps_caches m).
  { intros A m Hm st r st' Hrun Hok. destruct (Hm st) as [x [H|H]];
      rewrite H in Hrun; injection Hrun as _ <-; exact Hok. }
  induction frag as [o text|o names|o value|o content IH|o content force IH
                     |o a b|o symbol fallback _|o nodes flags IH]
    using SQL_nested_ind.
  - split; apply keeps_caches_ret.
  - assert (H : keeps_caches (replaceSymbolInNode needle replacement (IDENTIFIER o names))).
    { apply Hmake. intros st. cbn [replaceSymbolInNode].
      destruct (replaceNames needle replacement names) as [[] newNames];
        eexists; [right | left]; reflexivity. }
    split; exact H.
  - assert (H : keeps_caches (replaceSymbolInNode needle replacement (VALUE o value))).
    { apply Hmake. intros st. cbn [replaceSymbolInNode].
      destruct (strict_equal value (JSymbol needle)); eexists; [right | left]; reflexivity. }
    split; exact H.
  - destruct IH as [_ IHbody].
    assert (H : keeps_caches (replaceSymbolInNode needle replacement (INDENT o content))).
    { cbn [replaceSymbolInNode]. apply keeps_caches_bind; [exact IHbody|].
      intros newContent. apply keeps_caches_bind; [apply keeps_caches_alloc|].
      intros o'. apply keeps_caches_ret. }
    split; exact H.
  - destruct IH as [_ IHbody].
    assert (H : keeps_caches (replaceSymbolInNode needle replacement
                                (PARENS o content force))).
    { cbn [replaceSymbolInNode]. apply keeps_caches_bind; [exact IHbody|].
      intros newContent. apply keeps_caches_bind; [apply keeps_caches_alloc|].
      intros o'. apply keeps_caches_ret. }
    split; exact H.
  - assert (H : keeps_caches (replaceSymbolInNode needle replacement (SYMBOL_ALIAS o a b))).
    { apply Hmake. intros st. cbn [replaceSymbolInNode].
      destruct (negb _ || negb _); eexists; [right | left]; reflexivity. }
    split; exact H.
  - assert (H : keeps_caches (replaceSymbolInNode needle replacement
                                (PLACEHOLDER o symbol fallback))).
    { apply Hmake. intros st. cbn [replaceSymbolInNode].
      case_bool_decide; eexists; [right | left]; reflexivity. }
    split; exact H.
  - split; [apply keeps_caches_throw|].
    cbn [replaceSymbol_body]. apply keeps_caches_bind.
    + apply keeps_caches_replaceNodes. eapply Forall_impl; [exact IH|].
      intros node [Hn _]. exact Hn.
    + intros [[] newNodes]; [|apply keeps_caches_ret].
      apply keeps_caches_bind; [apply keeps_caches_alloc|].
      intros o'. apply keeps_caches_ret.
Qed.

End ReplaceKeeps.

(** X30: the caches stay sound.  Every entry of the cache of Raw nodes
    and of the cache of constant templates is a Raw node of the text it
    is filed under: this holds when the module is loaded, and every
    constructor of the module, and [replaceSymbol], keeps it, whether it
    returns or raises. *)
Theorem constructors_keep_caches :
  caches_ok loaded_module_state
  /\ (forall text, keeps_caches (raw text))
  /\ (forall names, keeps_caches (identifier names))
  /\ (forall val, keeps_caches (value val))
  /\ (forall val, keeps_caches (literal val))
  /\ (forall strings values, keeps_caches (sql strings values))
  /\ (forall items separator, keeps_caches (join items separator))
  /\ (forall isDev fragment, keeps_caches (indent isDev fragment))
  /\ (forall isDev condition fragment, keeps_caches (indentIf isDev condition fragment))
  /\ (forall fragment force, keeps_caches (parens fragment force))
  /\ (forall symbol1 symbol2, keeps_caches (symbolAlias symbol1 symbol2))
  /\ (forall symbol fallback, keeps_caches (placeholder symbol fallback))
  /\ (forall needle replacement frag, keeps_caches (replaceSymbol needle replacement frag)).
Proof.
  assert (Hnode : forall (f : oid -> SQL), keeps_caches (let* o := alloc in ret (f o))).
  { intros f. apply keeps_caches_bind; [apply keeps_caches_alloc|].
    intros o. apply keeps_caches_ret. }
  assert (Hvalue : forall val, keeps_caches (value val))
    by (intros val; exact (Hnode (fun o => VALUE o val))).
  repeat apply conj.
  - apply raw_cache_ok_loaded.
  - apply simple_cache_ok_loaded.
  - intros text. apply keeps_caches_makeRawNode.
  - intros [|name names]; [apply keeps_caches_throw|]. cbn [identifier]. apply Hnode.
  - exact Hvalue.
  - intros [| |b|x|s| | |]; cbn [literal]; try apply Hvalue; try apply keeps_caches_ret.
    + destruct (number_is_finite x); [|apply Hvalue].
      destruct (number_is_integer x); apply keeps_caches_makeRawNode.
    + destruct (re_inline_safe s); [apply keeps_caches_makeRawNode | apply Hvalue].
  - apply keeps_caches_sql.
  - intros [|first [|second rest]] separator; cbn [join]; try apply keeps_caches_ret.
    apply keeps_caches_bind.
    + destruct (str_nonempty separator);
        [apply keeps_caches_makeRawNode | apply keeps_caches_ret].
    + intros sepNode. apply Hnode.
  - intros [] fragment; cbn [indent]; [apply Hnode | apply keeps_caches_ret].
  - intros [] [] fragment; cbn [indentIf andb]; try apply keeps_caches_ret; apply Hnode.
  - apply keeps_caches_parens.
  - intros symbol1 symbol2. apply Hnode.
  - intros symbol fallback. apply Hnode.
  - intros needle replacement frag. apply keeps_caches_replace.
Qed.
